(** * Schema-guided dialogue state tracking: decoding and masking core

    A shallow embedding of
    - [nemo/collections/nlp/nm/trainables/dialogue_state_tracking/sgd/sgd_model.py]
    - [nemo/collections/nlp/callbacks/sgd_callback.py]
    - [nemo/collections/nlp/nm/trainables/common/huggingface/bert_nm.py]

    Tensors are contiguous row-major arrays: a size and a flat list of
    entries.  Floating-point entries are modelled as real numbers (exact
    arithmetic; rounding, overflow and NaN are outside the model), integer
    entries as [Z] (the values of int64, whose addition wraps around),
    boolean entries as [bool].  Python exceptions are the [Raise] results of
    an error monad. *)

From Stdlib Require Import Reals Lra ZArith Lia.
From stdpp Require Import base list strings gmap.

Open Scope nat_scope.

#[local] Coercion Z.of_nat : nat >-> Z.

(** ** Exceptions and the error monad *)

Inductive exn : Type :=
  | TypeError
  | ValueError (msg : string)
  | RuntimeError
  | IndexError
  | AttributeError
  | UnboundLocalError
  | LibraryError (origin : string).

Inductive result (A : Type) : Type :=
  | Ok (a : A)
  | Raise (e : exn).
Arguments Ok {A} a.
Arguments Raise {A} e.

#[global] Instance result_bind : MBind result := λ A B k m,
  match m with
  | Ok a => k a
  | Raise e => Raise e
  end.
#[global] Instance result_ret : MRet result := λ A a, Ok a.
#[global] Instance result_fmap : FMap result := λ A B f m,
  match m with
  | Ok a => Ok (f a)
  | Raise e => Raise e
  end.

(** ** Row-major index arithmetic *)

Fixpoint numel (sh : list nat) : nat :=
  match sh with
  | [] => 1
  | d :: sh' => d * numel sh'
  end.

(** Offset of a multi-index. *)
Fixpoint ravel (sh idx : list nat) : nat :=
  match sh, idx with
  | _ :: sh', i :: idx' => i * numel sh' + ravel sh' idx'
  | _, _ => 0
  end.

(** Multi-index of an offset. *)
Fixpoint unravel (sh : list nat) (k : nat) : list nat :=
  match sh with
  | [] => []
  | _ :: sh' => (k / numel sh') :: unravel sh' (k mod numel sh')
  end.

Definition in_bounds (sh idx : list nat) : Prop := Forall2 lt idx sh.

(** ** Tensors *)

Record tensor (A : Type) : Type := mkTensor { size : list nat; data : list A }.
Arguments mkTensor {A} size data.
Arguments size {A} t.
Arguments data {A} t.

Definition wf {A} (t : tensor A) : Prop := length (data t) = numel (size t).

Definition dim {A} (t : tensor A) : nat := length (size t).

(** [t[idx]] for an in-range multi-index. *)
Definition item `{Inhabited A} (t : tensor A) (idx : list nat) : A :=
  data t !!! ravel (size t) idx.

(** The tensor of size [sh] whose entry at [idx] is [f idx]. *)
Definition build {A} (sh : list nat) (f : list nat → A) : tensor A :=
  mkTensor sh ((fun k => f (unravel sh k)) <$> seq 0 (numel sh)).

Definition tmap {A B} (f : A → B) (t : tensor A) : tensor B :=
  mkTensor (size t) (f <$> data t).

#[global] Instance R_inhabited : Inhabited R := populate 0%R.

(** ** The torch operations used by the sources

    Dimensions given as Python integers ([Z]) may be negative and count
    from the end.  Every operation raises where torch raises. *)

Module torch.

Definition norm_dim (rank : nat) (d : Z) : result nat :=
  if bool_decide (0 ≤ d < rank)%Z then Ok (Z.to_nat d)
  else if bool_decide (- rank ≤ d < 0)%Z then Ok (Z.to_nat (d + rank))
  else Raise IndexError.

(** [t.size()[i]]. *)
Definition size_at (sh : list nat) (i : Z) : result nat :=
  j ← norm_dim (length sh) i;
  Ok (sh !!! j).

(** [torch.arange(start, end, step)], an int64 tensor. *)
Definition arange (start end_ step : Z) : result (tensor Z) :=
  if bool_decide (step = 0)%Z then Raise RuntimeError
  else if bool_decide ((0 < step ∧ end_ < start) ∨ (step < 0 ∧ start < end_))%Z
  then Raise RuntimeError
  else
    let n := Z.to_nat (- ((- (end_ - start)) / step))%Z in
    Ok (mkTensor [n] ((λ i : nat, start + i * step)%Z <$> seq 0 n)).

(** [torch.unsqueeze(t, dim)]: a dimension of size one is inserted. *)
Definition unsqueeze {A} (t : tensor A) (d : Z) : result (tensor A) :=
  p ← norm_dim (S (dim t)) d;
  Ok (mkTensor (take p (size t) ++ 1 :: drop p (size t)) (data t)).

(** [t.squeeze(dim)]: the dimension is removed when its size is one. *)
Definition squeeze {A} (t : tensor A) (d : Z) : result (tensor A) :=
  p ← norm_dim (Nat.max 1 (dim t)) d;
  if bool_decide (size t !! p = Some 1)
  then Ok (mkTensor (take p (size t) ++ drop (S p) (size t)) (data t))
  else Ok t.

(** Broadcasting of two sizes, aligned at the last dimension. *)
Fixpoint broadcast_rev (a b : list nat) : result (list nat) :=
  match a, b with
  | [], _ => Ok b
  | _, [] => Ok a
  | x :: a', y :: b' =>
      r ← broadcast_rev a' b';
      if bool_decide (x = y) then Ok (x :: r)
      else if bool_decide (x = 1) then Ok (y :: r)
      else if bool_decide (y = 1) then Ok (x :: r)
      else Raise RuntimeError
  end.

Definition broadcast_shapes (a b : list nat) : result (list nat) :=
  reverse <$> broadcast_rev (reverse a) (reverse b).

(** The index of an operand of size [sh] read for the result index [idx]. *)
Definition bidx (sh idx : list nat) : list nat :=
  zip_with (λ d i, if bool_decide (d = 1) then 0 else i)
           sh (drop (length idx - length sh) idx).

(** An elementwise binary operation with broadcasting. *)
Definition map2 `{Inhabited A, Inhabited B} {C} (f : A → B → C)
    (a : tensor A) (b : tensor B) : result (tensor C) :=
  sh ← broadcast_shapes (size a) (size b);
  Ok (build sh (λ idx, f (item a (bidx (size a) idx)) (item b (bidx (size b) idx)))).

Definition lt (a b : tensor Z) : result (tensor bool) :=
  map2 (λ x y, bool_decide (x < y)%Z) a b.
Definition gt (a b : tensor Z) : result (tensor bool) :=
  map2 (λ x y, bool_decide (x > y)%Z) a b.
Definition add (a b : tensor R) : result (tensor R) := map2 Rplus a b.
Definition mul (a b : tensor R) : result (tensor R) := map2 Rmult a b.

(** [torch.where(cond, x, y)]. *)
Definition where_ `{Inhabited A} (c : tensor bool) (x y : tensor A)
    : result (tensor A) :=
  sh0 ← broadcast_shapes (size c) (size x);
  sh ← broadcast_shapes sh0 (size y);
  Ok (build sh (λ idx, if item c (bidx (size c) idx)
                       then item x (bidx (size x) idx)
                       else item y (bidx (size y) idx))).

Definition ones (sh : list nat) : tensor R := build sh (λ _, 1%R).
Definition zeros (sh : list nat) : tensor R := build sh (λ _, 0%R).

(** A Python float times a tensor. *)
Definition smul (c : R) (t : tensor R) : tensor R := tmap (Rmult c) t.

(** Floating-point types and [torch.finfo(dtype).max]. *)
Inductive dtype : Type := float16 | bfloat16 | float32 | float64.

Definition finfo_max (dt : dtype) : R :=
  match dt with
  | float16 => 65504
  | bfloat16 => (2 - / 2 ^ 7) * 2 ^ 127
  | float32 => (2 - / 2 ^ 23) * 2 ^ 127
  | float64 => (2 - / 2 ^ 52) * 2 ^ 1023
  end%R.

(** [t.view(sh)]; one entry of [sh] may be [-1] and is inferred. *)
Definition view {A} (t : tensor A) (sh : list Z) : result (tensor A) :=
  let n := numel (size t) in
  if bool_decide (Exists (λ d, d < -1)%Z sh) then Raise RuntimeError else
  let p := numel (Z.to_nat <$> filter (λ d, d ≠ (-1)%Z) sh) in
  match length (filter (λ d, d = (-1)%Z) sh) with
  | 0 => if bool_decide (p = n)
         then Ok (mkTensor (Z.to_nat <$> sh) (data t)) else Raise RuntimeError
  | 1 => if bool_decide (p = 0) then Raise RuntimeError
         else if bool_decide (n mod p = 0)
         then Ok (mkTensor ((λ d, if bool_decide (d = -1)%Z then n / p
                                  else Z.to_nat d) <$> sh) (data t))
         else Raise RuntimeError
  | _ => Raise RuntimeError
  end.

(** [t.repeat(reps)]. *)
Definition repeat {A} `{Inhabited A} (t : tensor A) (reps : list nat)
    : result (tensor A) :=
  if bool_decide (length reps < dim t) then Raise RuntimeError else
  let sh := replicate (length reps - dim t) 1 ++ size t in
  Ok (build (zip_with Nat.mul sh reps)
            (λ idx, item (mkTensor sh (data t)) (zip_with Nat.modulo idx sh))).

(** [torch.cat([a, b], axis)]. *)
Definition cat `{Inhabited A} (a b : tensor A) (axis : Z) : result (tensor A) :=
  if bool_decide (dim a = 0) then Raise RuntimeError else
  p ← norm_dim (dim a) axis;
  if bool_decide (dim a = dim b ∧ take p (size a) = take p (size b)
                  ∧ drop (S p) (size a) = drop (S p) (size b))
  then
    let da := size a !!! p in
    let db := size b !!! p in
    Ok (build (<[p := da + db]> (size a))
              (λ idx, let i := idx !!! p in
                      if bool_decide (i < da) then item a idx
                      else item b (<[p := i - da]> idx)))
  else Raise RuntimeError.

(** [t.select(dim, i)], written [t[:, i]] for [dim = 1]. *)
Definition select `{Inhabited A} (t : tensor A) (d : Z) (i : Z)
    : result (tensor A) :=
  p ← norm_dim (dim t) d;
  j ← norm_dim (size t !!! p) i;
  Ok (build (take p (size t) ++ drop (S p) (size t))
            (λ idx, item t (take p idx ++ j :: drop p idx))).

(** A Python slice bound clamped to a dimension of size [n]. *)
Definition clamp_bound (n : nat) (b : Z) : nat :=
  Z.to_nat (Z.min n (Z.max 0 (if bool_decide (b < 0)%Z then b + n else b))).

(** [t.narrow]-style slicing with Python bounds, written [t[:, a:b]] for
    [dim = 1]; a missing bound is [None]. *)
Definition slice `{Inhabited A} (t : tensor A) (d : Z) (start stop : option Z)
    : result (tensor A) :=
  p ← norm_dim (dim t) d;
  let n := size t !!! p in
  let lo := from_option (clamp_bound n) 0 start in
  let hi := from_option (clamp_bound n) n stop in
  Ok (build (<[p := hi - lo]> (size t))
            (λ idx, item t (<[p := lo + idx !!! p]> idx))).

(** [t.sum(dim)]. *)
Definition sum_list_R (l : list R) : R := foldr Rplus 0%R l.

Definition sum (t : tensor R) (d : Z) : result (tensor R) :=
  p ← norm_dim (dim t) d;
  Ok (build (take p (size t) ++ drop (S p) (size t))
            (λ idx, sum_list_R ((λ j, item t (take p idx ++ j :: drop p idx))
                                <$> seq 0 (size t !!! p)))).

(** The size of the last dimension, and the row of [t] along it at the
    leading index [pre]. *)
Definition last_dim (sh : list nat) : nat := default 1 (last sh).
Definition lead {A} (l : list A) : list A := take (length l - 1) l.

Definition row `{Inhabited A} (t : tensor A) (pre : list nat) : list A :=
  (λ j, item t (pre ++ [j])) <$> seq 0 (last_dim (size t)).

(** [torch.nn.Linear]: [y = x W^T + b] along the last dimension. *)
Record Linear : Type := mkLinear {
  in_features : nat;
  out_features : nat;
  weight : tensor R;
  bias : tensor R
}.

Definition Linear_forward (l : Linear) (x : tensor R) : result (tensor R) :=
  if bool_decide (last (size x) = Some (in_features l)) then
    Ok (build (lead (size x) ++ [out_features l])
              (λ idx, let o := default 0 (last idx) in
                      (sum_list_R ((λ i, item x (lead idx ++ [i])
                                         * item (weight l) [o; i])%R
                                  <$> seq 0 (in_features l))
                       + item (bias l) [o])%R))
  else Raise RuntimeError.

(** [torch.nn.Softmax(dim=-1)]. *)
Definition softmax (t : tensor R) : tensor R :=
  build (size t)
        (λ idx, (exp (item t idx) / sum_list_R (exp <$> row t (lead idx)))%R).

(** [torch.nn.Sigmoid()]. *)
Definition sigmoid_fn (x : R) : R := (1 / (1 + exp (- x)))%R.
Definition Sigmoid (t : tensor R) : tensor R := tmap sigmoid_fn t.

(** The first position of the greatest entry of a list, and that entry. *)
Fixpoint argmax_from (bi : nat) (b : R) (i : nat) (l : list R) : nat * R :=
  match l with
  | [] => (bi, b)
  | x :: l' => if Rlt_dec b x then argmax_from i x (S i) l'
               else argmax_from bi b (S i) l'
  end.

Definition list_argmax (l : list R) : option (nat * R) :=
  match l with
  | [] => None
  | x :: l' => Some (argmax_from 0 x 1 l')
  end.

(** [torch.argmax(t, -1)] and [torch.max(t, -1)[0]]; torch raises on a last
    dimension of size zero. *)
Definition reduce_last {B} (f : nat * R → B) (t : tensor R) : result (tensor B) :=
  if bool_decide (last_dim (size t) = 0) then Raise IndexError
  else Ok (build (lead (size t))
                 (λ idx, match list_argmax (row t idx) with
                         | Some r => f r
                         | None => f (0, 0%R)
                         end)).

Definition argmax (t : tensor R) : result (tensor Z) :=
  reduce_last (λ r, Z.of_nat r.1) t.
Definition max_values (t : tensor R) : result (tensor R) :=
  reduce_last snd t.

(** [torch.div(t, n)] and [torch.fmod(t, n)] of an int64 tensor by a Python
    integer: the quotient truncated towards zero and its remainder (integer
    division is what [torch.div] does on integer tensors in the PyTorch
    releases this code runs on). *)
Definition div (t : tensor Z) (n : Z) : result (tensor Z) :=
  if bool_decide (n = 0)%Z then Raise RuntimeError
  else Ok (tmap (λ x, Z.quot x n) t).
Definition fmod (t : tensor Z) (n : Z) : result (tensor Z) :=
  if bool_decide (n = 0)%Z then Raise RuntimeError
  else Ok (tmap (λ x, Z.rem x n) t).

(** [torch.chunk(t, chunks)] along dimension 0: pieces of
    [ceil(d / chunks)] leading rows, the last one possibly shorter. *)
Definition narrow0 {A} (t : tensor A) (start len : nat) : tensor A :=
  let r := numel (tail (size t)) in
  mkTensor (len :: tail (size t)) (take (len * r) (drop (start * r) (data t))).

Definition chunk {A} (t : tensor A) (chunks : Z) : result (list (tensor A)) :=
  match size t with
  | [] => Raise RuntimeError
  | d :: _ =>
      if bool_decide (chunks ≤ 0)%Z then Raise RuntimeError else
      let c := Z.to_nat chunks in
      let split_size := (d + c - 1) / c in
      if bool_decide (split_size = 0) then Ok (replicate c (narrow0 t 0 0))
      else
        let num_splits := Nat.max ((d + split_size - 1) / split_size) 1 in
        Ok ((λ i, narrow0 t (i * split_size)
                          (Nat.min split_size (d - i * split_size)))
            <$> seq 0 num_splits)
  end.

(** Integer tensors are int64: the entries lie in
    [[int64_min, int64_max]] and arithmetic on them wraps around. *)
Definition int64_min : Z := (-9223372036854775808)%Z.
Definition int64_max : Z := 9223372036854775807%Z.

Definition wrap_int64 (z : Z) : Z :=
  ((z + 9223372036854775808) mod 18446744073709551616 - 9223372036854775808)%Z.

(** An int64 tensor plus a Python integer. *)
Definition add_scalar (t : tensor Z) (n : Z) : tensor Z :=
  tmap (λ x, wrap_int64 (x + n)) t.

(** [t.to(bool)] of an integer tensor: true where the entry is not zero. *)
Definition to_bool (t : tensor Z) : tensor bool := tmap (λ x, bool_decide (x ≠ 0%Z)) t.

(** [torch.unbind(t, dim)]: the slices of [t] along [dim], in order. *)
Definition unbind `{Inhabited A} (t : tensor A) (d : Z) : result (list (tensor A)) :=
  p ← norm_dim (dim t) d;
  Ok ((λ j, build (take p (size t) ++ drop (S p) (size t))
                  (λ idx, item t (take p idx ++ j :: drop p idx)))
      <$> seq 0 (size t !!! p)).

(** [torch.nn.Embedding]: a table with one row per index; an index outside
    the table raises (the [IndexError] of the lookup on the CPU). *)
Record Embedding : Type := mkEmbedding {
  num_embeddings : nat;
  embedding_dim : nat;
  table : tensor R
}.

Definition Embedding_forward (e : Embedding) (ids : tensor Z) : result (tensor R) :=
  if bool_decide (Forall (λ i, 0 ≤ i < num_embeddings e)%Z (data ids)) then
    Ok (build (size ids ++ [embedding_dim e])
              (λ idx, item (table e)
                           [Z.to_nat (item ids (lead idx)); default 0 (last idx)]))
  else Raise IndexError.

End torch.

(** ** sgd_model.py *)

Module sgd_model.
Import torch.

(** Reading an attribute that [__init__] may not have set. *)
Definition attr {A} (o : option A) : result A :=
  match o with
  | Some a => Ok a
  | None => Raise AttributeError
  end.

(** The weights a constructor draws are read from [init], indexed by the
    parameter's name and the position in the parameter. *)
Definition Linear_init (init : string → list nat → R) (name : string)
    (n_in n_out : nat) : Linear :=
  mkLinear n_in n_out
           (build [n_out; n_in] (init (name +:+ ".weight")))
           (build [n_out] (init (name +:+ ".bias"))).

(** *** class Logits *)

Record Logits : Type := mkLogits {
  num_classes : nat;
  utterance_proj : Linear;
  activation : R → R;
  layer1 : Linear;
  layer2 : Linear
}.

Definition Logits_init (gelu : R → R) (init : string → list nat → R)
    (name : string) (num_classes embedding_dim : nat) : Logits :=
  mkLogits num_classes
           (Linear_init init (name +:+ ".utterance_proj") embedding_dim embedding_dim)
           gelu
           (Linear_init init (name +:+ ".layer1") (2 * embedding_dim) embedding_dim)
           (Linear_init init (name +:+ ".layer2") embedding_dim num_classes).

Definition Logits_forward (self : Logits)
    (encoded_utterance element_embeddings : tensor R) : result (tensor R) :=
  match size element_embeddings with
  | [_; num_elements; _] =>
      (* Project the utterance embeddings. *)
      utterance_embedding ← Linear_forward (utterance_proj self) encoded_utterance;
      let utterance_embedding := tmap (activation self) utterance_embedding in
      (* Combine the utterance and element embeddings. *)
      u ← unsqueeze utterance_embedding 1;
      repeated_utterance_embedding ← repeat u [1; num_elements; 1];
      utterance_element_emb ← cat repeated_utterance_embedding element_embeddings 2;
      logits ← Linear_forward (layer1 self) utterance_element_emb;
      let logits := tmap (activation self) logits in
      Linear_forward (layer2 self) logits
  | _ => Raise (ValueError "unpack")
  end.

(** What the specification calls the score of one element: the utterance
    vector is projected and activated, concatenated with the element's
    embedding, and passed through the two layers. *)
Definition Linear_row (l : Linear) (x : list R) : list R :=
  (λ o, (sum_list_R ((λ i, x !!! i * item (weight l) [o; i])%R
                     <$> seq 0 (in_features l))
         + item (bias l) [o])%R)
  <$> seq 0 (out_features l).

Definition element_scores (self : Logits) (utterance element : list R) : list R :=
  Linear_row (layer2 self)
    (activation self
     <$> Linear_row (layer1 self)
           ((activation self <$> Linear_row (utterance_proj self) utterance)
            ++ element)).

(** *** class LogitsNew *)

Record LogitsNew : Type := mkLogitsNew {
  new_num_classes : nat;
  new_utterance_proj : Linear;
  new_activation : R → R
}.

Definition LogitsNew_init (gelu : R → R) (init : string → list nat → R)
    (name : string) (num_classes embedding_dim : nat) : LogitsNew :=
  mkLogitsNew num_classes
              (Linear_init init (name +:+ ".utterance_proj") embedding_dim embedding_dim)
              gelu.

Definition LogitsNew_forward (self : LogitsNew)
    (encoded_utterance element_embeddings weight_matrix : tensor R)
    : result (tensor R) :=
  match size element_embeddings with
  | [_; num_elements; _] =>
      utterance_embedding ← Linear_forward (new_utterance_proj self) encoded_utterance;
      let utterance_embedding := tmap (new_activation self) utterance_embedding in
      u ← unsqueeze utterance_embedding 1;
      repeated_utterance_embedding ← repeat u [1; num_elements; 1];
      utterance_element_emb ← cat repeated_utterance_embedding element_embeddings 2;
      u' ← unsqueeze utterance_element_emb (-1);
      utterance_element_emb ← repeat u' [1; 1; 1; new_num_classes self];
      logits ← mul utterance_element_emb weight_matrix;
      sum logits (-2)
  | _ => Raise (ValueError "unpack")
  end.

(** Calling a module object calls its [forward] with the arguments given;
    Python raises [TypeError] when their number is not the one [forward]
    declares. *)
Inductive module : Type :=
  | LogitsM (m : Logits)
  | LogitsNewM (m : LogitsNew).

Definition call (m : module) (args : list (tensor R)) : result (tensor R) :=
  match m, args with
  | LogitsM l, [encoded_utterance; element_embeddings] =>
      Logits_forward l encoded_utterance element_embeddings
  | LogitsNewM l, [encoded_utterance; element_embeddings; weight_matrix] =>
      LogitsNew_forward l encoded_utterance element_embeddings weight_matrix
  | _, _ => Raise TypeError
  end.

(** *** class SGDModel *)

Record SGDModel : Type := mkSGDModel {
  MAX_NUM_CAT_SLOT : nat;
  MAX_NUM_NONCAT_SLOT : nat;
  _slots_status_model : string;
  param_dtype : dtype;
  intent_layer : Logits;
  requested_slots_layer : Logits;
  cat_slot_value_layer : Logits;
  slot_status_token_layer1 : option Linear;
  slot_status_token_activation : option (R → R);
  slot_status_token_layer2 : option Linear;
  cat_slot_status_layer : option module;
  noncat_slot_status_layer : option module
}.

(** The layers [SGDModel.__init__] creates (lines 183-204); the schema
    embedding tables are arguments of the methods below. *)
Definition SGDModel_init (gelu : R → R) (init : string → list nat → R)
    (dt : dtype) (embedding_dim max_cat max_noncat : nat)
    (slots_status_model : string) : SGDModel :=
  let multi := bool_decide (slots_status_model = "special_tokens_multi") in
  let other := bool_decide (slots_status_model ∈
                 ["cls_token"; "special_tokens_single"; "special_tokens_double"]) in
  mkSGDModel max_cat max_noncat slots_status_model dt
    (Logits_init gelu init "intent_layer" 1 embedding_dim)
    (Logits_init gelu init "requested_slots_layer" 1 embedding_dim)
    (Logits_init gelu init "cat_slot_value_layer" 1 embedding_dim)
    (if multi then Some (Linear_init init "slot_status_token_layer1"
                                     (2 * embedding_dim) embedding_dim)
     else None)
    (if multi then Some gelu else None)
    (if multi then Some (Linear_init init "slot_status_token_layer2" embedding_dim 3)
     else None)
    (if multi then None
     else if other
     then Some (LogitsNewM (LogitsNew_init gelu init "cat_slot_status_layer" 3 embedding_dim))
     else None)
    (if multi then None
     else if other
     then Some (LogitsM (Logits_init gelu init "noncat_slot_status_layer" 3 embedding_dim))
     else None).

Definition _get_mask (dt : dtype) (logits : tensor R) (max_length : Z)
    (actual_length : tensor Z) : result (tensor bool * tensor R) :=
  r ← arange 0 max_length 1;
  l ← unsqueeze actual_length (-1);
  mask ← lt r l;
  let negative_logits := smul (finfo_max dt * -0.7)%R (ones (size logits)) in
  Ok (mask, negative_logits).

(** The negative sentinel [_get_mask] fills [negative_logits] with. *)
Definition sentinel (dt : dtype) : R := (finfo_max dt * -0.7)%R.

Definition _get_requested_slots (self : SGDModel)
    (encoded_utterance requested_slot_emb : tensor R) (req_num_slots : tensor Z)
    : result (tensor R * tensor bool) :=
  logits ← Logits_forward (requested_slots_layer self) encoded_utterance requested_slot_emb;
  logits ← squeeze logits (-1);
  (* logits shape: (batch_size, max_num_slots) *)
  max_num_requested_slots ← size_at (size logits) (-1);
  '(req_slot_mask, _) ← _get_mask (param_dtype self) logits
                                  (Z.of_nat max_num_requested_slots) req_num_slots;
  m ← view req_slot_mask [-1]%Z;
  Ok (logits, m).

Definition _get_categorical_slot_values (self : SGDModel)
    (encoded_utterance cat_slot_emb cat_slot_value_emb : tensor R)
    (num_categorical_slot_values : tensor Z) : result (tensor R) :=
  match size cat_slot_value_emb with
  | [_; max_num_slots; max_num_values; embedding_dim] =>
      cat_slot_value_emb_reshaped ←
        view cat_slot_value_emb
             [-1; Z.of_nat (max_num_slots * max_num_values); Z.of_nat embedding_dim]%Z;
      value_logits ← Logits_forward (cat_slot_value_layer self) encoded_utterance
                                    cat_slot_value_emb_reshaped;
      (* Reshape to obtain the logits for all slots. *)
      value_logits ← view value_logits [-1; Z.of_nat max_num_slots; Z.of_nat max_num_values]%Z;
      (* Mask out logits for padded slots and values. *)
      '(cat_slot_values_mask, negative_logits) ←
        _get_mask (param_dtype self) value_logits (Z.of_nat max_num_values)
                  num_categorical_slot_values;
      where_ cat_slot_values_mask value_logits negative_logits
  | _ => Raise (ValueError "unpack")
  end.

Definition _get_slots_status (self : SGDModel)
    (cat_slot_emb noncat_slot_emb token_embeddings encoded_utterance
     cat_slot_emb_weights noncat_slot_emb_weights : tensor R)
    : result (tensor R * tensor R) :=
  if bool_decide (_slots_status_model self = "cls_token") then
    (* Predict the status of all categorical slots. *)
    f ← attr (cat_slot_status_layer self);
    logit_cat_slot_status ← call f [encoded_utterance; cat_slot_emb; cat_slot_emb_weights];
    (* Predict the status of all non-categorical slots. *)
    g ← attr (noncat_slot_status_layer self);
    logit_noncat_slot_status ← call g [encoded_utterance; noncat_slot_emb];
    Ok (logit_cat_slot_status, logit_noncat_slot_status)
  else if bool_decide (_slots_status_model self = "special_tokens_single") then
    f ← attr (cat_slot_status_layer self);
    x ← select token_embeddings 1 (-1);
    logit_cat_slot_status ← call f [x; cat_slot_emb];
    g ← attr (cat_slot_status_layer self);
    y ← select token_embeddings 1 (-1);
    logit_noncat_slot_status ← call g [y; noncat_slot_emb];
    Ok (logit_cat_slot_status, logit_noncat_slot_status)
  else if bool_decide (_slots_status_model self = "special_tokens_double") then
    f ← attr (cat_slot_status_layer self);
    x ← select token_embeddings 1 (-2);
    logit_cat_slot_status ← call f [x; cat_slot_emb];
    g ← attr (noncat_slot_status_layer self);
    y ← select token_embeddings 1 (-1);
    logit_noncat_slot_status ← call g [y; noncat_slot_emb];
    Ok (logit_cat_slot_status, logit_noncat_slot_status)
  else if bool_decide (_slots_status_model self = "special_tokens_multi") then
    token_embeddings_status ←
      slice token_embeddings 1
            (Some (- Z.of_nat (MAX_NUM_CAT_SLOT self + MAX_NUM_NONCAT_SLOT self))%Z) None;
    all_slot_emb ← cat cat_slot_emb noncat_slot_emb 1;
    slot_token_embeddings ← cat token_embeddings_status all_slot_emb (-1);
    (* Project the combined embeddings to obtain logits. *)
    l1 ← attr (slot_status_token_layer1 self);
    logit_slot_status_tokens ← Linear_forward l1 slot_token_embeddings;
    a ← attr (slot_status_token_activation self);
    let logit_slot_status_tokens := tmap a logit_slot_status_tokens in
    l2 ← attr (slot_status_token_layer2 self);
    logit_slot_status_tokens ← Linear_forward l2 logit_slot_status_tokens;
    logit_cat_slot_status ←
      slice logit_slot_status_tokens 1 None (Some (Z.of_nat (MAX_NUM_CAT_SLOT self)));
    logit_noncat_slot_status ←
      slice logit_slot_status_tokens 1 (Some (Z.of_nat (MAX_NUM_CAT_SLOT self))) None;
    Ok (logit_cat_slot_status, logit_noncat_slot_status)
  else Raise UnboundLocalError.

(** *** The rest of class SGDModel

    The attributes of [self] that the record [SGDModel] above does not
    hold: the NONE intent vector, the span layers and the embedding tables
    (lines 177-229). *)

Record SGDModelRest : Type := mkSGDModelRest {
  none_intent_vector : tensor R;
  noncat_layer1 : Linear;
  noncat_activation : R → R;
  noncat_layer2 : Linear;
  intents_emb : Embedding;
  cat_slot_emb_table : Embedding;
  cat_slot_value_emb_table : Embedding;
  noncat_slot_emb_table : Embedding;
  req_slot_emb_table : Embedding;
  noncat_slot_emb_weights_table : Embedding;
  cat_slot_emb_weights_table : Embedding
}.

Definition Embedding_init (init : string → list nat → R) (name : string)
    (num dim : nat) : Embedding :=
  mkEmbedding num dim (build [num; dim] (init (name +:+ ".weight"))).

(** [num_services] is [len(schema_emb_processor.schemas.services)], the
    capacities are the entries of [schema_config].  The entries of the
    tables, which [__init__] copies from the schema embeddings or draws at
    random, are the values of [init]. *)
Definition SGDModelRest_init (gelu : R → R) (init : string → list nat → R)
    (embedding_dim num_services max_intent max_cat max_value max_noncat : nat)
    : SGDModelRest :=
  mkSGDModelRest
    (build [1; 1; embedding_dim] (init "none_intent_vector"))
    (Linear_init init "noncat_layer1" (2 * embedding_dim) embedding_dim)
    gelu
    (Linear_init init "noncat_layer2" embedding_dim 2)
    (Embedding_init init "intents_emb" num_services (max_intent * embedding_dim))
    (Embedding_init init "cat_slot_emb" num_services (max_cat * embedding_dim))
    (Embedding_init init "cat_slot_value_emb" num_services
                    (max_cat * max_value * embedding_dim))
    (Embedding_init init "noncat_slot_emb" num_services (max_noncat * embedding_dim))
    (Embedding_init init "req_slot_emb" num_services
                    ((max_cat + max_noncat) * embedding_dim))
    (Embedding_init init "noncat_slot_emb_weights" num_services
                    (max_noncat * embedding_dim * 2 * 3))
    (Embedding_init init "cat_slot_emb_weights" num_services
                    (max_cat * embedding_dim * 2 * 3)).

Definition _get_intents (self : SGDModel) (rest : SGDModelRest)
    (encoded_utterance intent_embeddings : tensor R) (num_intents : tensor Z)
    : result (tensor R) :=
  match size intent_embeddings with
  | [batch_size; max_num_intents; _] =>
      (* Add a trainable vector for the NONE intent. *)
      repeated_none_intent_vector ← repeat (none_intent_vector rest) [batch_size; 1; 1];
      intent_embeddings ← cat repeated_none_intent_vector intent_embeddings 1;
      logits ← Logits_forward (intent_layer self) encoded_utterance intent_embeddings;
      logits ← squeeze logits (-1);
      (* Mask out logits for padded intents, 1 is added to account for NONE intent. *)
      '(mask, negative_logits) ←
        _get_mask (param_dtype self) logits (Z.of_nat max_num_intents + 1)%Z
                  (add_scalar num_intents 1);
      where_ mask logits negative_logits
  | _ => Raise (ValueError "unpack")
  end.

Definition _get_noncategorical_slot_values (self : SGDModel) (rest : SGDModelRest)
    (encoded_utterance : tensor R) (utterance_mask : tensor Z)
    (noncat_slot_emb token_embeddings : tensor R) : result (tensor R * tensor R) :=
  (* Predict the distribution for span indices. *)
  max_num_tokens ← size_at (size token_embeddings) 1;
  max_num_slots ← size_at (size noncat_slot_emb) 1;
  t1 ← unsqueeze token_embeddings 1;
  repeated_token_embeddings ← repeat t1 [1; max_num_slots; 1; 1];
  s2 ← unsqueeze noncat_slot_emb 2;
  repeated_slot_embeddings ← repeat s2 [1; 1; max_num_tokens; 1];
  (* Shape: (batch_size, max_num_slots, max_num_tokens, 2 * embedding_dim). *)
  slot_token_embeddings ← cat repeated_slot_embeddings repeated_token_embeddings 3;
  (* Project the combined embeddings to obtain logits. *)
  span_logits ← Linear_forward (noncat_layer1 rest) slot_token_embeddings;
  let span_logits := tmap (noncat_activation rest) span_logits in
  span_logits ← Linear_forward (noncat_layer2 rest) span_logits;
  (* Mask out invalid logits for padded tokens. *)
  let utterance_mask := to_bool utterance_mask in
  m1 ← unsqueeze utterance_mask 1;
  m3 ← unsqueeze m1 3;
  repeated_utterance_mask ← repeat m3 [1; max_num_slots; 1; 2];
  let negative_logits :=
    smul (finfo_max (param_dtype self) * -0.7)%R (ones (size span_logits)) in
  span_logits ← where_ repeated_utterance_mask span_logits negative_logits;
  (* Shape of both tensors: (batch_size, max_num_slots, max_num_tokens). *)
  parts ← unbind span_logits 3;
  match parts with
  | [span_start_logits; span_end_logits] => Ok (span_start_logits, span_end_logits)
  | _ => Raise (ValueError "unpack")
  end.

(** What the specification calls the span scores of one slot and one token:
    the two embeddings are concatenated and passed through the two layers;
    entry 0 is the start logit and entry 1 the end logit. *)
Definition span_pair_scores (rest : SGDModelRest) (slot token : list R) : list R :=
  Linear_row (noncat_layer2 rest)
    (noncat_activation rest <$> Linear_row (noncat_layer1 rest) (slot ++ token)).

(** The eight outputs of [forward], in the order of the returned tuple. *)
Record model_outputs : Type := mkModelOutputs {
  out_logit_intent_status : tensor R;
  out_logit_req_slot_status : tensor R;
  out_req_slot_mask : tensor bool;
  out_logit_cat_slot_status : tensor R;
  out_logit_cat_slot_value : tensor R;
  out_logit_noncat_slot_status : tensor R;
  out_logit_noncat_slot_start : tensor R;
  out_logit_noncat_slot_end : tensor R
}.

Definition forward (self : SGDModel) (rest : SGDModelRest)
    (encoded_utterance token_embeddings : tensor R) (utterance_mask : tensor Z)
    (num_categorical_slot_values num_intents req_num_slots service_ids : tensor Z)
    : result model_outputs :=
  match size encoded_utterance with
  | [batch_size; emb_dim] =>
      let B := Z.of_nat batch_size in
      let D := Z.of_nat emb_dim in
      e ← Embedding_forward (intents_emb rest) service_ids;
      intent_embeddings ← view e [B; -1; D]%Z;
      e ← Embedding_forward (cat_slot_emb_table rest) service_ids;
      cat_slot_emb ← view e [B; -1; D]%Z;
      max_number_cat_slots ← size_at (size cat_slot_emb) 1;
      e ← Embedding_forward (cat_slot_value_emb_table rest) service_ids;
      cat_slot_value_emb ← view e [B; Z.of_nat max_number_cat_slots; -1; D]%Z;
      e ← Embedding_forward (noncat_slot_emb_table rest) service_ids;
      noncat_slot_emb ← view e [B; -1; D]%Z;
      e ← Embedding_forward (req_slot_emb_table rest) service_ids;
      req_slot_emb ← view e [B; -1; D]%Z;
      e ← Embedding_forward (noncat_slot_emb_weights_table rest) service_ids;
      noncat_slot_emb_weights ← view e [B; -1; 2 * D; 3]%Z;
      e ← Embedding_forward (cat_slot_emb_weights_table rest) service_ids;
      cat_slot_emb_weights ← view e [B; -1; 2 * D; 3]%Z;
      logit_intent_status ← _get_intents self rest encoded_utterance intent_embeddings
                                         num_intents;
      '(logit_req_slot_status, req_slot_mask) ←
        _get_requested_slots self encoded_utterance req_slot_emb req_num_slots;
      logit_cat_slot_value ←
        _get_categorical_slot_values self encoded_utterance cat_slot_emb
                                     cat_slot_value_emb num_categorical_slot_values;
      '(logit_noncat_slot_start, logit_noncat_slot_end) ←
        _get_noncategorical_slot_values self rest encoded_utterance utterance_mask
                                        noncat_slot_emb token_embeddings;
      '(logit_cat_slot_status, logit_noncat_slot_status) ←
        _get_slots_status self cat_slot_emb noncat_slot_emb token_embeddings
                          encoded_utterance cat_slot_emb_weights noncat_slot_emb_weights;
      Ok (mkModelOutputs logit_intent_status logit_req_slot_status req_slot_mask
                         logit_cat_slot_status logit_cat_slot_value
                         logit_noncat_slot_status logit_noncat_slot_start
                         logit_noncat_slot_end)
  | _ => Raise (ValueError "unpack")
  end.


(** The axes [output_ports] declares for each output of [forward]
    (lines 146-155), in the order of the returned tuple. *)
Definition output_ports : list (string * list string) :=
  [("logit_intent_status", ["B"; "T"; "C"]);
   ("logit_req_slot_status", ["B"; "T"]);
   ("req_slot_mask", ["B"; "T"]);
   ("logit_cat_slot_status", ["B"; "T"; "C"]);
   ("logit_cat_slot_value", ["B"; "T"; "C"]);
   ("logit_noncat_slot_status", ["B"; "T"; "C"]);
   ("logit_noncat_slot_start", ["B"; "T"; "C"]);
   ("logit_noncat_slot_end", ["B"; "T"; "C"])].

(** The number of dimensions of each tensor [forward] returns. *)
Definition output_dims (out : model_outputs) : list (string * nat) :=
  [("logit_intent_status", dim (out_logit_intent_status out));
   ("logit_req_slot_status", dim (out_logit_req_slot_status out));
   ("req_slot_mask", dim (out_req_slot_mask out));
   ("logit_cat_slot_status", dim (out_logit_cat_slot_status out));
   ("logit_cat_slot_value", dim (out_logit_cat_slot_value out));
   ("logit_noncat_slot_status", dim (out_logit_noncat_slot_status out));
   ("logit_noncat_slot_start", dim (out_logit_noncat_slot_start out));
   ("logit_noncat_slot_end", dim (out_logit_noncat_slot_end out))].

End sgd_model.

(** ** sgd_callback.py *)

Module sgd_callback.
Import torch.

(** The tensors of one evaluation step, after [torch.cat] over the step's
    batches ([output] in the source). *)
Record outputs : Type := mkOutputs {
  service_id : tensor Z;
  is_real_example : tensor Z;
  logit_intent_status : tensor R;
  logit_req_slot_status : tensor R;
  logit_cat_slot_status : tensor R;
  logit_cat_slot_value : tensor R;
  logit_noncat_slot_status : tensor R;
  logit_noncat_slot_start : tensor R;
  logit_noncat_slot_end : tensor R;
  start_char_idx : tensor Z;
  end_char_idx : tensor Z;
  categorical_slot_status : tensor Z;
  noncategorical_slot_status : tensor Z
}.

(** A value stored under a key of a prediction dict. *)
Inductive value : Type :=
  | VStrs (l : list string)
  | VStr (s : string)
  | VInt (t : tensor Z)
  | VFloat (t : tensor R).

(** Lines 67-83: the scores of all spans, zero where the start index is
    greater than the end index; returned with the sizes read at line 71. *)
Definition span_scores (logit_start logit_end : tensor R)
    : result (tensor R * (nat * nat * nat)) :=
  let start_scores := softmax logit_start in
  let end_scores := softmax logit_end in
  match size end_scores with
  | [batch_size; max_num_noncat_slots; max_num_tokens] =>
      (* Find the span with the maximum sum of scores for start and end indices. *)
      s3 ← unsqueeze start_scores 3;
      e2 ← unsqueeze end_scores 2;
      total_scores ← add s3 e2;
      (* Mask out scores where start_index > end_index. *)
      r ← arange 0 max_num_tokens 1;
      start_idx ← view r [1; 1; -1; 1]%Z;
      end_idx ← view r [1; 1; 1; -1]%Z;
      g ← gt start_idx end_idx;
      invalid_index_mask ← repeat g [batch_size; max_num_noncat_slots; 1; 1];
      total_scores ← where_ invalid_index_mask (zeros (size total_scores)) total_scores;
      Ok (total_scores, (batch_size, max_num_noncat_slots, max_num_tokens))
  | _ => Raise (ValueError "unpack")
  end.

(** Lines 84-89: the greatest score of each slot and the start and end
    index of its first position.  Returns
    [(max_span_p, span_start_index, span_end_index)]. *)
Definition span_recovery (total_scores : tensor R)
    (max_num_noncat_slots max_num_tokens : nat)
    : result (tensor R * tensor Z * tensor Z) :=
  flat ← view total_scores
              [-1; Z.of_nat max_num_noncat_slots; Z.of_nat max_num_tokens ^ 2]%Z;
  max_span_index ← argmax flat;
  flat' ← view total_scores
               [-1; Z.of_nat max_num_noncat_slots; Z.of_nat max_num_tokens ^ 2]%Z;
  max_span_p ← max_values flat';
  span_start_index ← div max_span_index max_num_tokens;
  span_end_index ← fmod max_span_index max_num_tokens;
  Ok (max_span_p, span_start_index, span_end_index).

(** Lines 67-92. *)
Definition noncat_span (logit_start logit_end : tensor R)
    : result (tensor R * tensor Z * tensor Z * nat) :=
  '(total_scores, (batch_size, max_num_noncat_slots, max_num_tokens)) ←
    span_scores logit_start logit_end;
  '(max_span_p, span_start_index, span_end_index) ←
    span_recovery total_scores max_num_noncat_slots max_num_tokens;
  Ok (max_span_p, span_start_index, span_end_index, batch_size).

(** Lines 40-100: the dict [predictions] in insertion order, and the batch
    size.  [example_id] is the result of [get_str_example_id]. *)
Definition decode (example_id : list string) (output : outputs)
    : result (list (string * value) * nat) :=
  (* Scores are output for each intent. *)
  intent_status ← argmax (logit_intent_status output);
  (* Scores are output for each requested slot. *)
  let req_slot_status := Sigmoid (logit_req_slot_status output) in
  (* For categorical slots, the status of each slot and the predicted value. *)
  let cat_slot_status_dist := softmax (logit_cat_slot_status output) in
  let cat_slot_value_dist := softmax (logit_cat_slot_value output) in
  cat_slot_status ← argmax (logit_cat_slot_status output);
  cat_slot_status_p ← max_values cat_slot_status_dist;
  cat_slot_value ← argmax (logit_cat_slot_value output);
  cat_slot_value_p ← max_values cat_slot_value_dist;
  (* For non-categorical slots, the status of each slot and the span indices. *)
  let noncat_slot_status_dist := softmax (logit_noncat_slot_status output) in
  noncat_slot_status ← argmax (logit_noncat_slot_status output);
  noncat_slot_status_p ← max_values noncat_slot_status_dist;
  '(max_span_p, span_start_index, span_end_index, batch_size) ←
    noncat_span (logit_noncat_slot_start output) (logit_noncat_slot_end output);
  Ok ([("example_id", VStrs example_id);
       ("service_id", VInt (service_id output));
       ("is_real_example", VInt (is_real_example output));
       ("intent_status", VInt intent_status);
       ("req_slot_status", VFloat req_slot_status);
       ("cat_slot_status", VInt cat_slot_status);
       ("cat_slot_status_p", VFloat cat_slot_status_p);
       ("cat_slot_value", VInt cat_slot_value);
       ("cat_slot_value_p", VFloat cat_slot_value_p);
       ("noncat_slot_status", VInt noncat_slot_status);
       ("noncat_slot_status_p", VFloat noncat_slot_status_p);
       ("noncat_slot_p", VFloat max_span_p);
       ("noncat_slot_start", VInt span_start_index);
       ("noncat_slot_end", VInt span_end_index);
       ("noncat_alignment_start", VInt (start_char_idx output));
       ("noncat_alignment_end", VInt (end_char_idx output));
       ("cat_slot_status_GT", VInt (categorical_slot_status output));
       ("noncat_slot_status_GT", VInt (noncategorical_slot_status output))],
      batch_size).

(** [predictions[k]]: the value last stored under [k]. *)
Fixpoint dict_get (k : string) (d : list (string * value)) : option value :=
  match d with
  | [] => None
  | (k', v) :: d' =>
      match dict_get k d' with
      | Some x => Some x
      | None => if bool_decide (k' = k) then Some v else None
      end
  end.

(** [for i in range(n): s = body(i, s)]. *)
Definition for_range {S} (n : nat) (body : nat → S → result S) (s : S) : result S :=
  foldl (λ acc i, s' ← acc; body i s') (Ok s) (seq 0 n).

(** [examples_preds[i][k] = x]. *)
Definition set_item (i : nat) (k : string) (x : value)
    (examples_preds : list (gmap string value)) : result (list (gmap string value)) :=
  match examples_preds !! i with
  | Some d => Ok (<[i := <[k := x]> d]> examples_preds)
  | None => Raise IndexError
  end.

(** [v[i]] of a tuple or list. *)
Definition get_item {A} (v : list A) (i : nat) : result A :=
  match v !! i with
  | Some x => Ok x
  | None => Raise IndexError
  end.

(** The body of the loop over [predictions.items()] (lines 111-118). *)
Definition combine_column (batch_size : nat) (k : string) (v : value)
    (examples_preds : list (gmap string value)) : result (list (gmap string value)) :=
  if bool_decide (k ≠ "example_id") then
    match v with
    | VInt t =>
        v ← chunk t batch_size;
        for_range batch_size
          (λ i ep, c ← get_item v i; c ← view c [-1]%Z; set_item i k (VInt c) ep)
          examples_preds
    | VFloat t =>
        v ← chunk t batch_size;
        for_range batch_size
          (λ i ep, c ← get_item v i; c ← view c [-1]%Z; set_item i k (VFloat c) ep)
          examples_preds
    | VStrs _ | VStr _ => Raise TypeError
    end
  else
    match v with
    | VStrs l =>
        for_range batch_size
          (λ i ep, x ← get_item l i; set_item i k (VStr x) ep)
          examples_preds
    | VInt t =>
        for_range batch_size
          (λ i ep, x ← select t 0 i; set_item i k (VInt x) ep)
          examples_preds
    | VFloat t =>
        for_range batch_size
          (λ i ep, x ← select t 0 i; set_item i k (VFloat x) ep)
          examples_preds
    | VStr _ => Raise TypeError
    end.

Definition combine_predictions_in_example (predictions : list (string * value))
    (batch_size : nat) : result (list (gmap string value)) :=
  let examples_preds := replicate batch_size (∅ : gmap string value) in
  foldl (λ acc kv, examples_preds ← acc; combine_column batch_size kv.1 kv.2 examples_preds)
        (Ok examples_preds) predictions.

(** What the specification asks of record [i]: under each key the [i]-th
    slice of the batched value, flattened to one dimension. *)
Definition flat_slice {A} (t : tensor A) (i : nat) : tensor A :=
  let r := numel (tail (size t)) in
  mkTensor [r] (take r (drop (i * r) (data t))).

Definition slice_of (v : value) (i : nat) : value :=
  match v with
  | VStrs l => VStr (l !!! i)
  | VStr s => VStr s
  | VInt t => VInt (flat_slice t i)
  | VFloat t => VFloat (flat_slice t i)
  end.

Definition record_of (d0 : gmap string value) (predictions : list (string * value))
    (i : nat) : gmap string value :=
  foldl (λ d kv, <[kv.1 := slice_of kv.2 i]> d) d0 predictions.

(** A prediction dict whose batched values all have [n] leading entries. *)
Definition batched (n : nat) (kv : string * value) : Prop :=
  match kv.2 with
  | VStrs l => kv.1 = "example_id" ∧ length l = n
  | VStr _ => False
  | VInt t => kv.1 ≠ "example_id" ∧ wf t ∧ head (size t) = Some n
  | VFloat t => kv.1 ≠ "example_id" ∧ wf t ∧ head (size t) = Some n
  end.

(** [global_vars['predictions']] after the call; [None] when the key is
    not yet in [global_vars]. *)
Definition eval_iter_callback (example_id : list string) (output : outputs)
    (global_vars : option (list (gmap string value)))
    : result (list (gmap string value)) :=
  let predictions0 := default [] global_vars in
  '(predictions, batch_size) ← decode example_id output;
  records ← combine_predictions_in_example predictions batch_size;
  Ok (predictions0 ++ records).

(** A step with one example, one non-categorical slot and one token, all
    logits zero. *)
Definition unit_logits : tensor R := mkTensor [1; 1; 1] [0%R].
Definition unit_labels : tensor Z := mkTensor [1; 1] [0%Z].

Definition one_token_output : outputs :=
  mkOutputs (mkTensor [1] [0%Z]) (mkTensor [1] [1%Z])
            (mkTensor [1; 1] [0%R]) (mkTensor [1; 1] [0%R])
            unit_logits unit_logits unit_logits unit_logits unit_logits
            unit_labels unit_labels unit_labels unit_labels.

(** A step with one example, one non-categorical slot and two tokens: the
    start logits favour token 1 and the end logits token 0.  The logits of
    the requested slots are left open. *)
Definition crossing_start : tensor R := mkTensor [1; 1; 2] [0; 5]%R.
Definition crossing_end : tensor R := mkTensor [1; 1; 2] [5; 0]%R.

Definition two_token_output (logit_req_slot_status : tensor R) : outputs :=
  mkOutputs (mkTensor [1] [0%Z]) (mkTensor [1] [1%Z])
            (mkTensor [1; 1] [0%R]) logit_req_slot_status
            unit_logits unit_logits unit_logits crossing_start crossing_end
            unit_labels unit_labels unit_labels unit_labels.

(** Outputs on which [decode] returns: class logits whose last dimension is
    not empty, and span logits of size [(B, N, T)] with at least one slot
    and one token. *)
Definition decodable (B N T : nat) (output : outputs) : Prop :=
  last_dim (size (logit_intent_status output)) ≠ 0
  ∧ last_dim (size (logit_cat_slot_status output)) ≠ 0
  ∧ last_dim (size (logit_cat_slot_value output)) ≠ 0
  ∧ last_dim (size (logit_noncat_slot_status output)) ≠ 0
  ∧ size (logit_noncat_slot_start output) = [B; N; T]
  ∧ size (logit_noncat_slot_end output) = [B; N; T]
  ∧ 0 < N ∧ 0 < T.

(** The scores of one slot over two tokens, greatest at the span (0, 1). *)
Definition two_token_scores : tensor R := mkTensor [1; 1; 2; 2] [1; 5; 2; 3]%R.


(** The class [torch.argmax] picks in the row of [t] at [pre]: the first
    position of the greatest entry. *)
Definition first_greatest (t : tensor R) (pre : list nat) (k : nat) : Prop :=
  k < last_dim (size t)
  ∧ (∀ k', k' < last_dim (size t) → (item t (pre ++ [k']) <= item t (pre ++ [k]))%R)
  ∧ (∀ k', k' < k → (item t (pre ++ [k']) < item t (pre ++ [k]))%R).

(** [torch.cat(v)] of a list of tensors, along dimension 0.  An empty list
    and a tensor without dimensions are rejected.  The empty one-dimensional
    tensors of the list (those of size [(0)]) are skipped, whatever the
    sizes of the others; the remaining tensors must agree on every dimension
    but the first and are concatenated in order.  When every tensor of the
    list is skipped the result is the empty one-dimensional tensor. *)
Definition cat_list `{Inhabited A} (v : list (tensor A)) : result (tensor A) :=
  match v with
  | [] => Raise RuntimeError
  | _ :: _ =>
      if bool_decide (Exists (λ t, dim t = 0) v) then Raise RuntimeError
      else
        match filter (λ t, size t ≠ [0]) v with
        | [] => Ok (mkTensor [0] [])
        | t :: ts => foldl (λ acc x, a ← acc; cat a x 0) (Ok t) ts
        end
  end.

(** [k.find(sub)]: the first position of [sub] in [k], [-1] when [k] does
    not contain it. *)
Definition find (k sub : string) : Z :=
  match String.index 0 sub k with
  | Some i => Z.of_nat i
  | None => (-1)%Z
  end.

(** Lines 34-38: the dict [output], built from the entries of [tensors] in
    order; the element type of the tensors plays no role. *)
Definition collect_outputs `{Inhabited A} (tensors : list (string * list (tensor A)))
    : result (gmap string (tensor A)) :=
  foldl (λ acc kv,
           output ← acc;
           let ind := find kv.1 "~~~" in
           if bool_decide (ind ≠ (-1)%Z) then
             t ← cat_list kv.2;
             Ok (<[String.substring 0 (Z.to_nat ind) kv.1 := t]> output)
           else Ok output)
        (Ok ∅) tensors.


(** An entry of a prediction dict with fewer than [n] leading entries. *)
Definition too_short (n : nat) (kv : string * value) : Prop :=
  match kv.2 with
  | VStrs l => kv.1 = "example_id" ∧ length l < n
  | VStr _ => False
  | VInt t => kv.1 ≠ "example_id" ∧ ∃ d, head (size t) = Some d ∧ 0 < d < n
  | VFloat t => kv.1 ≠ "example_id" ∧ ∃ d, head (size t) = Some d ∧ 0 < d < n
  end.

End sgd_callback.

(** ** bert_nm.py *)

Module bert_nm.

(** What running the constructor did, in order. *)
Inductive event : Type :=
  | SuperInit
  | NewBertConfig
  | BertConfigFromJsonFile
  | NewBertModel
  | BertModelFromPretrained
  | ModelToDevice
  | AddModule.

Record run (A : Type) : Type := Run { log : list event; outcome : result A }.
Arguments Run {A} log outcome.
Arguments log {A} r.
Arguments outcome {A} r.

#[global] Instance run_bind : MBind run := λ A B k m,
  match outcome m with
  | Ok a => Run (log m ++ log (k a)) (outcome (k a))
  | Raise e => Run (log m) (Raise e)
  end.
#[global] Instance run_ret : MRet run := λ A a, Run [] (Ok a).

Definition raise {A} (e : exn) : run A := Run [] (Raise e).

(** A call the constructor makes into code outside this file: the base
    class, the transformers library, torch.  The call is logged, and what
    it raises, of whatever class, propagates unchanged. *)
Definition external {A} (ev : event) (r : result A) : run A := Run [ev] r.

Definition only_one_msg : string :=
  "Only one of pretrained_model_name, vocab_size, " +:+
  "or config_filename should be passed into the " +:+
  "BERT constructor.".

Definition either_msg : string :=
  "Either pretrained_model_name or vocab_size must" +:+
  " be passed into the BERT constructor".

(** The number of arguments among the three that are not [None]. *)
Definition num_not_None (pretrained_model_name config_filename : option string)
    (vocab_size : option Z) : nat :=
  length (filter (λ b, b = true)
                 [bool_decide (is_Some pretrained_model_name);
                  bool_decide (is_Some config_filename);
                  bool_decide (is_Some vocab_size)]).

(** The counter of lines 97-103. *)
Definition total (pretrained_model_name config_filename : option string)
    (vocab_size : option Z) : nat :=
  let total := 0 in
  let total := if pretrained_model_name is Some _ then total + 1 else total in
  let total := if config_filename is Some _ then total + 1 else total in
  let total := if vocab_size is Some _ then total + 1 else total in
  total.

(** The branch of the second chain of conditions (lines 113-138). *)
Inductive branch : Type :=
  | FromVocabSize (vocab_size : Z)
  | FromPretrainedName (name : string)
  | FromConfigFile (filename : string)
  | FinalElse.

Definition dispatch (pretrained_model_name config_filename : option string)
    (vocab_size : option Z) : branch :=
  if vocab_size is Some v then FromVocabSize v
  else if pretrained_model_name is Some n then FromPretrainedName n
  else if config_filename is Some f then FromConfigFile f
  else FinalElse.

Section BERT.

(** The base class, the transformers classes and the remaining keyword
    arguments.  Values of [BertConfig] and [BertModel] are references to
    the objects; every call may raise. *)
Context {BertConfig BertModel hparams : Type}.
Variable super_init : result ().
Variable BertConfig_new : Z → hparams → result BertConfig.
Variable BertConfig_from_json_file : string → result BertConfig.
Variable BertModel_new : BertConfig → result BertModel.
Variable BertModel_from_pretrained : string → result BertModel.
Variable model_to : BertModel → result ().
Variable add_module : string → BertModel → result ().
Variable model_config : BertModel → BertConfig.
Variable config_hidden_size : BertConfig → nat.

Record BERT : Type := mkBERT {
  bert : BertModel;
  config : BertConfig;
  _hidden_size : nat
}.

Definition BERT_init (pretrained_model_name config_filename : option string)
    (vocab_size : option Z) (hp : hparams) : run BERT :=
  _ ← external SuperInit super_init;
  (* Check that only one of pretrained_model_name, config_filename, and
     vocab_size was passed in *)
  if bool_decide (total pretrained_model_name config_filename vocab_size ≠ 1) then
    raise (ValueError only_one_msg)
  else
    model ←
      match dispatch pretrained_model_name config_filename vocab_size with
      | FromVocabSize v =>
          config ← external NewBertConfig (BertConfig_new v hp);
          external NewBertModel (BertModel_new config)
      | FromPretrainedName n =>
          external BertModelFromPretrained (BertModel_from_pretrained n)
      | FromConfigFile f =>
          config ← external BertConfigFromJsonFile (BertConfig_from_json_file f);
          external NewBertModel (BertModel_new config)
      | FinalElse => raise (ValueError either_msg)
      end;
    _ ← external ModelToDevice (model_to model);
    _ ← external AddModule (add_module "bert" model);
    mret (mkBERT model (model_config model) (config_hidden_size (model_config model))).

(** The library returned the model [m] for the one argument given. *)
Definition built_from (pretrained_model_name config_filename : option string)
    (vocab_size : option Z) (hp : hparams) (m : BertModel) : Prop :=
  match pretrained_model_name, config_filename, vocab_size with
  | Some name, None, None => BertModel_from_pretrained name = Ok m
  | None, Some file, None =>
      ∃ c, BertConfig_from_json_file file = Ok c ∧ BertModel_new c = Ok m
  | None, None, Some v =>
      ∃ c, BertConfig_new v hp = Ok c ∧ BertModel_new c = Ok m
  | _, _, _ => False
  end.

(** One of the calls of the constructor, on the arguments given and on what
    the calls before it returned, raises [e]. *)
Definition raised_by_call (pretrained_model_name config_filename : option string)
    (vocab_size : option Z) (hp : hparams) (e : exn) : Prop :=
  super_init = Raise e
  ∨ (∃ v, vocab_size = Some v ∧ BertConfig_new v hp = Raise e)
  ∨ (∃ f, config_filename = Some f ∧ BertConfig_from_json_file f = Raise e)
  ∨ (∃ n, pretrained_model_name = Some n ∧ BertModel_from_pretrained n = Raise e)
  ∨ (∃ v c, vocab_size = Some v ∧ BertConfig_new v hp = Ok c
            ∧ BertModel_new c = Raise e)
  ∨ (∃ f c, config_filename = Some f ∧ BertConfig_from_json_file f = Ok c
            ∧ BertModel_new c = Raise e)
  ∨ (∃ m, built_from pretrained_model_name config_filename vocab_size hp m
          ∧ model_to m = Raise e)
  ∨ (∃ m, built_from pretrained_model_name config_filename vocab_size hp m
          ∧ model_to m = Ok () ∧ add_module "bert" m = Raise e).

End BERT.

(** [BertModel(config)] as far as the examples need it: the self-attention
    layer of the transformers library raises a [ValueError] when the hidden
    size is not a multiple of the number of attention heads (the message is
    given without its numbers).  A configuration is here the vocabulary
    size with the hidden size and the number of attention heads, and a
    model is its configuration. *)
Definition not_a_multiple_msg : string :=
  "The hidden size is not a multiple of the number of attention heads".

Definition BertSelfAttention_check (config : Z * (nat * nat))
    : result (Z * (nat * nat)) :=
  if bool_decide (config.2.1 mod config.2.2 ≠ 0)
  then Raise (ValueError not_a_multiple_msg) else Ok config.


(** [PretrainedModelInfo], a named tuple. *)
Record PretrainedModelInfo : Type := mkPretrainedModelInfo {
  info_pretrained_model_name : string;
  info_description : string;
  info_parameters : string;
  info_location : string
}.

(** [list_pretrained_models] over the two archive maps of the transformers
    library: the model map in iteration order, the configuration map as a
    finite map.  [None] is the [KeyError] of a model name that the
    configuration map does not have. *)
Definition list_pretrained_models
    (BERT_PRETRAINED_MODEL_ARCHIVE_MAP : list (string * string))
    (BERT_PRETRAINED_CONFIG_ARCHIVE_MAP : gmap string string)
    : option (list PretrainedModelInfo) :=
  foldl (λ acc kv,
           pretrained_models ← acc;
           parameters ← BERT_PRETRAINED_CONFIG_ARCHIVE_MAP !! kv.1;
           Some (pretrained_models
                 ++ [mkPretrainedModelInfo kv.1 "weights by HuggingFace" parameters kv.2]))
        (Some []) BERT_PRETRAINED_MODEL_ARCHIVE_MAP.

End bert_nm.

(** ** Facts on index arithmetic *)

Lemma in_bounds_nil idx : in_bounds [] idx ↔ idx = [].
Proof.
  split; [intros H; by inversion H | intros ->; constructor].
Qed.

Lemma in_bounds_cons d sh idx :
  in_bounds (d :: sh) idx ↔ ∃ i idx', idx = i :: idx' ∧ i < d ∧ in_bounds sh idx'.
Proof.
  split.
  - intros H. inversion H; subst. eauto.
  - intros (i & idx' & -> & Hi & Hidx). by constructor.
Qed.

Lemma in_bounds_length sh idx : in_bounds sh idx → length idx = length sh.
Proof. apply Forall2_length. Qed.

Lemma in_bounds_app sh1 sh2 idx1 idx2 :
  in_bounds sh1 idx1 → in_bounds sh2 idx2 → in_bounds (sh1 ++ sh2) (idx1 ++ idx2).
Proof. apply Forall2_app. Qed.

Lemma ravel_lt sh idx : in_bounds sh idx → ravel sh idx < numel sh.
Proof.
  intros H. induction H as [|i d idx sh Hi _ IH]; simpl; [lia|nia].
Qed.

Lemma unravel_ravel sh idx : in_bounds sh idx → unravel sh (ravel sh idx) = idx.
Proof.
  intros H. induction H as [|i d idx sh Hi Hb IH]; simpl; [done|].
  pose proof (ravel_lt _ _ Hb) as Hlt.
  assert (Hq : (i * numel sh + ravel sh idx) / numel sh = i).
  { rewrite Nat.add_comm, Nat.div_add by lia. rewrite Nat.div_small by done. lia. }
  assert (Hr : (i * numel sh + ravel sh idx) mod numel sh = ravel sh idx).
  { rewrite Nat.add_comm, Nat.Div0.mod_add. by apply Nat.mod_small. }
  by rewrite Hq, Hr, IH.
Qed.

Lemma unravel_in_bounds sh k : k < numel sh → in_bounds sh (unravel sh k).
Proof.
  revert k. induction sh as [|d sh IH]; intros k Hk; simpl in *; [constructor|].
  assert (numel sh ≠ 0) by (intros E; rewrite E in Hk; lia).
  constructor.
  - apply Nat.Div0.div_lt_upper_bound. lia.
  - apply IH. by apply Nat.mod_upper_bound.
Qed.

Lemma ravel_unravel sh k : k < numel sh → ravel sh (unravel sh k) = k.
Proof.
  revert k. induction sh as [|d sh IH]; intros k Hk; simpl in *; [lia|].
  assert (numel sh ≠ 0) by (intros E; rewrite E in Hk; lia).
  rewrite IH by (by apply Nat.mod_upper_bound).
  pose proof (Nat.div_mod_eq k (numel sh)). lia.
Qed.

Lemma ravel_app_last sh d idx i :
  length idx = length sh → ravel (sh ++ [d]) (idx ++ [i]) = ravel sh idx * d + i.
Proof.
  revert idx. induction sh as [|d' sh IH]; intros [|j idx] Hlen; simplify_eq/=.
  - lia.
  - rewrite IH by done.
    assert (numel (sh ++ [d]) = numel sh * d) as ->; [|lia].
    clear. induction sh as [|? ? IH]; simpl; [lia|]. rewrite IH. lia.
Qed.

Lemma numel_app sh1 sh2 : numel (sh1 ++ sh2) = numel sh1 * numel sh2.
Proof. induction sh1 as [|? ? IH]; simpl; [lia|]. rewrite IH. lia. Qed.

(** ** Facts on tensors *)

Lemma wf_build {A} sh (f : list nat → A) : wf (build sh f).
Proof. unfold wf, build; simpl. by rewrite length_fmap, length_seq. Qed.

Lemma size_build {A} sh (f : list nat → A) : size (build sh f) = sh.
Proof. done. Qed.

Lemma item_build `{Inhabited A} sh (f : list nat → A) idx :
  in_bounds sh idx → item (build sh f) idx = f idx.
Proof.
  intros Hb. unfold item, build; simpl.
  pose proof (ravel_lt _ _ Hb) as Hlt.
  apply list_lookup_total_correct.
  rewrite list_lookup_fmap, lookup_seq_lt by done. simpl.
  by rewrite unravel_ravel.
Qed.

(** ** Facts on the torch operations *)

Module torch_facts.
Import torch.

Lemma norm_dim_nonneg rank (p : nat) : p < rank → norm_dim rank p = Ok p.
Proof.
  intros Hp. unfold norm_dim. rewrite bool_decide_eq_true_2 by lia.
  by rewrite Nat2Z.id.
Qed.

Lemma norm_dim_neg rank (k : nat) :
  0 < k ≤ rank → norm_dim rank (- k) = Ok (rank - k).
Proof.
  intros Hk. unfold norm_dim.
  rewrite bool_decide_eq_false_2 by lia.
  rewrite bool_decide_eq_true_2 by lia.
  f_equal. lia.
Qed.

Lemma unsqueeze_last {A} (t : tensor A) :
  unsqueeze t (-1) = Ok (mkTensor (size t ++ [1]) (data t)).
Proof.
  unfold unsqueeze. change (-1)%Z with (- (1%nat))%Z.
  rewrite norm_dim_neg by lia. simpl. unfold dim.
  rewrite Nat.sub_0_r. by rewrite firstn_all, drop_all.
Qed.

Lemma unsqueeze_at {A} (t : tensor A) (p : nat) :
  p ≤ dim t →
  unsqueeze t p = Ok (mkTensor (take p (size t) ++ 1 :: drop p (size t)) (data t)).
Proof.
  intros Hp. unfold unsqueeze. by rewrite norm_dim_nonneg by lia.
Qed.

Lemma arange_upto (n : Z) :
  (0 ≤ n)%Z →
  arange 0 n 1 = Ok (mkTensor [Z.to_nat n] (Z.of_nat <$> seq 0 (Z.to_nat n))).
Proof.
  intros Hn. unfold arange.
  rewrite bool_decide_eq_false_2 by lia.
  rewrite bool_decide_eq_false_2 by lia.
  replace (- (- (n - 0) / 1))%Z with n by (rewrite Z.div_1_r; lia).
  do 2 f_equal. apply list_fmap_ext. intros _ i _. lia.
Qed.

Lemma item_arange (n : nat) i :
  i < n → item (mkTensor [n] (Z.of_nat <$> seq 0 n)) [i] = Z.of_nat i.
Proof.
  intros Hi. unfold item; simpl.
  apply list_lookup_total_correct.
  rewrite list_lookup_fmap. replace (i * 1 + 0) with i by lia.
  by rewrite lookup_seq_lt.
Qed.

(** Broadcasting. *)

Lemma broadcast_rev_same sh : broadcast_rev sh sh = Ok sh.
Proof.
  induction sh as [|d sh IH]; simpl; [done|].
  rewrite IH. simpl. by rewrite bool_decide_eq_true_2.
Qed.

Lemma broadcast_shapes_same sh : broadcast_shapes sh sh = Ok sh.
Proof.
  unfold broadcast_shapes. rewrite broadcast_rev_same. simpl.
  by rewrite reverse_involutive.
Qed.

Lemma broadcast_rev_nil_r sh : broadcast_rev sh [] = Ok sh.
Proof. by destruct sh. Qed.

Lemma broadcast_shapes_row n sh :
  broadcast_shapes [n] (sh ++ [1]) = Ok (sh ++ [n]).
Proof.
  unfold broadcast_shapes. rewrite reverse_app. simpl.
  repeat case_bool_decide; subst; simpl; by rewrite reverse_cons, reverse_involutive.
Qed.

Lemma bidx_same sh idx : in_bounds sh idx → bidx sh idx = idx.
Proof.
  intros Hb. unfold bidx.
  rewrite (in_bounds_length _ _ Hb), Nat.sub_diag, drop_0.
  induction Hb as [|i d idx sh Hi Hb IH]; simpl; [done|].
  rewrite IH. case_bool_decide; [|done]. f_equal. lia.
Qed.

Lemma bidx_suffix sh pre idx :
  length idx = length sh → bidx sh (pre ++ idx) = bidx sh idx.
Proof.
  intros Hlen. unfold bidx.
  rewrite length_app, Hlen, Nat.sub_diag.
  replace (length pre + length sh - length sh) with (length pre) by lia.
  by rewrite drop_app_length.
Qed.

Lemma bidx_unit_last sh idx i :
  in_bounds sh idx → bidx (sh ++ [1]) (idx ++ [i]) = idx ++ [0].
Proof.
  intros Hb. unfold bidx.
  rewrite !length_app, (in_bounds_length _ _ Hb), Nat.sub_diag, drop_0.
  induction Hb as [|j d idx sh Hj Hb IH]; simpl; [done|].
  rewrite IH. case_bool_decide; [|done]. f_equal. lia.
Qed.

Lemma item_mk_unit_last `{Inhabited A} sh (l : list A) idx :
  length idx = length sh →
  item (mkTensor (sh ++ [1]) l) (idx ++ [0]) = item (mkTensor sh l) idx.
Proof.
  intros Hlen. unfold item; simpl. rewrite ravel_app_last by done.
  f_equal. lia.
Qed.

Lemma map2_ok `{Inhabited A, Inhabited B} {C} (f : A → B → C) a b sh :
  broadcast_shapes (size a) (size b) = Ok sh →
  map2 f a b = Ok (build sh (λ idx, f (item a (bidx (size a) idx))
                                      (item b (bidx (size b) idx)))).
Proof. intros Hsh. unfold map2. by rewrite Hsh. Qed.

(** Constant tensors. *)

Lemma data_smul_ones c sh : data (smul c (ones sh)) = replicate (numel sh) c.
Proof.
  unfold smul, ones, tmap, build; simpl.
  rewrite <- list_fmap_compose.
  generalize 0 at 1. induction (numel sh) as [|n IH]; intros k; simpl; [done|].
  rewrite IH. f_equal. unfold compose. lra.
Qed.

(** The first greatest entry of a list. *)

Lemma argmax_from_inv (p l : list R) (bi : nat) (b : R) (k : nat) (v : R) :
  p !! bi = Some b →
  (∀ x, x ∈ p → (x <= b)%R) →
  (∀ j x, j < bi → p !! j = Some x → (x < b)%R) →
  argmax_from bi b (length p) l = (k, v) →
  (p ++ l) !! k = Some v
  ∧ (∀ x, x ∈ p ++ l → (x <= v)%R)
  ∧ (∀ j x, j < k → (p ++ l) !! j = Some x → (x < v)%R).
Proof.
  revert p bi b. induction l as [|x l IH]; intros p bi b Hbi Hle Hlt Hr; simpl in Hr.
  - simplify_eq. by rewrite app_nil_r.
  - replace (p ++ x :: l) with ((p ++ [x]) ++ l) by (by rewrite <- app_assoc).
    assert (Hlen : S (length p) = length (p ++ [x])) by (rewrite length_app; simpl; lia).
    rewrite Hlen in Hr. destruct (Rlt_dec b x) as [Hbx|Hbx].
    + eapply IH; [| | |exact Hr].
      * by rewrite lookup_app_r, Nat.sub_diag.
      * intros y [Hy|Hy%list_elem_of_singleton]%elem_of_app; [|subst; lra].
        apply Hle in Hy. lra.
      * intros j y Hj Hy. rewrite lookup_app_l in Hy by done.
        apply list_elem_of_lookup_2, Hle in Hy. lra.
    + eapply IH; [| | |exact Hr].
      * rewrite lookup_app_l; [done|]. by eapply lookup_lt_Some.
      * intros y [Hy|Hy%list_elem_of_singleton]%elem_of_app; [by apply Hle|subst; lra].
      * intros j y Hj Hy. apply lookup_lt_Some in Hbi as Hbi'.
        rewrite lookup_app_l in Hy by lia. by eapply Hlt.
Qed.

Lemma list_argmax_spec (l : list R) (k : nat) (v : R) :
  list_argmax l = Some (k, v) →
  l !! k = Some v
  ∧ (∀ x, x ∈ l → (x <= v)%R)
  ∧ (∀ j x, j < k → l !! j = Some x → (x < v)%R).
Proof.
  destruct l as [|x l]; [done|]. simpl. intros [= Hr].
  apply (argmax_from_inv [x] l 0 x k v); [done| | |done].
  - intros y ->%list_elem_of_singleton. lra.
  - intros; lia.
Qed.

Lemma list_argmax_is_Some (l : list R) : l ≠ [] → is_Some (list_argmax l).
Proof. destruct l; [done|]. intros _. simpl. eauto. Qed.

Lemma view_infer_3 {A} (t : tensor A) (q a b : nat) :
  numel (size t) = q * (a * b) → a * b ≠ 0 →
  view t [-1; Z.of_nat a; Z.of_nat b]%Z = Ok (mkTensor [q; a; b] (data t)).
Proof.
  intros Hn Hab. unfold view.
  rewrite bool_decide_eq_false_2.
  2:{ rewrite !Exists_cons, Exists_nil. intros [?|[?|[?|[]]]]; lia. }
  assert (filter (λ d, d ≠ (-1)%Z) [(-1)%Z; Z.of_nat a; Z.of_nat b]
          = [Z.of_nat a; Z.of_nat b]) as ->.
  { rewrite !filter_cons, filter_nil. repeat case_decide; done || lia. }
  assert (filter (λ d, d = (-1)%Z) [(-1)%Z; Z.of_nat a; Z.of_nat b] = [(-1)%Z]) as ->.
  { rewrite !filter_cons, filter_nil. repeat case_decide; done || lia. }
  simpl. rewrite !Nat2Z.id, Nat.mul_1_r.
  rewrite bool_decide_eq_false_2 by done.
  rewrite bool_decide_eq_true_2 by (rewrite Hn; apply Nat.Div0.mod_mul).
  rewrite bool_decide_eq_false_2 by lia.
  rewrite bool_decide_eq_false_2 by lia.
  rewrite Hn, Nat.div_mul by done. done.
Qed.

Lemma reduce_last_ok {B} (f : nat * R → B) (t : tensor R) :
  last_dim (size t) ≠ 0 →
  reduce_last f t = Ok (build (lead (size t))
                 (λ idx, match list_argmax (row t idx) with
                         | Some r => f r
                         | None => f (0, 0%R)
                         end)).
Proof. intros Hn. unfold reduce_last. by rewrite bool_decide_eq_false_2. Qed.

Lemma row_length `{Inhabited A} (t : tensor A) pre :
  length (row t pre) = last_dim (size t).
Proof. unfold row. by rewrite length_fmap, length_seq. Qed.

Lemma row_lookup `{Inhabited A} (t : tensor A) pre j :
  j < last_dim (size t) → row t pre !! j = Some (item t (pre ++ [j])).
Proof.
  intros Hj. unfold row. by rewrite list_lookup_fmap, lookup_seq_lt.
Qed.

Lemma row_lookup_lt `{Inhabited A} (t : tensor A) pre j x :
  row t pre !! j = Some x → j < last_dim (size t) ∧ x = item t (pre ++ [j]).
Proof.
  intros Hj. pose proof (lookup_lt_Some _ _ _ Hj) as Hlt.
  rewrite row_length in Hlt. rewrite row_lookup in Hj by done. by simplify_eq.
Qed.

Lemma item_tmap_build `{Inhabited A, Inhabited B} (g : A → B) sh (f : list nat → A) idx :
  in_bounds sh idx → item (tmap g (build sh f)) idx = g (f idx).
Proof.
  intros Hb. unfold item, tmap, build; simpl.
  pose proof (ravel_lt _ _ Hb) as Hlt.
  apply list_lookup_total_correct.
  rewrite !list_lookup_fmap, lookup_seq_lt by done. simpl.
  by rewrite unravel_ravel.
Qed.

(** Reading a [(B, S, T, T)] tensor through its [(B, S, T * T)] view. *)
Lemma item_flat_view `{Inhabited A} (d : list A) B S T b s k :
  item (mkTensor [B; S; T * T] d) [b; s; k]
  = item (mkTensor [B; S; T; T] d) [b; s; k / T; k mod T].
Proof.
  unfold item; simpl. f_equal.
  pose proof (Nat.div_mod_eq k T). nia.
Qed.

Lemma quot_rem_of_nat (k T : nat) :
  T ≠ 0 →
  Z.quot (Z.of_nat k) (Z.of_nat T) = Z.of_nat (k / T)
  ∧ Z.rem (Z.of_nat k) (Z.of_nat T) = Z.of_nat (k mod T).
Proof.
  intros HT. rewrite Z.quot_div_nonneg, Z.rem_mod_nonneg by lia.
  by rewrite Nat2Z.inj_div, Nat2Z.inj_mod.
Qed.

Lemma bind_Ok {A B} (a : A) (k : A → result B) : (Ok a ≫= k) = k a.
Proof. done. Qed.

Lemma unsqueeze_ok {A} (t : tensor A) (d : Z) (p : nat) :
  norm_dim (S (dim t)) d = Ok p →
  unsqueeze t d = Ok (mkTensor (take p (size t) ++ 1 :: drop p (size t)) (data t)).
Proof. intros Hp. unfold unsqueeze. by rewrite Hp. Qed.

Lemma view_unit_3 {A} (t : tensor A) n :
  size t = [n] → view t [1; 1; -1; 1]%Z = Ok (mkTensor [1; 1; n; 1] (data t)).
Proof.
  intros Hsz. unfold view. rewrite Hsz.
  rewrite bool_decide_eq_false_2.
  2:{ rewrite !Exists_cons, Exists_nil. intros [?|[?|[?|[?|[]]]]]; lia. }
  change (filter (λ d : Z, d ≠ (-1)%Z) [1; 1; -1; 1]%Z) with [1; 1; 1]%Z.
  change (filter (λ d : Z, d = (-1)%Z) [1; 1; -1; 1]%Z) with [(-1)%Z].
  simpl. change ((Nat.divmod (n * 1) 0 0 0).1) with ((n * 1) / 1).
  by rewrite Nat.div_1_r, Nat.mul_1_r.
Qed.

Lemma view_unit_4 {A} (t : tensor A) n :
  size t = [n] → view t [1; 1; 1; -1]%Z = Ok (mkTensor [1; 1; 1; n] (data t)).
Proof.
  intros Hsz. unfold view. rewrite Hsz.
  rewrite bool_decide_eq_false_2.
  2:{ rewrite !Exists_cons, Exists_nil. intros [?|[?|[?|[?|[]]]]]; lia. }
  change (filter (λ d : Z, d ≠ (-1)%Z) [1; 1; 1; -1]%Z) with [1; 1; 1]%Z.
  change (filter (λ d : Z, d = (-1)%Z) [1; 1; 1; -1]%Z) with [(-1)%Z].
  simpl. change ((Nat.divmod (n * 1) 0 0 0).1) with ((n * 1) / 1).
  by rewrite Nat.div_1_r, Nat.mul_1_r.
Qed.

Lemma clamp_unit d i : i < d → (if bool_decide (d = 1) then 0 else i) = i.
Proof. intros Hi. case_bool_decide; lia. Qed.

Lemma repeat_same_rank `{Inhabited A} (t : tensor A) reps :
  length reps = dim t →
  repeat t reps = Ok (build (zip_with Nat.mul (size t) reps)
                            (λ idx, item t (zip_with Nat.modulo idx (size t)))).
Proof.
  intros Hlen. unfold repeat. rewrite bool_decide_eq_false_2 by lia.
  rewrite Hlen, Nat.sub_diag. simpl. by destruct t.
Qed.

Lemma where_same `{Inhabited A} (c : tensor bool) (x y : tensor A) sh :
  size c = sh → size x = sh → size y = sh →
  where_ c x y = Ok (build sh (λ idx, if item c (bidx sh idx)
                                      then item x (bidx sh idx)
                                      else item y (bidx sh idx))).
Proof.
  intros Hc Hx Hy. unfold where_.
  rewrite Hc, Hx, broadcast_shapes_same, bind_Ok.
  by rewrite Hy, broadcast_shapes_same, bind_Ok.
Qed.

(** Softmax. *)

Lemma sum_list_R_nonneg (l : list R) :
  Forall (λ x, 0 < x)%R l → (0 <= sum_list_R l)%R.
Proof. induction 1; simpl; lra. Qed.

Lemma sum_list_R_elem (l : list R) (x : R) :
  Forall (λ y, 0 < y)%R l → x ∈ l → (0 < x <= sum_list_R l)%R.
Proof.
  intros Hl Hx. induction Hl as [|y l Hy Hl IH]; [by apply elem_of_nil in Hx|].
  pose proof (sum_list_R_nonneg l Hl). simpl.
  apply elem_of_cons in Hx as [->|Hx]; [lra|]. specialize (IH Hx). lra.
Qed.

Lemma lead_snoc {A} (l : list A) (x : A) : lead (l ++ [x]) = l.
Proof.
  unfold lead. rewrite length_app. simpl.
  replace (length l + 1 - 1) with (length l) by lia.
  by rewrite take_app_length.
Qed.

Lemma in_bounds_snoc_inv sh idx :
  sh ≠ [] → in_bounds sh idx →
  ∃ j, idx = lead idx ++ [j] ∧ j < last_dim sh ∧ in_bounds (lead sh) (lead idx).
Proof.
  intros Hne Hb. destruct (decide (sh = [])) as [|_]; [done|].
  assert (∃ sh' d, sh = sh' ++ [d]) as (sh' & d & ->).
  { destruct sh as [|a sh] using rev_ind; [done|]. eauto. }
  unfold in_bounds in Hb. apply Forall2_app_inv_r in Hb as (idx' & l & Hb1 & Hb2 & ->).
  inversion Hb2 as [|j ? ? ? Hj Hnil]; subst. inversion Hnil; subst.
  exists j. rewrite !lead_snoc. unfold last_dim. rewrite last_snoc. simpl. done.
Qed.

Lemma row_item_elem `{Inhabited A} (t : tensor A) idx :
  in_bounds (size t) idx → item t idx ∈ row t (lead idx).
Proof.
  intros Hb. destruct (decide (size t = [])) as [Hnil|Hne].
  - rewrite Hnil in Hb. apply in_bounds_nil in Hb as ->.
    unfold row, last_dim, lead, item. rewrite Hnil. simpl. apply list_elem_of_here.
  - destruct (in_bounds_snoc_inv _ _ Hne Hb) as (j & Hidx & Hj & _).
    apply list_elem_of_lookup. exists j. rewrite row_lookup by done. by rewrite <- Hidx.
Qed.

Lemma softmax_item_bounds (t : tensor R) idx :
  in_bounds (size t) idx → (0 < item (softmax t) idx <= 1)%R.
Proof.
  intros Hb. unfold softmax. rewrite item_build by done.
  pose proof (row_item_elem t idx Hb) as Hel.
  apply (list_elem_of_fmap_2 exp) in Hel.
  apply sum_list_R_elem in Hel as [Hpos Hle].
  2:{ apply Forall_fmap, Forall_forall. intros x _. apply exp_pos. }
  split.
  - apply Rdiv_lt_0_compat; lra.
  - unfold Rdiv. apply Rmult_le_reg_r with (sum_list_R (exp <$> row t (lead idx))); [lra|].
    rewrite Rmult_assoc, Rinv_l by lra. lra.
Qed.

Lemma Forall_data_build {A} (P : A → Prop) sh (f : list nat → A) :
  (∀ idx, in_bounds sh idx → P (f idx)) → Forall P (data (build sh f)).
Proof.
  intros Hf. unfold build; simpl. apply Forall_fmap, Forall_forall.
  intros k [_ Hk]%elem_of_seq. simpl. apply Hf, unravel_in_bounds. lia.
Qed.

Lemma row_elem_item `{Inhabited A} (t : tensor A) pre x :
  in_bounds (lead (size t)) pre → x ∈ row t pre →
  ∃ idx, in_bounds (size t) idx ∧ x = item t idx.
Proof.
  intros Hpre [j Hj]%list_elem_of_lookup. apply row_lookup_lt in Hj as [Hj ->].
  destruct (size t) as [|d sh] eqn:Hsz using rev_ind.
  - exists []. split; [constructor|].
    apply in_bounds_nil in Hpre as ->. unfold item. by rewrite Hsz.
  - exists (pre ++ [j]). split; [|done].
    rewrite lead_snoc in Hpre. unfold last_dim in Hj. rewrite last_snoc in Hj.
    apply in_bounds_app; [done|]. by repeat constructor.
Qed.

(** The greatest entry of each softmax row is a probability. *)
Lemma max_values_softmax_bounds (t p : tensor R) :
  max_values (softmax t) = Ok p →
  Forall (λ x, 0 < x <= 1)%R (data p).
Proof.
  unfold max_values, reduce_last. case_bool_decide as Hld; [done|].
  intros [= <-]. apply Forall_data_build. intros idx Hidx.
  destruct (list_argmax _) as [[k v]|] eqn:Hkv.
  - apply list_argmax_spec in Hkv as (Hk%list_elem_of_lookup_2 & _ & _).
    apply row_elem_item in Hk as (idx' & Hidx' & ->); [|done].
    by apply softmax_item_bounds.
  - exfalso. destruct (list_argmax_is_Some (row (softmax t) idx)) as [? Hs].
    + intros Hnil. apply (f_equal length) in Hnil. by rewrite row_length in Hnil.
    + by rewrite Hkv in Hs.
Qed.

Lemma Forall_data_items `{Inhabited A} (P : A → Prop) (t : tensor A) :
  wf t → (∀ idx, in_bounds (size t) idx → P (item t idx)) → Forall P (data t).
Proof.
  intros Hwf Hitem. apply Forall_lookup. intros k x Hk.
  pose proof (lookup_lt_Some _ _ _ Hk) as Hlt. rewrite Hwf in Hlt.
  specialize (Hitem _ (unravel_in_bounds _ _ Hlt)).
  unfold item in Hitem. rewrite ravel_unravel in Hitem by done.
  by rewrite (list_lookup_total_correct _ _ _ Hk) in Hitem.
Qed.

Lemma item_tmap `{Inhabited A, Inhabited B} (g : A → B) (t : tensor A) idx :
  wf t → in_bounds (size t) idx → item (tmap g t) idx = g (item t idx).
Proof.
  intros Hwf Hb. unfold item, tmap; simpl.
  pose proof (ravel_lt _ _ Hb) as Hlt. rewrite <- Hwf in Hlt.
  apply list_lookup_total_correct. rewrite list_lookup_fmap.
  by rewrite (list_lookup_lookup_total_lt _ _ Hlt).
Qed.

Lemma data_squeeze {A} (t t' : tensor A) d : squeeze t d = Ok t' → data t' = data t.
Proof.
  unfold squeeze. destruct (norm_dim _ _); [|done]. rewrite bind_Ok.
  case_bool_decide; by intros [= <-].
Qed.

(** Chunking along the batch dimension. *)

Lemma chunk_rows {A} (t : tensor A) (n : nat) rest :
  size t = n :: rest → 0 < n →
  chunk t n = Ok ((λ i, narrow0 t i 1) <$> seq 0 n).
Proof.
  intros Hsz Hn. unfold chunk. rewrite Hsz.
  rewrite bool_decide_eq_false_2 by lia. rewrite Nat2Z.id.
  assert ((n + n - 1) / n = 1) as ->.
  { symmetry. apply Nat.div_unique with (n - 1); lia. }
  rewrite bool_decide_eq_false_2 by lia.
  replace (n + 1 - 1) with n by lia. rewrite Nat.div_1_r.
  replace (n `max` 1) with n by lia.
  f_equal. apply list_fmap_ext. intros j i Hi%list_elem_of_lookup_2.
  apply elem_of_seq in Hi. f_equal; lia.
Qed.

Lemma view_flat {A} (t : tensor A) :
  view t [-1]%Z = Ok (mkTensor [numel (size t)] (data t)).
Proof.
  unfold view. rewrite bool_decide_eq_false_2.
  2:{ rewrite Exists_cons, Exists_nil. intros [?|[]]; lia. }
  change (filter (λ d : Z, d ≠ (-1)%Z) [(-1)%Z]) with (@nil Z).
  change (filter (λ d : Z, d = (-1)%Z) [(-1)%Z]) with [(-1)%Z].
  simpl. change ((Nat.divmod (numel (size t)) 0 0 0).1) with (numel (size t) / 1).
  by rewrite Nat.div_1_r.
Qed.

Lemma view_flat_narrow0 {A} (t : tensor A) i :
  view (narrow0 t i 1) [-1]%Z
  = Ok (mkTensor [numel (tail (size t))]
                 (take (numel (tail (size t))) (drop (i * numel (tail (size t))) (data t)))).
Proof.
  rewrite view_flat. unfold narrow0; simpl. by rewrite !Nat.add_0_r.
Qed.

(** Linear layers and concatenation. *)

Lemma Linear_forward_ok (l : Linear) (x : tensor R) :
  last (size x) = Some (in_features l) →
  Linear_forward l x
  = Ok (build (lead (size x) ++ [out_features l])
              (λ idx, let o := default 0 (last idx) in
                      (sum_list_R ((λ i, item x (lead idx ++ [i])
                                         * item (weight l) [o; i])%R
                                  <$> seq 0 (in_features l))
                       + item (bias l) [o])%R)).
Proof. intros Hl. unfold Linear_forward. by rewrite bool_decide_eq_true_2. Qed.

Lemma cat_ok `{Inhabited A} (a b : tensor A) (axis : Z) (p : nat) :
  norm_dim (dim a) axis = Ok p →
  dim a = dim b → take p (size a) = take p (size b) →
  drop (S p) (size a) = drop (S p) (size b) →
  cat a b axis
  = Ok (build (<[p := size a !!! p + size b !!! p]> (size a))
              (λ idx, let i := idx !!! p in
                      if bool_decide (i < size a !!! p) then item a idx
                      else item b (<[p := i - size a !!! p]> idx))).
Proof.
  intros Hp Hd Ht Hdr. unfold cat.
  rewrite bool_decide_eq_false_2
    by (intros Hz; rewrite Hz in Hp; unfold norm_dim in Hp;
        repeat case_bool_decide; (done || lia)).
  rewrite Hp, bind_Ok. by rewrite bool_decide_eq_true_2.
Qed.

Lemma item_smul_ones c sh idx : in_bounds sh idx → item (smul c (ones sh)) idx = c.
Proof.
  intros Hb. unfold smul, ones. rewrite item_tmap_build by done. lra.
Qed.

Lemma sum_list_R_ext (f g : nat → R) n :
  (∀ i, i < n → f i = g i) →
  sum_list_R (f <$> seq 0 n) = sum_list_R (g <$> seq 0 n).
Proof.
  intros Hfg. f_equal. apply list_fmap_ext. intros ? i Hi%list_elem_of_lookup_2.
  apply elem_of_seq in Hi. apply Hfg. lia.
Qed.

Lemma item_Linear_build (l : Linear) (x : tensor R) sh pre o :
  in_bounds sh pre → o < out_features l →
  item (build (sh ++ [out_features l])
              (λ idx, let o := default 0 (last idx) in
                      (sum_list_R ((λ i, item x (lead idx ++ [i])
                                         * item (weight l) [o; i])%R
                                  <$> seq 0 (in_features l))
                       + item (bias l) [o])%R))
       (pre ++ [o])
  = (sum_list_R ((λ i, item x (pre ++ [i]) * item (weight l) [o; i])%R
                 <$> seq 0 (in_features l))
     + item (bias l) [o])%R.
Proof.
  intros Hpre Ho. rewrite item_build by (apply in_bounds_app; [done|by repeat constructor]).
  simpl. by rewrite last_snoc, lead_snoc.
Qed.

Lemma norm_dim_cases rank d : (∃ p, norm_dim rank d = Ok p) ∨ norm_dim rank d = Raise IndexError.
Proof. unfold norm_dim. repeat case_bool_decide; eauto. Qed.

Lemma select_cases `{Inhabited A} (t : tensor A) d i :
  (∃ x, select t d i = Ok x) ∨ select t d i = Raise IndexError.
Proof.
  unfold select. destruct (norm_dim_cases (dim t) d) as [[p ->]| ->]; [|by right].
  rewrite bind_Ok.
  destruct (norm_dim_cases (size t !!! p) i) as [[j ->]| ->]; [|by right].
  rewrite bind_Ok. eauto.
Qed.

(** Sizes given as Python integers. *)
Lemma filter_ne_of_nat (l : list nat) :
  filter (λ d, d ≠ (-1)%Z) (Z.of_nat <$> l) = Z.of_nat <$> l.
Proof.
  induction l as [|x l IH]; [done|]. rewrite fmap_cons, filter_cons.
  rewrite decide_True by lia. by rewrite IH.
Qed.

Lemma filter_eq_of_nat (l : list nat) :
  filter (λ d, d = (-1)%Z) (Z.of_nat <$> l) = [].
Proof.
  induction l as [|x l IH]; [done|]. rewrite fmap_cons, filter_cons.
  rewrite decide_False by lia. done.
Qed.

Lemma to_nat_of_nat (l : list nat) : Z.to_nat <$> (Z.of_nat <$> l) = l.
Proof.
  induction l as [|x l IH]; [done|]. rewrite !fmap_cons, Nat2Z.id. by rewrite IH.
Qed.

Lemma infer_of_nat (l : list nat) (k : nat) :
  (λ d, if bool_decide (d = -1)%Z then k else Z.to_nat d) <$> (Z.of_nat <$> l) = l.
Proof.
  induction l as [|x l IH]; [done|]. rewrite !fmap_cons, IH.
  rewrite bool_decide_eq_false_2 by lia. by rewrite Nat2Z.id.
Qed.

(** [t.view(sh)] with the number of entries of [t] and no inferred
    entry. *)
Lemma view_of_size {A} (t : tensor A) (sh : list nat) :
  numel sh = numel (size t) →
  view t (Z.of_nat <$> sh) = Ok (mkTensor sh (data t)).
Proof.
  intros Hn. unfold view.
  rewrite bool_decide_eq_false_2.
  2:{ rewrite Exists_fmap, Exists_exists. intros (x & _ & Hx). simpl in Hx. lia. }
  rewrite filter_ne_of_nat, filter_eq_of_nat, to_nat_of_nat. cbn [length].
  by rewrite bool_decide_eq_true_2.
Qed.

End torch_facts.

(** ** The masking utility *)

Module mask_facts.
Import torch torch_facts sgd_model.

Lemma get_mask_ok dt logits (C : Z) actual_length :
  (0 ≤ C)%Z →
  _get_mask dt logits C actual_length =
    Ok (build (size actual_length ++ [Z.to_nat C])
              (λ idx, bool_decide
                        (Z.lt
                           (item (mkTensor [Z.to_nat C] (Z.of_nat <$> seq 0 (Z.to_nat C)))
                                 (bidx [Z.to_nat C] idx))
                           (item (mkTensor (size actual_length ++ [1]) (data actual_length))
                                 (bidx (size actual_length ++ [1]) idx)))),
        smul (sentinel dt) (ones (size logits))).
Proof.
  intros HC. unfold _get_mask.
  rewrite arange_upto by done. simpl.
  rewrite unsqueeze_last. simpl.
  unfold lt. erewrite map2_ok by apply broadcast_shapes_row. done.
Qed.

Lemma get_mask_item dt logits (C : Z) actual_length mask neg idx i :
  _get_mask dt logits C actual_length = Ok (mask, neg) →
  in_bounds (size actual_length) idx → (Z.of_nat i < C)%Z →
  item mask (idx ++ [i]) = bool_decide (Z.of_nat i < item actual_length idx)%Z.
Proof.
  intros Hm Hidx Hi. rewrite get_mask_ok in Hm by lia. simplify_eq.
  rewrite item_build by (apply in_bounds_app; [done|]; repeat constructor; lia).
  pose proof (in_bounds_length _ _ Hidx) as Hlen.
  rewrite bidx_suffix by done.
  rewrite bidx_same by (repeat constructor; lia).
  rewrite item_arange by lia.
  rewrite bidx_unit_last by done.
  by rewrite item_mk_unit_last.
Qed.

Lemma sentinel_negative dt : (sentinel dt < 0)%R.
Proof.
  unfold sentinel.
  assert (0 < finfo_max dt)%R; [|lra].
  destruct dt; simpl; try lra.
  all: apply Rmult_lt_0_compat; [|apply pow_lt; lra].
  all: match goal with
       | |- (0 < 2 - / ?x)%R =>
           assert (/ x <= 1)%R; [|lra];
           rewrite <- Rinv_1; apply Rinv_le_contravar; [lra|];
           apply pow_R1_Rle; lra
       end.
Qed.

(** C1.  For a capacity [C >= 0] and lengths of any size [(...)],
    [_get_mask] returns a mask of size [(..., C)] that is true at position
    [i] of the row of an example exactly when [i < len] for that example's
    own length (whatever the lengths of the other examples; in particular
    for [0 <= len <= C]), and a tensor of the size of [logits] whose every
    entry is the negative sentinel [finfo(dtype).max * -0.7]. *)
Theorem get_mask_spec dt logits (C : Z) actual_length :
  (0 ≤ C)%Z →
  ∃ mask negative_logits,
    _get_mask dt logits C actual_length = Ok (mask, negative_logits)
    ∧ size mask = size actual_length ++ [Z.to_nat C]
    ∧ wf mask
    ∧ (∀ idx i, in_bounds (size actual_length) idx → (Z.of_nat i < C)%Z →
         item mask (idx ++ [i]) = true ↔ (Z.of_nat i < item actual_length idx)%Z)
    ∧ size negative_logits = size logits
    ∧ data negative_logits = replicate (numel (size logits)) (sentinel dt)
    ∧ (sentinel dt < 0)%R.
Proof.
  intros HC. pose proof (get_mask_ok dt logits C actual_length HC) as Hok.
  eexists _, _. split; [exact Hok|].
  split; [done|]. split; [apply wf_build|]. split.
  - intros idx i Hidx Hi.
    rewrite (get_mask_item _ _ _ _ _ _ _ _ Hok Hidx Hi).
    by rewrite bool_decide_eq_true.
  - split; [done|]. split; [apply data_smul_ones|apply sentinel_negative].
Qed.

Lemma get_mask_spec_witness :
  ∃ mask negative_logits,
    _get_mask float32 (mkTensor [2; 3] [1; 2; 3; 4; 5; 6]%R) 3 (mkTensor [2] [1; 3]%Z)
    = Ok (mask, negative_logits)
    ∧ size mask = [2; 3]
    ∧ (item mask [0; 1] = true ↔ (1 < 1)%Z)
    ∧ (item mask [1; 1] = true ↔ (1 < 3)%Z).
Proof.
  destruct (get_mask_spec float32 (mkTensor [2; 3] [1; 2; 3; 4; 5; 6]%R) 3
                          (mkTensor [2] [1; 3]%Z))
    as (mask & neg & Hm & Hsz & _ & Hitem & _); [lia|].
  exists mask, neg. split; [exact Hm|]. split; [exact Hsz|]. split.
  - apply (Hitem [0] 1); [repeat constructor; lia | lia].
  - apply (Hitem [1] 1); [repeat constructor; lia | lia].
Defined.

End mask_facts.

(** ** The prediction decoder *)

Module callback_facts.
Import torch torch_facts sgd_callback.

Lemma span_recovery_ok scores B S T :
  size scores = [B; S; T; T] → 0 < S → 0 < T →
  span_recovery scores S T =
    Ok (build [B; S] (λ idx, match list_argmax (row (mkTensor [B; S; T * T] (data scores)) idx) with
                             | Some r => r.2
                             | None => 0%R
                             end),
        tmap (λ x, Z.quot x T)
             (build [B; S] (λ idx, match list_argmax (row (mkTensor [B; S; T * T] (data scores)) idx) with
                                   | Some r => Z.of_nat r.1
                                   | None => 0%Z
                                   end)),
        tmap (λ x, Z.rem x T)
             (build [B; S] (λ idx, match list_argmax (row (mkTensor [B; S; T * T] (data scores)) idx) with
                                   | Some r => Z.of_nat r.1
                                   | None => 0%Z
                                   end))).
Proof.
  intros Hsz HS HT. unfold span_recovery.
  replace (Z.of_nat T ^ 2)%Z with (Z.of_nat (T * T)) by lia.
  rewrite (view_infer_3 scores B S (T * T)) by (rewrite ?Hsz; simpl; nia).
  simpl. unfold argmax, max_values.
  rewrite !reduce_last_ok by (simpl; unfold last_dim; simpl; nia).
  simpl. unfold div, fmod.
  rewrite !bool_decide_eq_false_2 by lia. done.
Qed.

(** What [span_recovery] returns for one slot of one example: the cell
    [(i, j)] it selects is the first greatest cell of the slot's matrix in
    row-major order. *)
Lemma span_recovery_first_max scores B S T p st en b s :
  size scores = [B; S; T; T] → 0 < S → 0 < T →
  span_recovery scores S T = Ok (p, st, en) →
  b < B → s < S →
  ∃ i j, i < T ∧ j < T
    ∧ item st [b; s] = Z.of_nat i ∧ item en [b; s] = Z.of_nat j
    ∧ item p [b; s] = item scores [b; s; i; j]
    ∧ (∀ i' j', i' < T → j' < T →
         Rle (item scores [b; s; i'; j']) (item scores [b; s; i; j]))
    ∧ (∀ i' j', i' < T → j' < T → i' * T + j' < i * T + j →
         Rlt (item scores [b; s; i'; j']) (item scores [b; s; i; j])).
Proof.
  intros Hsz HS HT Hr Hb Hs. rewrite (span_recovery_ok scores B S T) in Hr by done.
  simplify_eq.
  assert (Hin : in_bounds [B; S] [b; s]) by (by repeat constructor).
  rewrite !item_tmap_build, !item_build by done.
  set (flat := mkTensor [B; S; T * T] (data scores)).
  assert (Hld : last_dim (size flat) = T * T) by done.
  destruct (list_argmax_is_Some (row flat [b; s])) as [[k v] Hkv].
  { intros Hnil. apply (f_equal length) in Hnil. rewrite row_length, Hld in Hnil.
    simpl in Hnil. nia. }
  rewrite Hkv. simpl.
  apply list_argmax_spec in Hkv as (Hk & Hmax & Hfirst).
  apply row_lookup_lt in Hk as [Hklt ->]. rewrite Hld in Hklt.
  assert (Hscores : ∀ k', item flat [b; s; k'] = item scores [b; s; k' / T; k' mod T]).
  { intros k'. unfold flat. rewrite item_flat_view. destruct scores; simpl in *.
    by subst. }
  destruct (quot_rem_of_nat k T) as [-> ->]; [lia|].
  exists (k / T), (k mod T).
  split; [apply Nat.Div0.div_lt_upper_bound; lia|].
  split; [apply Nat.mod_upper_bound; lia|].
  split; [done|]. split; [done|]. split; [apply Hscores|].
  assert (Hcell : ∀ i' j', j' < T →
            item scores [b; s; i'; j'] = item flat [b; s; i' * T + j']).
  { intros i' j' Hj'. rewrite Hscores. rewrite Nat.div_add_l, Nat.div_small by lia.
    rewrite (Nat.add_comm (i' * T) j'), Nat.Div0.mod_add, Nat.mod_small by lia.
    by rewrite Nat.add_0_r. }
  rewrite <- Hscores. split.
  - intros i' j' Hi' Hj'. rewrite Hcell by done. apply Hmax.
    apply list_elem_of_lookup. exists (i' * T + j').
    apply (row_lookup flat [b; s]). rewrite Hld. nia.
  - intros i' j' Hi' Hj' Hlt. rewrite Hcell by done.
    pose proof (Nat.div_mod_eq k T) as Hdm.
    apply (Hfirst (i' * T + j')); [nia|].
    apply (row_lookup flat [b; s]). rewrite Hld. nia.
Qed.

(** C5.  For a score tensor whose matrix for slot [s] of example [b] has a
    unique maximum at the flattened index [k], the decoded indices are
    [(k / T, k mod T)] and address the maximal cell: the entry at row
    [span_start_index] and column [span_end_index] is the maximum of the
    matrix, which is also the value returned as [max_span_p]. *)
Theorem span_recovery_roundtrip scores B S T b s k :
  size scores = [B; S; T; T] → 0 < S → 0 < T → b < B → s < S → k < T * T →
  (∀ k', k' < T * T → k' ≠ k →
     Rlt (item scores [b; s; k' / T; k' mod T]) (item scores [b; s; k / T; k mod T])) →
  ∃ p st en,
    span_recovery scores S T = Ok (p, st, en)
    ∧ item st [b; s] = Z.of_nat (k / T)
    ∧ item en [b; s] = Z.of_nat (k mod T)
    ∧ item scores [b; s; Z.to_nat (item st [b; s]); Z.to_nat (item en [b; s])]
      = item p [b; s]
    ∧ (∀ i j, i < T → j < T → Rle (item scores [b; s; i; j]) (item p [b; s])).
Proof.
  intros Hsz HS HT Hb Hs Hk Huniq.
  pose proof (span_recovery_ok scores B S T Hsz HS HT) as Hok.
  eexists _, _, _. split; [exact Hok|].
  destruct (span_recovery_first_max _ _ _ _ _ _ _ b s Hsz HS HT Hok Hb Hs)
    as (i & j & Hi & Hj & Hst & Hen & Hp & Hmax & Hfirst).
  assert (Hij : i * T + j = k).
  { destruct (decide (i * T + j = k)) as [|Hne]; [done|]. exfalso.
    assert (Hlt : i * T + j < T * T) by nia.
    pose proof (Huniq (i * T + j) Hlt Hne) as Hu.
    rewrite Nat.div_add_l, Nat.div_small in Hu by lia.
    rewrite (Nat.add_comm (i * T)), Nat.Div0.mod_add, Nat.mod_small in Hu by lia.
    rewrite Nat.add_0_r in Hu.
    assert (Hq : k / T < T) by (apply Nat.Div0.div_lt_upper_bound; lia).
    assert (Hr : k mod T < T) by (apply Nat.mod_upper_bound; lia).
    pose proof (Hmax (k / T) (k mod T) Hq Hr). lra. }
  assert (Hi' : k / T = i).
  { subst k. rewrite Nat.div_add_l, Nat.div_small by lia. lia. }
  assert (Hj' : k mod T = j).
  { subst k. rewrite (Nat.add_comm (i * T) j), Nat.Div0.mod_add, Nat.mod_small by lia. done. }
  rewrite Hst, Hen, Hi', Hj', !Nat2Z.id, Hp.
  repeat split; done.
Qed.


Lemma span_scores_spec ls le B N T :
  size ls = [B; N; T] → size le = [B; N; T] →
  ∃ total,
    span_scores ls le = Ok (total, (B, N, T))
    ∧ size total = [B; N; T; T]
    ∧ ∀ b s i j, b < B → s < N → i < T → j < T →
        item total [b; s; i; j]
        = if bool_decide (j < i) then 0%R
          else (item (softmax ls) [b; s; i] + item (softmax le) [b; s; j])%R.
Proof.
  intros Hls Hle. unfold span_scores.
  assert (Hsl : size (softmax ls) = [B; N; T]) by done.
  assert (Hse : size (softmax le) = [B; N; T]) by done.
  set (ss := softmax ls) in *. set (es := softmax le) in *.
  rewrite Hse.
  rewrite (unsqueeze_ok ss 3 3), bind_Ok by (unfold dim; by rewrite Hsl).
  rewrite (unsqueeze_ok es 2 2), bind_Ok by (unfold dim; by rewrite Hse).
  rewrite Hsl, Hse. cbn [take drop app].
  unfold add at 1.
  erewrite map2_ok.
  2:{ cbn [size]. instantiate (1 := [B; N; T; T]).
      unfold broadcast_shapes. simpl. repeat case_bool_decide; subst; simpl; done || lia. }
  rewrite bind_Ok. cbn [size].
  set (tot := build [B; N; T; T] _).
  rewrite arange_upto, bind_Ok by lia. rewrite Nat2Z.id.
  rewrite (view_unit_3 _ T), bind_Ok by done.
  rewrite (view_unit_4 _ T), bind_Ok by done.
  cbn [data].
  unfold gt.
  erewrite map2_ok.
  2:{ cbn [size]. instantiate (1 := [1; 1; T; T]).
      unfold broadcast_shapes. simpl. repeat case_bool_decide; subst; simpl; done || lia. }
  rewrite bind_Ok. cbn [size].
  set (g := build [1; 1; T; T] _).
  rewrite (repeat_same_rank g) by done. rewrite bind_Ok.
  change (size g) with [1; 1; T; T].
  cbn [zip_with]. rewrite !Nat.mul_1_l, !Nat.mul_1_r.
  set (mask := build [B; N; T; T] _).
  rewrite (where_same mask (zeros (size tot)) tot [B; N; T; T]) by done.
  rewrite bind_Ok.
  eexists. split; [done|]. split; [done|].
  intros b s i j Hb Hs Hi Hj.
  assert (Hin : in_bounds [B; N; T; T] [b; s; i; j]) by (by repeat constructor).
  rewrite item_build by done.
  rewrite !bidx_same by done.
  unfold mask, zeros, tot. rewrite !item_build by done.
  assert (Hmod : zip_with Nat.modulo [b; s; i; j] [1; 1; T; T] = [0; 0; i; j]).
  { cbn [zip_with]. by rewrite !Nat.mod_1_r, !Nat.mod_small by done. }
  rewrite Hmod. unfold g.
  rewrite item_build by (repeat constructor; lia).
  unfold bidx. cbn [length Nat.sub drop zip_with].
  rewrite !(clamp_unit _ _ Hb), !(clamp_unit _ _ Hs), !(clamp_unit _ _ Hi),
          !(clamp_unit _ _ Hj).
  rewrite !(bool_decide_eq_true_2 (1 = 1)) by done.
  assert (Hri : item (mkTensor [1; 1; T; 1] (Z.of_nat <$> seq 0 T)) [0; 0; i; 0]
                = Z.of_nat i).
  { rewrite <- (item_arange T i Hi). unfold item; simpl. f_equal; lia. }
  assert (Hrj : item (mkTensor [1; 1; 1; T] (Z.of_nat <$> seq 0 T)) [0; 0; 0; j]
                = Z.of_nat j).
  { rewrite <- (item_arange T j Hj). unfold item; simpl. f_equal; lia. }
  rewrite Hri, Hrj.
  assert (Hs3 : item (mkTensor [B; N; T; 1] (data ss)) [b; s; i; 0] = item ss [b; s; i]).
  { unfold item. rewrite Hsl. simpl. f_equal; lia. }
  assert (He2 : item (mkTensor [B; N; 1; T] (data es)) [b; s; 0; j] = item es [b; s; j]).
  { unfold item. rewrite Hse. simpl. f_equal; lia. }
  rewrite Hs3, He2.
  repeat case_bool_decide; done || lia.
Qed.


Lemma noncat_span_spec ls le B N T :
  size ls = [B; N; T] → size le = [B; N; T] → 0 < N → 0 < T →
  ∃ total p st en,
    span_scores ls le = Ok (total, (B, N, T))
    ∧ span_recovery total N T = Ok (p, st, en)
    ∧ noncat_span ls le = Ok (p, st, en, B)
    ∧ size p = [B; N] ∧ size st = [B; N] ∧ size en = [B; N] ∧ wf p
    ∧ ∀ b s, b < B → s < N →
        ∃ i j, i ≤ j < T
          ∧ item st [b; s] = Z.of_nat i ∧ item en [b; s] = Z.of_nat j
          ∧ item p [b; s]
            = (item (softmax ls) [b; s; i] + item (softmax le) [b; s; j])%R.
Proof.
  intros Hls Hle HN HT.
  destruct (span_scores_spec ls le B N T Hls Hle) as (total & Hsc & Hsz & Hitem).
  pose proof (span_recovery_ok total B N T Hsz HN HT) as Hrec.
  eexists total, _, _, _. split; [exact Hsc|]. split; [exact Hrec|].
  split; [unfold noncat_span; by rewrite Hsc, bind_Ok, Hrec|].
  do 3 (split; [done|]). split; [apply wf_build|].
  intros b s Hb Hs.
  destruct (span_recovery_first_max _ _ _ _ _ _ _ b s Hsz HN HT Hrec Hb Hs)
    as (i & j & Hi & Hj & Hst & Hen & Hp & Hmax & _).
  exists i, j. rewrite Hp, Hst, Hen.
  pose proof (Hmax 0 0 HT HT) as H00.
  rewrite !Hitem in H00 by done. rewrite Hitem by done.
  rewrite (bool_decide_eq_false_2 (0 < 0)) in H00 by lia.
  assert (Hb0 : in_bounds (size ls) [b; s; 0]) by (rewrite Hls; by repeat constructor).
  assert (He0 : in_bounds (size le) [b; s; 0]) by (rewrite Hle; by repeat constructor).
  pose proof (softmax_item_bounds ls _ Hb0).
  pose proof (softmax_item_bounds le _ He0).
  case_bool_decide; [lra|]. repeat split; done || lia.
Qed.

(** Reading the result of [decode]. *)
Lemma decode_inv example_id output predictions batch_size :
  decode example_id output = Ok (predictions, batch_size) →
  ∃ intent_status cat_slot_status cat_slot_status_p cat_slot_value cat_slot_value_p
    noncat_slot_status noncat_slot_status_p max_span_p span_start_index span_end_index,
    argmax (logit_intent_status output) = Ok intent_status
    ∧ argmax (logit_cat_slot_status output) = Ok cat_slot_status
    ∧ max_values (softmax (logit_cat_slot_status output)) = Ok cat_slot_status_p
    ∧ argmax (logit_cat_slot_value output) = Ok cat_slot_value
    ∧ max_values (softmax (logit_cat_slot_value output)) = Ok cat_slot_value_p
    ∧ argmax (logit_noncat_slot_status output) = Ok noncat_slot_status
    ∧ max_values (softmax (logit_noncat_slot_status output)) = Ok noncat_slot_status_p
    ∧ noncat_span (logit_noncat_slot_start output) (logit_noncat_slot_end output)
      = Ok (max_span_p, span_start_index, span_end_index, batch_size)
    ∧ dict_get "req_slot_status" predictions
      = Some (VFloat (Sigmoid (logit_req_slot_status output)))
    ∧ dict_get "cat_slot_status_p" predictions = Some (VFloat cat_slot_status_p)
    ∧ dict_get "cat_slot_value_p" predictions = Some (VFloat cat_slot_value_p)
    ∧ dict_get "noncat_slot_status_p" predictions = Some (VFloat noncat_slot_status_p)
    ∧ dict_get "noncat_slot_p" predictions = Some (VFloat max_span_p)
    ∧ dict_get "noncat_slot_start" predictions = Some (VInt span_start_index)
    ∧ dict_get "noncat_slot_end" predictions = Some (VInt span_end_index).
Proof.
  unfold decode. intros Hd.
  repeat match type of Hd with
         | (?m ≫= _) = Ok _ =>
             let E := fresh "E" in
             destruct m as [?|?] eqn:E; [rewrite bind_Ok in Hd|discriminate Hd]
         end.
  repeat match type of Hd with
         | (let '(_, _) := ?x in _) = _ => destruct x
         end.
  simplify_eq. eexists _, _, _, _, _, _, _, _, _, _.
  repeat split; done.
Qed.

(** C2.  For start and end logits of size [(B, N, T)], the decoded span of
    every slot of every example has [noncat_slot_start <= noncat_slot_end]:
    the span block returns, and the cell its flattened argmax selects never
    has a start index greater than its end index.  The same holds of the
    [noncat_slot_start] and [noncat_slot_end] entries of whatever
    [eval_iter_callback] decodes. *)
Theorem span_start_le_end example_id output B N T :
  size (logit_noncat_slot_start output) = [B; N; T] →
  size (logit_noncat_slot_end output) = [B; N; T] →
  0 < N → 0 < T →
  (∃ p st en,
     noncat_span (logit_noncat_slot_start output) (logit_noncat_slot_end output)
     = Ok (p, st, en, B)
     ∧ ∀ b s, b < B → s < N → (0 ≤ item st [b; s] ≤ item en [b; s])%Z ∧ (item en [b; s] < T)%Z)
  ∧ (∀ predictions batch_size,
       decode example_id output = Ok (predictions, batch_size) →
       ∃ st en,
         dict_get "noncat_slot_start" predictions = Some (VInt st)
         ∧ dict_get "noncat_slot_end" predictions = Some (VInt en)
         ∧ ∀ b s, b < B → s < N → (item st [b; s] ≤ item en [b; s])%Z).
Proof.
  intros Hls Hle HN HT.
  destruct (noncat_span_spec _ _ B N T Hls Hle HN HT)
    as (total & p & st & en & _ & _ & Hspan & _ & _ & _ & _ & Hcell).
  split.
  - exists p, st, en. split; [done|]. intros b s Hb Hs.
    destruct (Hcell b s Hb Hs) as (i & j & Hij & -> & -> & _). lia.
  - intros predictions batch_size Hd.
    apply decode_inv in Hd
      as (? & ? & ? & ? & ? & ? & ? & p' & st' & en' & _ & _ & _ & _ & _ & _ & _
          & Hspan' & _ & _ & _ & _ & _ & Hst & Hen).
    rewrite Hspan in Hspan'. simplify_eq.
    exists st', en'. do 2 (split; [done|]). intros b s Hb Hs.
    destruct (Hcell b s Hb Hs) as (i & j & Hij & -> & -> & _). lia.
Qed.


(** C4 (amended).  In every decoded record the confidences
    [cat_slot_status_p], [cat_slot_value_p] and [noncat_slot_status_p] are
    greatest softmax entries and lie in [(0, 1]]; the span confidence
    [noncat_slot_p] is the greatest sum of a start and an end probability
    with start index at most the end index, and lies in [(0, 2]]. *)
Theorem confidence_bounds example_id output B N T predictions batch_size :
  size (logit_noncat_slot_start output) = [B; N; T] →
  size (logit_noncat_slot_end output) = [B; N; T] →
  0 < N → 0 < T →
  decode example_id output = Ok (predictions, batch_size) →
  ∃ cat_slot_status_p cat_slot_value_p noncat_slot_status_p noncat_slot_p,
    dict_get "cat_slot_status_p" predictions = Some (VFloat cat_slot_status_p)
    ∧ dict_get "cat_slot_value_p" predictions = Some (VFloat cat_slot_value_p)
    ∧ dict_get "noncat_slot_status_p" predictions = Some (VFloat noncat_slot_status_p)
    ∧ dict_get "noncat_slot_p" predictions = Some (VFloat noncat_slot_p)
    ∧ Forall (λ x, 0 < x <= 1)%R (data cat_slot_status_p)
    ∧ Forall (λ x, 0 < x <= 1)%R (data cat_slot_value_p)
    ∧ Forall (λ x, 0 < x <= 1)%R (data noncat_slot_status_p)
    ∧ Forall (λ x, 0 < x <= 2)%R (data noncat_slot_p)
    ∧ size noncat_slot_p = [B; N]
    ∧ ∀ b s, b < B → s < N →
        ∃ i j, i ≤ j < T
          ∧ item noncat_slot_p [b; s]
            = (item (softmax (logit_noncat_slot_start output)) [b; s; i]
               + item (softmax (logit_noncat_slot_end output)) [b; s; j])%R.
Proof.
  intros Hls Hle HN HT Hd.
  apply decode_inv in Hd
    as (? & ? & csp & ? & cvp & ? & nsp & p & st & en & _ & _ & Hcsp & _ & Hcvp & _
        & Hnsp & Hspan & _ & ? & ? & ? & ? & _ & _).
  destruct (noncat_span_spec _ _ B N T Hls Hle HN HT)
    as (total & p' & st' & en' & _ & _ & Hspan' & Hsz & _ & _ & Hwf & Hcell).
  rewrite Hspan in Hspan'. simplify_eq.
  exists csp, cvp, nsp, p'. do 4 (split; [done|]).
  do 3 (split; [by eapply max_values_softmax_bounds|]).
  assert (Hcell' : ∀ b s, b < B → s < N →
            ∃ i j, i ≤ j < T
              ∧ item p' [b; s]
                = (item (softmax (logit_noncat_slot_start output)) [b; s; i]
                   + item (softmax (logit_noncat_slot_end output)) [b; s; j])%R).
  { intros b s Hb Hs. destruct (Hcell b s Hb Hs) as (i & j & Hij & _ & _ & Hp).
    eauto. }
  split; [|done].
  apply Forall_data_items; [done|]. rewrite Hsz. intros idx Hidx.
  apply in_bounds_cons in Hidx as (b & idx1 & -> & Hb & Hidx).
  apply in_bounds_cons in Hidx as (s & idx2 & -> & Hs & Hidx).
  apply in_bounds_nil in Hidx as ->.
  destruct (Hcell' b s Hb Hs) as (i & j & Hij & ->).
  assert (Hbi : in_bounds (size (logit_noncat_slot_start output)) [b; s; i])
    by (rewrite Hls; repeat constructor; lia).
  assert (Hbj : in_bounds (size (logit_noncat_slot_end output)) [b; s; j])
    by (rewrite Hle; repeat constructor; lia).
  pose proof (softmax_item_bounds _ _ Hbi). pose proof (softmax_item_bounds _ _ Hbj).
  lra.
Qed.


Lemma softmax_unit_logits : item (softmax unit_logits) [0; 0; 0] = 1%R.
Proof.
  unfold softmax. rewrite item_build by (repeat constructor; lia).
  unfold row, item, last_dim; simpl. rewrite exp_0. lra.
Qed.

Lemma decode_one_token_output example_id :
  ∃ predictions p,
    decode example_id one_token_output = Ok (predictions, 1)
    ∧ dict_get "noncat_slot_p" predictions = Some (VFloat p)
    ∧ item p [0; 0] = 2%R.
Proof.
  destruct (noncat_span_spec unit_logits unit_logits 1 1 1)
    as (total & p & st & en & _ & _ & Hspan & _ & _ & _ & _ & Hcell); try done; try lia.
  destruct (Hcell 0 0) as (i & j & Hij & _ & _ & Hp); try lia.
  assert (i = 0) as -> by lia. assert (j = 0) as -> by lia.
  rewrite softmax_unit_logits in Hp.
  eexists _, p. split; [|split; [|rewrite Hp; lra]].
  - unfold decode, argmax, max_values.
    rewrite !reduce_last_ok by done. rewrite !bind_Ok.
    simpl logit_noncat_slot_start. simpl logit_noncat_slot_end.
    rewrite Hspan, bind_Ok. reflexivity.
  - reflexivity.
Qed.

(** C4, as stated, fails: for one example with one slot and one token the
    start and the end probability are both [1], and the decoded span
    confidence [noncat_slot_p] is [2]. *)
Lemma span_confidence_exceeds_one :
  ∃ predictions p,
    decode ["dev-1_00000-00-Restaurants_1"] one_token_output = Ok (predictions, 1)
    ∧ dict_get "noncat_slot_p" predictions = Some (VFloat p)
    ∧ ¬ (0 <= item p [0%nat; 0%nat] <= 1)%R.
Proof.
  destruct (decode_one_token_output ["dev-1_00000-00-Restaurants_1"])
    as (predictions & p & Hd & Hp & Hv).
  exists predictions, p. do 2 (split; [done|]). rewrite Hv. lra.
Qed.

Lemma confidence_bounds_witness :
  ∃ noncat_slot_p, Forall (λ x, 0 < x <= 2)%R (data noncat_slot_p).
Proof.
  destruct (decode_one_token_output []) as (predictions & p & Hd & Hp & Hv).
  destruct (confidence_bounds [] one_token_output 1 1 1 predictions 1)
    as (_ & _ & _ & p' & _ & _ & _ & _ & _ & _ & _ & Hb & _);
    [reflexivity | reflexivity | lia | lia | exact Hd |].
  exists p'. exact Hb.
Defined.


(** *** Batch reassembly *)

Lemma for_range_store (n : nat) (k : string) (vals : nat → value)
    (body : nat → list (gmap string value) → result (list (gmap string value)))
    (rec : nat → gmap string value) :
  (∀ i ep, i < n → body i ep = set_item i k (vals i) ep) →
  for_range n body (rec <$> seq 0 n)
  = Ok ((λ i, <[k := vals i]> (rec i)) <$> seq 0 n).
Proof.
  intros Hbody. unfold for_range.
  assert (Hgen : ∀ m, m ≤ n →
    foldl (λ acc i, s' ← acc; body i s') (Ok (rec <$> seq 0 n)) (seq 0 m)
    = Ok ((λ i, if decide (i < m) then <[k := vals i]> (rec i) else rec i)
          <$> seq 0 n)).
  { induction m as [|m IH]; intros Hm.
    - simpl. apply (f_equal Ok). apply list_fmap_ext. intros ? i _.
      done.
    - rewrite seq_S, foldl_snoc, IH by lia. simpl.
      rewrite Hbody by lia. unfold set_item.
      rewrite list_lookup_fmap, lookup_seq_lt by lia. simpl.
      rewrite decide_False by lia. apply (f_equal Ok).
      apply list_eq. intros j.
      destruct (decide (j = m)) as [->|Hne].
      + rewrite list_lookup_insert_eq by (rewrite length_fmap, length_seq; lia).
        rewrite list_lookup_fmap, lookup_seq_lt by lia. simpl.
        by rewrite decide_True by lia.
      + rewrite list_lookup_insert_ne by done.
        rewrite !list_lookup_fmap. destruct (seq 0 n !! j) as [i|] eqn:Hj; [|done].
        apply lookup_seq in Hj as [-> _]. simpl.
        repeat case_decide; done || lia. }
  rewrite Hgen by done. apply (f_equal Ok). apply list_fmap_ext.
  intros ? i Hi%list_elem_of_lookup_2. apply elem_of_seq in Hi.
  simpl. case_decide; [done|lia].
Qed.

Lemma combine_column_ok (n : nat) (k : string) (v : value)
    (rec : nat → gmap string value) :
  0 < n → batched n (k, v) →
  combine_column n k v (rec <$> seq 0 n)
  = Ok ((λ i, <[k := slice_of v i]> (rec i)) <$> seq 0 n).
Proof.
  intros Hn Hv. unfold combine_column, batched in *. simpl in Hv.
  destruct v as [l|s|t|t]; [|done| |].
  - destruct Hv as [-> Hlen]. rewrite bool_decide_eq_false_2 by (intros H; by apply H).
    apply for_range_store. intros i ep Hi. unfold get_item.
    destruct (l !! i) as [x|] eqn:Hx.
    + rewrite bind_Ok. simpl. by rewrite (list_lookup_total_correct _ _ _ Hx).
    + apply lookup_ge_None in Hx. lia.
  - destruct Hv as (Hk & Hwf & Hsz). rewrite bool_decide_eq_true_2 by done.
    destruct (size t) as [|d rest] eqn:Hsize; [done|]. simpl in Hsz. injection Hsz as ->.
    rewrite (chunk_rows t n rest), bind_Ok by done.
    apply for_range_store. intros i ep Hi. unfold get_item.
    rewrite list_lookup_fmap, lookup_seq_lt by done.
    cbn [fmap option_fmap option_map]. rewrite bind_Ok.
    rewrite view_flat_narrow0, bind_Ok. by rewrite Nat.add_0_l.
  - destruct Hv as (Hk & Hwf & Hsz). rewrite bool_decide_eq_true_2 by done.
    destruct (size t) as [|d rest] eqn:Hsize; [done|]. simpl in Hsz. injection Hsz as ->.
    rewrite (chunk_rows t n rest), bind_Ok by done.
    apply for_range_store. intros i ep Hi. unfold get_item.
    rewrite list_lookup_fmap, lookup_seq_lt by done.
    cbn [fmap option_fmap option_map]. rewrite bind_Ok.
    rewrite view_flat_narrow0, bind_Ok. by rewrite Nat.add_0_l.
Qed.

Lemma combine_predictions_fold (n : nat) predictions (rec : nat → gmap string value) :
  0 < n → Forall (batched n) predictions →
  foldl (λ acc kv, examples_preds ← acc; combine_column n kv.1 kv.2 examples_preds)
        (Ok (rec <$> seq 0 n)) predictions
  = Ok ((λ i, record_of (rec i) predictions i) <$> seq 0 n).
Proof.
  intros Hn Hall. revert rec.
  induction Hall as [|[k v] predictions Hkv Hall IH]; intros rec; [done|].
  cbn [foldl]. rewrite bind_Ok. cbn [fst snd]. rewrite combine_column_ok by done.
  by rewrite IH.
Qed.

Lemma record_of_lookup d0 predictions i k :
  record_of d0 predictions i !! k
  = match dict_get k predictions with
    | Some v => Some (slice_of v i)
    | None => d0 !! k
    end.
Proof.
  revert d0. induction predictions as [|[k' v] predictions IH]; intros d0; [done|].
  unfold record_of in *. simpl. rewrite IH.
  destruct (dict_get k predictions); [done|].
  case_bool_decide; subst.
  - by rewrite lookup_insert_eq.
  - by rewrite lookup_insert_ne.
Qed.

(** Concatenating the slices of a tensor gives its entries back. *)
Lemma flat_slices_concat {A} (l : list A) (n r : nat) :
  length l = n * r →
  mjoin ((λ i, take r (drop (i * r) l)) <$> seq 0 n) = l.
Proof.
  revert l. induction n as [|n IH]; intros l Hlen.
  - by destruct l.
  - rewrite seq_S, fmap_app, join_app. simpl. rewrite app_nil_r.
    etrans; [|apply (take_drop (n * r) l)]. f_equal.
    + etrans; [|apply (IH (take (n * r) l)); rewrite length_take; lia].
      f_equal. apply list_fmap_ext. intros ? i Hi%list_elem_of_lookup_2.
      apply elem_of_seq in Hi.
      simpl. rewrite !take_drop_commute, take_take.
      do 2 f_equal. nia.
    + apply take_ge. rewrite length_drop. lia.
Qed.


Lemma dict_get_elem k predictions v :
  dict_get k predictions = Some v → (k, v) ∈ predictions.
Proof.
  induction predictions as [|[k' v'] predictions IH]; [done|]. simpl.
  destruct (dict_get k predictions).
  - intros [= ->]. apply list_elem_of_further. by apply IH.
  - case_bool_decide; [|done]. intros [= ->]. subst. apply list_elem_of_here.
Qed.

Lemma batched_numel {A} (t : tensor A) n :
  wf t → head (size t) = Some n → length (data t) = n * numel (tail (size t)).
Proof.
  unfold wf. intros -> Hhd. destruct (size t); simplify_eq/=. done.
Qed.

(** Entry [j] of slice [i] is entry [j] of row [i] of the batched tensor. *)
Lemma flat_slice_lookup {A} (t : tensor A) i j :
  j < numel (tail (size t)) →
  data (flat_slice t i) !! j = data t !! (i * numel (tail (size t)) + j).
Proof.
  intros Hj. unfold flat_slice; simpl. by rewrite lookup_take_lt, lookup_drop.
Qed.

(** Concatenating one-dimensional tensors along dimension 0. *)
Lemma cat_1d `{Inhabited A} (a b : tensor A) (m r : nat) :
  size a = [m] → size b = [r] → length (data a) = m → length (data b) = r →
  cat a b 0 = Ok (mkTensor [m + r] (data a ++ data b)).
Proof.
  intros Ha Hb Hla Hlb.
  rewrite (cat_ok a b 0 0);
    [|by unfold dim; rewrite Ha|by unfold dim; rewrite Ha, Hb|done|by rewrite Ha, Hb].
  f_equal. unfold build. rewrite Ha, Hb. cbn [lookup_total list_lookup_total insert list_insert].
  f_equal. apply list_eq. intros k. rewrite list_lookup_fmap.
  change (numel [m + r]) with ((m + r) * 1). rewrite Nat.mul_1_r.
  destruct (decide (k < m + r)) as [Hk|Hk].
  - rewrite lookup_seq_lt by done. cbn [fmap option_fmap option_map unravel numel foldr].
    rewrite Nat.div_1_r. cbn [Nat.add lookup_total list_lookup_total insert list_insert].
    unfold item. rewrite Ha, Hb. cbn [ravel numel foldr]. rewrite !Nat.mul_1_r, !Nat.add_0_r.
    case_bool_decide.
    + rewrite lookup_app_l by lia.
      rewrite list_lookup_total_alt.
      destruct (lookup_lt_is_Some_2 (data a) k ltac:(lia)) as [x ->]. done.
    + rewrite lookup_app_r by lia. rewrite Hla.
      rewrite list_lookup_total_alt.
      destruct (lookup_lt_is_Some_2 (data b) (k - m) ltac:(lia)) as [x ->]. done.
  - rewrite lookup_seq_ge by lia. symmetry. apply lookup_ge_None.
    rewrite length_app. simpl. lia.
Qed.

Lemma foldl_cat_slices `{Inhabited A} (l : list A) (r n k m : nat) (d0 : list A) :
  length d0 = m → (k + n) * r ≤ length l →
  foldl (λ acc x, a ← acc; cat a x 0) (Ok (mkTensor [m] d0))
        ((λ i, mkTensor [r] (take r (drop (i * r) l))) <$> seq k n)
  = Ok (mkTensor [m + n * r] (d0 ++ take (n * r) (drop (k * r) l))).
Proof.
  revert k m d0. induction n as [|n IH]; intros k m d0 Hd Hl.
  - simpl. by rewrite Nat.add_0_r, app_nil_r.
  - cbn [seq fmap list_fmap foldl]. rewrite bind_Ok.
    rewrite (cat_1d _ _ m r); [|done|done|done|].
    2:{ simpl. rewrite length_take, length_drop. nia. }
    cbn [data].
    rewrite (IH (S k) (m + r) (d0 ++ take r (drop (k * r) l))).
    2:{ rewrite length_app, length_take, length_drop. nia. }
    2:{ nia. }
    f_equal. f_equal; [f_equal; lia|].
    rewrite <- app_assoc. f_equal.
    replace (S n * r) with (r + n * r) by lia.
    rewrite <- take_take_drop. f_equal. rewrite drop_drop. do 2 f_equal. lia.
Qed.

(** [torch.cat] of the flattened slices of a batched tensor, in index
    order: the entries of the tensor, as one dimension. *)
Lemma cat_list_flat_slices `{Inhabited A} (t : tensor A) (n : nat) :
  0 < n → wf t → head (size t) = Some n →
  cat_list ((λ i, flat_slice t i) <$> seq 0 n)
  = Ok (mkTensor [numel (size t)] (data t)).
Proof.
  intros Hn Hwf Hhd. pose proof (batched_numel t n Hwf Hhd) as Hlen.
  assert (numel (size t) = n * numel (tail (size t))) as Hnum
    by (by rewrite <- Hlen).
  unfold flat_slice. set (r := numel (tail (size t))) in *.
  destruct n as [|n]; [lia|]. unfold cat_list.
  change (seq 0 (S n)) with (0 :: seq 1 n).
  set (slice := λ i, mkTensor [r] (take r (drop (i * r) (data t)))).
  rewrite fmap_cons. rewrite <- (fmap_cons slice).
  rewrite bool_decide_eq_false_2.
  2:{ rewrite Exists_fmap, Exists_exists. by intros (x & _ & Hx). }
  destruct (decide (r = 0)) as [Hr|Hr].
  - assert (∀ l : list nat, filter (λ t0 : tensor A, size t0 ≠ [0]) (slice <$> l) = [])
      as ->.
    { induction l as [|x l IH]; [done|]. rewrite fmap_cons, filter_cons, IH.
      destruct (decide _) as [Hx|]; [|done]. destruct Hx. simpl. by rewrite Hr. }
    rewrite Hnum, Hr, Nat.mul_0_r.
    do 2 f_equal. symmetry. apply length_zero_iff_nil. rewrite Hlen, Hr. lia.
  - assert (∀ l : list nat, filter (λ t0 : tensor A, size t0 ≠ [0]) (slice <$> l)
                           = slice <$> l) as ->.
    { induction l as [|x l IH]; [done|]. rewrite fmap_cons, filter_cons, IH.
      destruct (decide _) as [|Hx]; [done|]. destruct Hx. simpl. by intros [=]. }
    rewrite fmap_cons. unfold slice at 1.
    rewrite (foldl_cat_slices (data t) r n 1 r).
    2:{ simpl. rewrite length_take, length_drop, Hlen. nia. }
    2:{ rewrite Hlen. nia. }
    rewrite Hnum. apply (f_equal Ok). apply (f_equal2 mkTensor); [reflexivity|].
    simpl. rewrite Nat.add_0_r.
    etrans; [apply (take_take_drop (data t) r (n * r))|].
    apply take_ge. lia.
Qed.

(** The flattened tensor, viewed with the size of the tensor, and when the
    tensor has one dimension. *)
Lemma flat_view_back {A} (t : tensor A) :
  view (mkTensor [numel (size t)] (data t)) (Z.of_nat <$> size t) = Ok t.
Proof.
  rewrite view_of_size by (simpl; lia). by destruct t.
Qed.

Lemma flat_one_dimension {A} (t : tensor A) :
  dim t = 1 → mkTensor [numel (size t)] (data t) = t.
Proof.
  destruct t as [[|d [|? ?]] l]; unfold dim; simpl; try done. intros _.
  by rewrite Nat.mul_1_r.
Qed.

(** C8 (amended).  For every batch size [n >= 1] and every prediction dict
    whose batched values have [n] leading entries,
    [combine_predictions_in_example] returns exactly [n] records in example
    order: record [i] holds under each key the [i]-th slice of the batched
    value flattened to one dimension (the [i]-th string for [example_id]).
    Concatenating the slices of a tensor with [torch.cat], in index order,
    gives the tensor flattened to one dimension: its entries in order, which
    is the tensor itself when it has one dimension, and which viewed with
    the size of the tensor is the tensor. *)
Theorem combine_predictions_in_example_spec predictions n :
  0 < n → Forall (batched n) predictions →
  ∃ records,
    combine_predictions_in_example predictions n = Ok records
    ∧ length records = n
    ∧ (∀ i k v, i < n → dict_get k predictions = Some v →
         ∃ d, records !! i = Some d ∧ d !! k = Some (slice_of v i))
    ∧ (∀ k t, dict_get k predictions = Some (VInt t) →
         (∀ i j, i < n → j < numel (tail (size t)) →
            size (flat_slice t i) = [numel (tail (size t))]
            ∧ data (flat_slice t i) !! j = data t !! (i * numel (tail (size t)) + j))
         ∧ mjoin ((λ i, data (flat_slice t i)) <$> seq 0 n) = data t
         ∧ cat_list ((λ i, flat_slice t i) <$> seq 0 n)
           = Ok (mkTensor [numel (size t)] (data t))
         ∧ view (mkTensor [numel (size t)] (data t)) (Z.of_nat <$> size t) = Ok t
         ∧ (dim t = 1 → mkTensor [numel (size t)] (data t) = t))
    ∧ (∀ k t, dict_get k predictions = Some (VFloat t) →
         (∀ i j, i < n → j < numel (tail (size t)) →
            size (flat_slice t i) = [numel (tail (size t))]
            ∧ data (flat_slice t i) !! j = data t !! (i * numel (tail (size t)) + j))
         ∧ mjoin ((λ i, data (flat_slice t i)) <$> seq 0 n) = data t
         ∧ cat_list ((λ i, flat_slice t i) <$> seq 0 n)
           = Ok (mkTensor [numel (size t)] (data t))
         ∧ view (mkTensor [numel (size t)] (data t)) (Z.of_nat <$> size t) = Ok t
         ∧ (dim t = 1 → mkTensor [numel (size t)] (data t) = t)).
Proof.
  intros Hn Hall. unfold combine_predictions_in_example.
  assert (replicate n (∅ : gmap string value) = (λ _, ∅) <$> seq 0 n) as ->.
  { apply list_eq. intros i. rewrite list_lookup_fmap.
    destruct (decide (i < n)).
    - by rewrite lookup_replicate_2, lookup_seq_lt.
    - rewrite lookup_seq_ge by lia. apply lookup_replicate_None. lia. }
  rewrite (combine_predictions_fold n predictions (λ _, ∅)) by done.
  eexists. split; [done|]. split; [by rewrite length_fmap, length_seq|].
  split; [|split].
  - intros i k v Hi Hk. eexists. rewrite list_lookup_fmap, lookup_seq_lt by done.
    split; [done|]. by rewrite record_of_lookup, Hk.
  - intros k t Hk. split; [intros i j Hi Hj; split; [done|by apply flat_slice_lookup]|].
    apply dict_get_elem in Hk. rewrite Forall_forall in Hall.
    apply Hall in Hk as (_ & Hwf & Hhd).
    split; [apply flat_slices_concat; by apply batched_numel|].
    split; [by apply cat_list_flat_slices|].
    split; [apply flat_view_back|apply flat_one_dimension].
  - intros k t Hk. split; [intros i j Hi Hj; split; [done|by apply flat_slice_lookup]|].
    apply dict_get_elem in Hk. rewrite Forall_forall in Hall.
    apply Hall in Hk as (_ & Hwf & Hhd).
    split; [apply flat_slices_concat; by apply batched_numel|].
    split; [by apply cat_list_flat_slices|].
    split; [apply flat_view_back|apply flat_one_dimension].
Qed.

(** C8 as stated fails in two ways.  At [N = 0], [torch.chunk] rejects a
    chunk count of zero, so a dict with a tensor of zero leading entries is
    not split into zero records.  And for a tensor of more than one
    dimension the concatenation of the records' fields is not the original
    tensor: the two records of a tensor of size [(2, 3)] hold tensors of
    size [(3)], and their concatenation has size [(6)]. *)
Lemma combine_predictions_in_example_deviations :
  (Forall (batched 0) [("service_id", VInt (mkTensor [0] []))]
   ∧ combine_predictions_in_example [("service_id", VInt (mkTensor [0] []))] 0
     = Raise RuntimeError)
  ∧ (let t := mkTensor [2; 3] [0; 1; 2; 3; 4; 5]%Z in
     Forall (batched 2) [("noncat_slot_start", VInt t)]
     ∧ combine_predictions_in_example [("noncat_slot_start", VInt t)] 2
       = Ok [ {["noncat_slot_start" := VInt (mkTensor [3] [0; 1; 2]%Z)]};
              {["noncat_slot_start" := VInt (mkTensor [3] [3; 4; 5]%Z)]} ]
     ∧ cat_list [mkTensor [3] [0; 1; 2]%Z; mkTensor [3] [3; 4; 5]%Z]
       = Ok (mkTensor [6] [0; 1; 2; 3; 4; 5]%Z)
     ∧ mkTensor [6] [0; 1; 2; 3; 4; 5]%Z ≠ t).
Proof.
  split; [split; [|reflexivity]; repeat constructor; done|].
  split; [repeat constructor; done|].
  split; [vm_compute; reflexivity|].
  split; [vm_compute; reflexivity|]. intros [=].
Qed.

Lemma combine_predictions_in_example_spec_witness :
  ∃ records,
    combine_predictions_in_example
      [("example_id", VStrs ["a"; "b"]);
       ("intent_status", VInt (mkTensor [2] [1; 0]%Z));
       ("noncat_slot_start", VInt (mkTensor [2; 3] [0; 1; 2; 3; 4; 5]%Z))] 2
    = Ok records
    ∧ length records = 2.
Proof.
  destruct (combine_predictions_in_example_spec
              [("example_id", VStrs ["a"; "b"]);
               ("intent_status", VInt (mkTensor [2] [1; 0]%Z));
               ("noncat_slot_start", VInt (mkTensor [2; 3] [0; 1; 2; 3; 4; 5]%Z))] 2)
    as (records & Hr & Hlen & _).
  - lia.
  - repeat constructor; done.
  - exists records. by split.
Defined.


(** Concrete runs. *)

Lemma exp_5_gt_1 : (1 < exp 5)%R.
Proof. rewrite <- exp_0. apply exp_increasing. lra. Qed.

(** Without the mask the cell of [crossing_start] and [crossing_end] with
    the greatest sum of probabilities is (1, 0), whose start index exceeds
    its end index. *)
Lemma crossing_unmasked_best i j :
  i < 2 → j < 2 → (i, j) ≠ (1, 0) →
  (item (softmax crossing_start) [0%nat; 0%nat; i] + item (softmax crossing_end) [0%nat; 0%nat; j]
   < item (softmax crossing_start) [0%nat; 0%nat; 1%nat] + item (softmax crossing_end) [0%nat; 0%nat; 0%nat])%R.
Proof.
  intros Hi Hj Hne. pose proof exp_5_gt_1 as Hb.
  assert (Hq : (0 < / (1 + exp 5))%R) by (apply Rinv_0_lt_compat; lra).
  destruct i as [|[|i]], j as [|[|j]]; try lia; try done;
    unfold softmax; rewrite !item_build by (repeat constructor; lia);
    unfold row, item, last_dim, crossing_start, crossing_end; simpl;
    rewrite !exp_0; unfold Rdiv;
    replace (/ (1 + (exp 5 + 0)))%R with (/ (1 + exp 5))%R by (f_equal; lra);
    replace (/ (exp 5 + (1 + 0)))%R with (/ (1 + exp 5))%R by (f_equal; lra);
    nra.
Qed.

Lemma span_start_le_end_witness :
  (∀ i j, i < 2 → j < 2 → (i, j) ≠ (1, 0) →
     (item (softmax crossing_start) [0%nat; 0%nat; i] + item (softmax crossing_end) [0%nat; 0%nat; j]
      < item (softmax crossing_start) [0%nat; 0%nat; 1%nat] + item (softmax crossing_end) [0%nat; 0%nat; 0%nat])%R)
  ∧ ∃ p st en,
      noncat_span crossing_start crossing_end = Ok (p, st, en, 1)
      ∧ (0 ≤ item st [0%nat; 0%nat] ≤ item en [0%nat; 0%nat])%Z.
Proof.
  split; [exact crossing_unmasked_best|].
  destruct (span_start_le_end [] (two_token_output unit_logits) 1 1 2)
    as [(p & st & en & Hs & Hle) _];
    [reflexivity | reflexivity | lia | lia |].
  exists p, st, en. split; [exact Hs|]. apply (Hle 0 0); lia.
Defined.

Lemma span_recovery_roundtrip_witness :
  ∃ p st en,
    span_recovery two_token_scores 1 2 = Ok (p, st, en)
    ∧ item st [0; 0] = 0%Z ∧ item en [0; 0] = 1%Z.
Proof.
  destruct (span_recovery_roundtrip two_token_scores 1 1 2 0 0 1)
    as (p & st & en & Hr & Hst & Hen & _); try (reflexivity || lia).
  - intros k' Hk' Hne. unfold item, two_token_scores; simpl.
    destruct k' as [|[|[|[|k']]]]; try lia; simpl; lra.
  - exists p, st, en. by rewrite Hst, Hen.
Defined.

(** The records [eval_iter_callback] appends are those of the dict that
    [decode] builds. *)
Lemma eval_iter_callback_inv example_id output global_vars records :
  eval_iter_callback example_id output global_vars = Ok records →
  ∃ predictions batch_size new_records,
    decode example_id output = Ok (predictions, batch_size)
    ∧ combine_predictions_in_example predictions batch_size = Ok new_records
    ∧ records = default [] global_vars ++ new_records.
Proof.
  unfold eval_iter_callback.
  destruct (decode example_id output) as [[predictions batch_size]|]; [|done].
  rewrite bind_Ok.
  destruct (combine_predictions_in_example predictions batch_size) as [new|] eqn:Hc;
    [|done].
  rewrite bind_Ok. intros [= <-]. by exists predictions, batch_size, new.
Qed.

End callback_facts.

(** ** The scoring heads of the model *)

Module model_facts.
Import torch torch_facts sgd_model mask_facts.

Lemma Logits_forward_ok gelu init name nc D u e B N :
  size u = [B; D] → size e = [B; N; D] →
  ∃ scores,
    Logits_forward (Logits_init gelu init name nc D) u e = Ok scores
    ∧ size scores = [B; N; nc] ∧ wf scores.
Proof.
  intros Hu He. unfold Logits_forward. rewrite He.
  cbn [utterance_proj Logits_init activation layer1 layer2].
  rewrite Linear_forward_ok by (by rewrite Hu).
  rewrite bind_Ok, Hu. cbn [lead length Nat.sub take app].
  cbn [out_features in_features Linear_init].
  set (pu := tmap gelu _).
  rewrite (unsqueeze_ok pu 1 1), bind_Ok by done.
  change (size pu) with [B; D]. cbn [take drop app].
  rewrite repeat_same_rank, bind_Ok by done.
  cbn [size zip_with]. rewrite !Nat.mul_1_l, !Nat.mul_1_r.
  set (rep := build [B; N; D] _).
  rewrite (cat_ok rep e 2 2), bind_Ok; [|done|unfold dim; by rewrite He|by rewrite He|by rewrite He].
  rewrite He. change (size rep) with [B; N; D].
  change (<[2:=[B; N; D] !!! 2 + [B; N; D] !!! 2]> [B; N; D]) with [B; N; D + D].
  set (c := build [B; N; D + D] _).
  rewrite Linear_forward_ok, bind_Ok
    by (change (size c) with [B; N; D + D]; simpl; f_equal; lia).
  change (size c) with [B; N; D + D]. cbn [lead length Nat.sub take app out_features].
  set (h := tmap gelu _).
  rewrite Linear_forward_ok by done.
  change (size h) with [B; N; D]. cbn [lead length Nat.sub take app out_features].
  eexists. split; [done|]. split; [done|apply wf_build].
Qed.

Lemma get_categorical_slot_values_ok gelu init dt D max_cat max_noncat mode
    u cat_slot_emb emb n B S V :
  let self := SGDModel_init gelu init dt D max_cat max_noncat mode in
  size u = [B; D] → size emb = [B; S; V; D] → size n = [B; S] →
  0 < S → 0 < V → 0 < D →
  ∃ scores value_logits,
    Logits_forward (cat_slot_value_layer self) u (mkTensor [B; S * V; D] (data emb))
    = Ok scores
    ∧ size scores = [B; S * V; 1]
    ∧ _get_categorical_slot_values self u cat_slot_emb emb n = Ok value_logits
    ∧ size value_logits = [B; S; V]
    ∧ ∀ b s v, b < B → s < S → v < V →
        item value_logits [b; s; v]
        = if bool_decide (Z.of_nat v < item n [b; s])%Z
          then item scores [b; s * V + v; 0]
          else sentinel dt.
Proof.
  intros self Hu Hemb Hn HS HV HD.
  destruct (Logits_forward_ok gelu init "cat_slot_value_layer" 1 D u
              (mkTensor [B; S * V; D] (data emb)) B (S * V) Hu eq_refl)
    as (scores & Hsc & Hsz & Hwf).
  exists scores. eexists. split; [exact Hsc|]. split; [exact Hsz|].
  unfold _get_categorical_slot_values. rewrite Hemb.
  rewrite (view_infer_3 emb B (S * V) D), bind_Ok by (rewrite ?Hemb; simpl; nia).
  cbn [cat_slot_value_layer self SGDModel_init].
  rewrite Hsc, bind_Ok.
  rewrite (view_infer_3 scores B S V), bind_Ok by (rewrite ?Hsz; simpl; nia).
  cbn [param_dtype].
  rewrite get_mask_ok, bind_Ok by lia.
  cbn [size]. rewrite Hn, Nat2Z.id. cbn [app].
  set (mask := build [B; S; V] _).
  rewrite (where_same mask _ _ [B; S; V]) by done.
  split; [done|]. split; [done|].
  intros b s v Hb Hs Hv.
  assert (Hin : in_bounds [B; S; V] [b; s; v]) by (by repeat constructor).
  rewrite item_build, !bidx_same by done.
  rewrite item_smul_ones by done.
  assert (Hmask : item mask [b; s; v] = bool_decide (Z.of_nat v < item n [b; s])%Z).
  { pose proof (get_mask_ok dt scores V n ltac:(lia)) as Hok.
    rewrite Nat2Z.id, Hn in Hok.
    apply (get_mask_item _ _ _ _ _ _ [b; s] v Hok); [|lia].
    rewrite Hn. by repeat constructor. }
  fold mask. rewrite Hmask.
  assert (Hval : item (mkTensor [B; S; V] (data scores)) [b; s; v]
                 = item scores [b; s * V + v; 0]).
  { unfold item. rewrite Hsz. simpl. f_equal. nia. }
  by rewrite Hval.
Qed.


(** The scorer works element by element: the score of element [n] of
    example [b] is [element_scores] of the utterance vector of [b] and the
    embedding of that element alone. *)
Lemma Logits_forward_elementwise gelu init name nc D u e B N scores :
  size u = [B; D] → size e = [B; N; D] →
  Logits_forward (Logits_init gelu init name nc D) u e = Ok scores →
  ∀ b n c, b < B → n < N → c < nc →
    item scores [b; n; c]
    = element_scores (Logits_init gelu init name nc D) (row u [b]) (row e [b; n]) !!! c.
Proof.
  intros Hu He. unfold Logits_forward. rewrite He.
  cbn [utterance_proj Logits_init activation layer1 layer2].
  rewrite Linear_forward_ok by (by rewrite Hu).
  rewrite bind_Ok, Hu. cbn [lead length Nat.sub take app].
  set (lp := Linear_init init (name +:+ ".utterance_proj") D D).
  set (l1 := Linear_init init (name +:+ ".layer1") (2 * D) D).
  set (l2 := Linear_init init (name +:+ ".layer2") D nc).
  change (out_features lp) with D.
  set (P := build [B; D] _).
  set (pu := tmap gelu P).
  rewrite (unsqueeze_ok pu 1 1), bind_Ok by done.
  change (size pu) with [B; D]. cbn [take drop app].
  rewrite repeat_same_rank, bind_Ok by done.
  cbn [size zip_with]. rewrite !Nat.mul_1_l, !Nat.mul_1_r.
  set (rep := build [B; N; D] _).
  rewrite (cat_ok rep e 2 2), bind_Ok;
    [|done|unfold dim; by rewrite He|by rewrite He|by rewrite He].
  rewrite He. change (size rep) with [B; N; D].
  change (<[2:=[B; N; D] !!! 2 + [B; N; D] !!! 2]> [B; N; D]) with [B; N; D + D].
  change ([B; N; D] !!! 2) with D.
  set (c := build [B; N; D + D] _).
  rewrite Linear_forward_ok, bind_Ok
    by (change (size c) with [B; N; D + D]; simpl; f_equal; lia).
  change (size c) with [B; N; D + D]. cbn [lead length Nat.sub take app].
  change (out_features l1) with D. change (in_features l1) with (2 * D).
  set (L1 := build [B; N; D] _).
  set (h := tmap gelu L1).
  rewrite Linear_forward_ok by done.
  change (size h) with [B; N; D]. cbn [lead length Nat.sub take app].
  change (out_features l2) with nc. change (in_features l2) with D.
  intros [= <-] b n k Hb Hn Hk.
  (* the projected utterance *)
  assert (HP : ∀ j, j < D →
            item pu [b; j] = (gelu <$> Linear_row lp (row u [b])) !!! j).
  { intros j Hj. unfold pu, P. rewrite item_tmap_build by (by repeat constructor).
    apply eq_sym, list_lookup_total_correct.
    rewrite list_lookup_fmap. unfold Linear_row.
    rewrite list_lookup_fmap, lookup_seq_lt by done. simpl. do 3 f_equal.
    apply sum_list_R_ext. intros i Hi. f_equal.
    apply list_lookup_total_correct, row_lookup.
    rewrite Hu. by unfold last_dim. }
  (* the concatenated features *)
  assert (Hc : ∀ j, j < 2 * D →
            item c [b; n; j]
            = ((gelu <$> Linear_row lp (row u [b])) ++ row e [b; n]) !!! j).
  { intros j Hj. unfold c. rewrite item_build by (repeat constructor; lia).
    change ([b; n; j] !!! 2) with j. cbn zeta.
    assert (Hlen : length (gelu <$> Linear_row lp (row u [b])) = D).
    { unfold Linear_row. by rewrite !length_fmap, length_seq. }
    case_bool_decide as Hjd.
    - rewrite lookup_total_app_l by lia. rewrite <- HP by done.
      unfold rep. rewrite item_build by (by repeat constructor).
      cbn [zip_with]. rewrite Nat.mod_1_r, !Nat.mod_small by done.
      unfold item. simpl. f_equal. lia.
    - rewrite lookup_total_app_r by lia. rewrite Hlen.
      change (<[2:=j - D]> [b; n; j]) with [b; n; j - D].
      apply eq_sym, list_lookup_total_correct. apply (row_lookup e [b; n]).
      rewrite He. unfold last_dim; simpl. lia. }
  (* the hidden layer *)
  assert (Hh : ∀ i, i < D →
            item h [b; n; i]
            = (gelu <$> Linear_row l1
                 ((gelu <$> Linear_row lp (row u [b])) ++ row e [b; n])) !!! i).
  { intros i Hi. unfold h, L1. rewrite item_tmap_build by (by repeat constructor).
    apply eq_sym, list_lookup_total_correct.
    rewrite list_lookup_fmap. unfold Linear_row at 1.
    rewrite list_lookup_fmap, lookup_seq_lt by done. simpl. do 3 f_equal.
    apply sum_list_R_ext. intros j Hj. f_equal. symmetry. apply Hc. lia. }
  rewrite item_build by (by repeat constructor). cbn zeta.
  change (default 0 (last [b; n; k])) with k. change (lead [b; n; k]) with [b; n].
  unfold element_scores. cbn [utterance_proj Logits_init activation layer1 layer2].
  fold lp l1 l2. apply eq_sym, list_lookup_total_correct.
  unfold Linear_row at 1. rewrite list_lookup_fmap, lookup_seq_lt by done. simpl.
  do 2 f_equal. apply sum_list_R_ext. intros i Hi. f_equal. symmetry. by apply Hh.
Qed.


Lemma row_flat_values (emb : tensor R) B S V D b s v :
  size emb = [B; S; V; D] → v < V →
  row (mkTensor [B; S * V; D] (data emb)) [b; s * V + v] = row emb [b; s; v].
Proof.
  intros Hemb Hv. unfold row. rewrite Hemb. cbn [size].
  change (last_dim [B; S * V; D]) with D. change (last_dim [B; S; V; D]) with D.
  apply list_fmap_ext. intros ? j _. unfold item. rewrite Hemb. simpl.
  f_equal. nia.
Qed.

(** C6.  For value embeddings of size [(B, S, V, D)] and per-slot counts of
    size [(B, S)], [_get_categorical_slot_values] returns logits of size
    [(B, S, V)] whose entry [(b, s, v)] is the Element-Scorer score of the
    pair of slot [s] and value [v] for the utterance of example [b] when
    [v < num_categorical_slot_values[b, s]], and the negative sentinel
    otherwise; when the count of a slot is [0], all its value logits are the
    sentinel. *)
Theorem get_categorical_slot_values_spec gelu init dt D max_cat max_noncat mode
    u cat_slot_emb emb n B S V :
  let self := SGDModel_init gelu init dt D max_cat max_noncat mode in
  size u = [B; D] → size emb = [B; S; V; D] → size n = [B; S] →
  0 < S → 0 < V → 0 < D →
  ∃ value_logits,
    _get_categorical_slot_values self u cat_slot_emb emb n = Ok value_logits
    ∧ size value_logits = [B; S; V]
    ∧ ∀ b s v, b < B → s < S → v < V →
        item value_logits [b; s; v]
        = (if bool_decide (Z.of_nat v < item n [b; s])%Z
           then element_scores (cat_slot_value_layer self) (row u [b]) (row emb [b; s; v])
                !!! 0
           else sentinel dt)
        ∧ (item n [b; s] = 0%Z → item value_logits [b; s; v] = sentinel dt).
Proof.
  intros self Hu Hemb Hn HS HV HD.
  destruct (get_categorical_slot_values_ok gelu init dt D max_cat max_noncat mode
              u cat_slot_emb emb n B S V Hu Hemb Hn HS HV HD)
    as (scores & value_logits & Hsc & Hsz & Hok & Hvsz & Hitem).
  exists value_logits. split; [exact Hok|]. split; [exact Hvsz|].
  intros b s v Hb Hs Hv. rewrite (Hitem b s v Hb Hs Hv).
  rewrite (Logits_forward_elementwise gelu init "cat_slot_value_layer" 1 D u
             (mkTensor [B; S * V; D] (data emb)) B (S * V)
             scores Hu eq_refl Hsc b (s * V + v) 0 Hb) by nia.
  rewrite (row_flat_values emb B S V D b s v Hemb Hv).
  split; [done|]. intros ->. by rewrite bool_decide_eq_false_2 by lia.
Qed.

Lemma get_categorical_slot_values_spec_witness :
  ∃ value_logits,
    _get_categorical_slot_values
      (SGDModel_init (λ x, x) (λ _ _, 0%R) float32 1 2 1 "cls_token")
      (mkTensor [1; 1] [1%R]) (mkTensor [1; 2; 1] [0%R; 0%R])
      (mkTensor [1; 2; 3; 1] [1; 2; 3; 0; 0; 0]%R) (mkTensor [1; 2] [3; 0]%Z)
    = Ok value_logits
    ∧ item value_logits [0; 1; 0] = sentinel float32
    ∧ item value_logits [0; 1; 1] = sentinel float32
    ∧ item value_logits [0; 1; 2] = sentinel float32.
Proof.
  destruct (get_categorical_slot_values_spec
              (λ x, x) (λ _ _, 0%R) float32 1 2 1 "cls_token"
              (mkTensor [1; 1] [1%R]) (mkTensor [1; 2; 1] [0%R; 0%R])
              (mkTensor [1; 2; 3; 1] [1; 2; 3; 0; 0; 0]%R) (mkTensor [1; 2] [3; 0]%Z)
              1 2 3)
    as (value_logits & Hok & _ & Hitem); try (reflexivity || lia).
  exists value_logits. split; [exact Hok|].
  repeat split; apply Hitem; reflexivity || lia.
Defined.


(** *** Slot status *)

(** C3.  In the modes [special_tokens_single] and [special_tokens_double]
    [_get_slots_status] returns no logits at all, whatever its inputs:
    [__init__] makes [cat_slot_status_layer] a [LogitsNew], whose [forward]
    takes a weight matrix as third argument, and both branches call it with
    two arguments, which raises [TypeError] (or [IndexError] before that,
    when there is no token position to select). *)
Theorem slots_status_special_tokens_raise gelu init dt D max_cat max_noncat
    cat_slot_emb noncat_slot_emb token_embeddings encoded_utterance
    cat_slot_emb_weights noncat_slot_emb_weights :
  (∃ e, _get_slots_status
          (SGDModel_init gelu init dt D max_cat max_noncat "special_tokens_single")
          cat_slot_emb noncat_slot_emb token_embeddings encoded_utterance
          cat_slot_emb_weights noncat_slot_emb_weights = Raise e
        ∧ (e = TypeError ∨ e = IndexError))
  ∧ (∃ e, _get_slots_status
            (SGDModel_init gelu init dt D max_cat max_noncat "special_tokens_double")
            cat_slot_emb noncat_slot_emb token_embeddings encoded_utterance
            cat_slot_emb_weights noncat_slot_emb_weights = Raise e
          ∧ (e = TypeError ∨ e = IndexError)).
Proof.
  split.
  - unfold _get_slots_status. cbn [_slots_status_model SGDModel_init].
    rewrite (bool_decide_eq_false_2 (_ = "cls_token")) by done.
    rewrite (bool_decide_eq_true_2 (_ = "special_tokens_single")) by done.
    cbn [cat_slot_status_layer SGDModel_init].
    rewrite (bool_decide_eq_false_2 (_ = "special_tokens_multi")) by done.
    rewrite bool_decide_eq_true_2 by set_solver.
    cbn [attr]. rewrite bind_Ok.
    destruct (select_cases token_embeddings 1 (-1)) as [[x ->]| ->].
    + rewrite bind_Ok. eexists. split; [reflexivity|by left].
    + eexists. split; [reflexivity|by right].
  - unfold _get_slots_status. cbn [_slots_status_model SGDModel_init].
    rewrite (bool_decide_eq_false_2 (_ = "cls_token")) by done.
    rewrite (bool_decide_eq_false_2 (_ = "special_tokens_single")) by done.
    rewrite (bool_decide_eq_true_2 (_ = "special_tokens_double")) by done.
    cbn [cat_slot_status_layer SGDModel_init].
    rewrite (bool_decide_eq_false_2 (_ = "special_tokens_multi")) by done.
    rewrite bool_decide_eq_true_2 by set_solver.
    cbn [attr]. rewrite bind_Ok.
    destruct (select_cases token_embeddings 1 (-2)) as [[x ->]| ->].
    + rewrite bind_Ok. eexists. split; [reflexivity|by left].
    + eexists. split; [reflexivity|by right].
Qed.


Lemma LogitsNew_forward_ok gelu init name nc D u e w B N :
  size u = [B; D] → size e = [B; N; D] → size w = [B; N; 2 * D; nc] →
  ∃ scores,
    LogitsNew_forward (LogitsNew_init gelu init name nc D) u e w = Ok scores
    ∧ size scores = [B; N; nc].
Proof.
  intros Hu He Hw. unfold LogitsNew_forward. rewrite He.
  cbn [new_utterance_proj LogitsNew_init new_activation new_num_classes].
  rewrite Linear_forward_ok by (by rewrite Hu).
  rewrite bind_Ok, Hu. cbn [lead length Nat.sub take app].
  cbn [out_features in_features Linear_init].
  set (pu := tmap gelu _).
  rewrite (unsqueeze_ok pu 1 1), bind_Ok by done.
  change (size pu) with [B; D]. cbn [take drop app].
  rewrite repeat_same_rank, bind_Ok by done.
  cbn [size zip_with]. rewrite !Nat.mul_1_l, !Nat.mul_1_r.
  set (rep := build [B; N; D] _).
  rewrite (cat_ok rep e 2 2), bind_Ok;
    [|done|unfold dim; by rewrite He|by rewrite He|by rewrite He].
  rewrite He. change (size rep) with [B; N; D].
  change (<[2:=[B; N; D] !!! 2 + [B; N; D] !!! 2]> [B; N; D]) with [B; N; D + D].
  set (c := build [B; N; D + D] _).
  rewrite unsqueeze_last, bind_Ok.
  change (size c) with [B; N; D + D]. cbn [app].
  rewrite repeat_same_rank, bind_Ok by done.
  cbn [size zip_with]. rewrite !Nat.mul_1_l, !Nat.mul_1_r.
  set (c4 := build [B; N; D + D; nc] _).
  unfold mul. rewrite (map2_ok _ c4 w [B; N; D + D; nc]), bind_Ok.
  2:{ rewrite Hw. replace (2 * D) with (D + D) by lia. apply broadcast_shapes_same. }
  unfold sum, dim. rewrite size_build. change (-2)%Z with (- (2%nat))%Z.
  rewrite norm_dim_neg, bind_Ok by (simpl; lia).
  eexists. split; [done|]. done.
Qed.

Lemma slots_status_cls_token_ok gelu init dt D max_cat max_noncat
    cat_slot_emb noncat_slot_emb token_embeddings encoded_utterance
    cat_slot_emb_weights noncat_slot_emb_weights B :
  size encoded_utterance = [B; D] →
  size cat_slot_emb = [B; max_cat; D] →
  size noncat_slot_emb = [B; max_noncat; D] →
  size cat_slot_emb_weights = [B; max_cat; 2 * D; 3] →
  ∃ logit_cat_slot_status logit_noncat_slot_status,
    _get_slots_status (SGDModel_init gelu init dt D max_cat max_noncat "cls_token")
      cat_slot_emb noncat_slot_emb token_embeddings encoded_utterance
      cat_slot_emb_weights noncat_slot_emb_weights
    = Ok (logit_cat_slot_status, logit_noncat_slot_status)
    ∧ size logit_cat_slot_status = [B; max_cat; 3]
    ∧ size logit_noncat_slot_status = [B; max_noncat; 3].
Proof.
  intros Hu Hc Hn Hw. unfold _get_slots_status.
  cbn [_slots_status_model SGDModel_init].
  rewrite (bool_decide_eq_true_2 (_ = "cls_token")) by done.
  cbn [cat_slot_status_layer noncat_slot_status_layer SGDModel_init].
  rewrite (bool_decide_eq_false_2 (_ = "special_tokens_multi")) by done.
  rewrite bool_decide_eq_true_2 by set_solver.
  cbn [attr]. rewrite bind_Ok.
  change (call (LogitsNewM ?l) [?a; ?b; ?c]) with (LogitsNew_forward l a b c).
  destruct (LogitsNew_forward_ok gelu init "cat_slot_status_layer" 3 D
              encoded_utterance cat_slot_emb cat_slot_emb_weights B max_cat Hu Hc Hw)
    as (lc & -> & Hlc).
  rewrite !bind_Ok.
  change (call (LogitsM ?l) [?a; ?b]) with (Logits_forward l a b).
  destruct (Logits_forward_ok gelu init "noncat_slot_status_layer" 3 D
              encoded_utterance noncat_slot_emb B max_noncat Hu Hn)
    as (ln & -> & Hln & _).
  rewrite bind_Ok. eauto.
Qed.


Lemma slice_size `{Inhabited A} (t : tensor A) (d : Z) (p : nat) start stop :
  norm_dim (dim t) d = Ok p →
  ∃ y, slice t d start stop = Ok y
       ∧ size y = <[p := from_option (clamp_bound (size t !!! p)) (size t !!! p) stop
                         - from_option (clamp_bound (size t !!! p)) 0 start]> (size t).
Proof. intros Hp. unfold slice. rewrite Hp, bind_Ok. eauto. Qed.

Lemma slots_status_special_tokens_multi_ok gelu init dt D max_cat max_noncat
    cat_slot_emb noncat_slot_emb token_embeddings encoded_utterance
    cat_slot_emb_weights noncat_slot_emb_weights B T :
  size token_embeddings = [B; T; D] →
  size cat_slot_emb = [B; max_cat; D] →
  size noncat_slot_emb = [B; max_noncat; D] →
  0 < max_cat + max_noncat ≤ T →
  ∃ logit_cat_slot_status logit_noncat_slot_status,
    _get_slots_status
      (SGDModel_init gelu init dt D max_cat max_noncat "special_tokens_multi")
      cat_slot_emb noncat_slot_emb token_embeddings encoded_utterance
      cat_slot_emb_weights noncat_slot_emb_weights
    = Ok (logit_cat_slot_status, logit_noncat_slot_status)
    ∧ size logit_cat_slot_status = [B; max_cat; 3]
    ∧ size logit_noncat_slot_status = [B; max_noncat; 3].
Proof.
  intros Ht Hc Hn HT. unfold _get_slots_status.
  cbn [_slots_status_model SGDModel_init MAX_NUM_CAT_SLOT MAX_NUM_NONCAT_SLOT].
  rewrite (bool_decide_eq_false_2 (_ = "cls_token")) by done.
  rewrite (bool_decide_eq_false_2 (_ = "special_tokens_single")) by done.
  rewrite (bool_decide_eq_false_2 (_ = "special_tokens_double")) by done.
  rewrite (bool_decide_eq_true_2 (_ = "special_tokens_multi")) by done.
  cbn [slot_status_token_layer1 slot_status_token_layer2 slot_status_token_activation
       SGDModel_init].
  rewrite !(bool_decide_eq_true_2 (_ = "special_tokens_multi")) by done.
  cbn [attr].
  destruct (slice_size token_embeddings 1 1
              (Some (- Z.of_nat (max_cat + max_noncat))%Z) None)
    as (ts & -> & Hts); [unfold dim; by rewrite Ht|].
  rewrite bind_Ok. rewrite Ht in Hts. cbn [from_option] in Hts.
  change ([B; T; D] !!! 1) with T in Hts.
  assert (Hlo : clamp_bound T (- Z.of_nat (max_cat + max_noncat))
                = T - (max_cat + max_noncat)).
  { unfold clamp_bound. rewrite bool_decide_eq_true_2 by lia. lia. }
  rewrite Hlo in Hts.
  replace (T - (T - (max_cat + max_noncat))) with (max_cat + max_noncat) in Hts by lia.
  change (<[1:=max_cat + max_noncat]> [B; T; D]) with [B; max_cat + max_noncat; D] in Hts.
  rewrite (cat_ok cat_slot_emb noncat_slot_emb 1 1), bind_Ok;
    [|unfold dim; by rewrite Hc|unfold dim; by rewrite Hc, Hn
     |by rewrite Hc, Hn|by rewrite Hc, Hn].
  rewrite Hc, Hn.
  change (<[1:=[B; max_cat; D] !!! 1 + [B; max_noncat; D] !!! 1]> [B; max_cat; D])
    with [B; max_cat + max_noncat; D].
  set (all_slot_emb := build [B; max_cat + max_noncat; D] _).
  rewrite (cat_ok ts all_slot_emb (-1) 2), bind_Ok;
    [|unfold dim; by rewrite Hts|unfold dim; by rewrite Hts
     |by rewrite Hts|by rewrite Hts].
  rewrite Hts. change (size all_slot_emb) with [B; max_cat + max_noncat; D].
  change (<[2:=[B; max_cat + max_noncat; D] !!! 2 + [B; max_cat + max_noncat; D] !!! 2]>
            [B; max_cat + max_noncat; D])
    with [B; max_cat + max_noncat; D + D].
  set (ste := build [B; max_cat + max_noncat; D + D] _).
  rewrite bind_Ok.
  rewrite Linear_forward_ok, bind_Ok
    by (change (size ste) with [B; max_cat + max_noncat; D + D]; simpl; f_equal; lia).
  change (size ste) with [B; max_cat + max_noncat; D + D].
  cbn [lead length Nat.sub take app out_features Linear_init].
  rewrite !bind_Ok.
  set (h := tmap gelu _).
  rewrite Linear_forward_ok, bind_Ok by done.
  change (size h) with [B; max_cat + max_noncat; D].
  cbn [lead length Nat.sub take app out_features Linear_init].
  set (l := build [B; max_cat + max_noncat; 3] _).
  destruct (slice_size l 1 1 None (Some (Z.of_nat max_cat))) as (lc & -> & Hlc); [done|].
  rewrite bind_Ok.
  destruct (slice_size l 1 1 (Some (Z.of_nat max_cat)) None) as (ln & -> & Hln); [done|].
  rewrite bind_Ok.
  exists lc, ln. split; [done|].
  change (size l) with [B; max_cat + max_noncat; 3] in Hlc, Hln.
  cbn [from_option] in Hlc, Hln.
  change ([B; max_cat + max_noncat; 3] !!! 1) with (max_cat + max_noncat) in Hlc, Hln.
  assert (Hcl : clamp_bound (max_cat + max_noncat) (Z.of_nat max_cat) = max_cat).
  { unfold clamp_bound. rewrite bool_decide_eq_false_2 by lia. lia. }
  rewrite Hcl in Hlc, Hln. rewrite Hlc, Hln. split.
  - simpl. do 2 f_equal. lia.
  - simpl. do 2 f_equal. lia.
Qed.


(** A well-shaped call in the mode [special_tokens_single]: one example,
    three tokens, embedding dimension two, one slot of each family. *)
Example slots_status_single_TypeError :
  _get_slots_status
    (SGDModel_init (λ x, x) (λ _ _, 0%R) float32 2 1 1 "special_tokens_single")
    (mkTensor [1; 1; 2] [1; 2]%R) (mkTensor [1; 1; 2] [3; 4]%R)
    (mkTensor [1; 3; 2] [1; 2; 3; 4; 5; 6]%R) (mkTensor [1; 2] [1; 2]%R)
    (build [1; 1; 4; 3] (λ _, 0%R)) (build [1; 1; 4; 3] (λ _, 0%R))
  = Raise TypeError.
Proof. reflexivity. Qed.

Example slots_status_double_TypeError :
  _get_slots_status
    (SGDModel_init (λ x, x) (λ _ _, 0%R) float32 2 1 1 "special_tokens_double")
    (mkTensor [1; 1; 2] [1; 2]%R) (mkTensor [1; 1; 2] [3; 4]%R)
    (mkTensor [1; 3; 2] [1; 2; 3; 4; 5; 6]%R) (mkTensor [1; 2] [1; 2]%R)
    (build [1; 1; 4; 3] (λ _, 0%R)) (build [1; 1; 4; 3] (λ _, 0%R))
  = Raise TypeError.
Proof. reflexivity. Qed.

End model_facts.

(** ** The BERT constructor *)

Module bert_facts.
Import bert_nm.

Lemma total_num_not_None pn cf vs : total pn cf vs = num_not_None pn cf vs.
Proof. by destruct pn, cf, vs. Qed.

Lemma dispatch_total_one pn cf vs : total pn cf vs = 1 → dispatch pn cf vs ≠ FinalElse.
Proof. by destruct pn, cf, vs. Qed.

(** Every run of the constructor, by the results of the calls it makes. *)
Ltac call_cases :=
  repeat match goal with
         | |- context [match ?r with Ok _ => _ | Raise _ => _ end] =>
             lazymatch r with
             | context [match _ with Ok _ => _ | Raise _ => _ end] => fail
             | _ => let E := fresh "Hcall" in destruct r as [?|?] eqn:E; simpl
             end
         end.

Ltac run_cases pn cf vs :=
  unfold BERT_init, external, raise;
  destruct pn as [name|], cf as [file|], vs as [v|];
  cbn [total dispatch bool_decide decide_rel]; simpl;
  unfold mbind, run_bind; simpl; call_cases.

Ltac pick_call :=
  first [ solve [eauto 10] | left; solve [eauto 10] | right; pick_call ].

Section constructor.
Context {BertConfig BertModel hparams : Type}.
Variable super_init : result ().
Variable BertConfig_new : Z → hparams → result BertConfig.
Variable BertConfig_from_json_file : string → result BertConfig.
Variable BertModel_new : BertConfig → result BertModel.
Variable BertModel_from_pretrained : string → result BertModel.
Variable model_to : BertModel → result ().
Variable add_module : string → BertModel → result ().
Variable model_config : BertModel → BertConfig.
Variable config_hidden_size : BertConfig → nat.

Abbreviation BERT_init :=
  (BERT_init super_init BertConfig_new BertConfig_from_json_file BertModel_new
             BertModel_from_pretrained model_to add_module
             model_config config_hidden_size).
Abbreviation raised_by_call :=
  (raised_by_call super_init BertConfig_new BertConfig_from_json_file BertModel_new
                  BertModel_from_pretrained model_to add_module).

Lemma BERT_init_super_raises pn cf vs hp e :
  super_init = Raise e → BERT_init pn cf vs hp = Run [SuperInit] (Raise e).
Proof.
  intros He. unfold bert_nm.BERT_init, external, mbind, run_bind; simpl.
  by rewrite He.
Qed.

Lemma BERT_init_rejected pn cf vs hp :
  super_init = Ok () → total pn cf vs ≠ 1 →
  BERT_init pn cf vs hp = Run [SuperInit] (Raise (ValueError only_one_msg)).
Proof.
  intros Hs Hne. unfold bert_nm.BERT_init, external, mbind, run_bind; simpl.
  rewrite Hs. by rewrite bool_decide_eq_true_2 by done.
Qed.

Lemma BERT_init_rejected_log pn cf vs hp :
  total pn cf vs ≠ 1 →
  log (BERT_init pn cf vs hp) = [SuperInit]
  ∧ ∃ e, outcome (BERT_init pn cf vs hp) = Raise e.
Proof.
  intros Hne.
  assert (super_init = Ok () ∨ ∃ e, super_init = Raise e) as [Hs|[e Hs]]
    by (destruct super_init as [[]|e]; eauto).
  - rewrite BERT_init_rejected by done. split; [done|by eexists].
  - rewrite (BERT_init_super_raises _ _ _ _ e) by done. split; [done|by eexists].
Qed.

(** When the check passes and [super().__init__()] has returned, the run
    goes on to a call of the library. *)
Lemma BERT_init_accepted_log pn cf vs hp :
  super_init = Ok () → total pn cf vs = 1 →
  ∃ ev evs, log (BERT_init pn cf vs hp) = SuperInit :: ev :: evs.
Proof.
  intros Hs Hone. unfold bert_nm.BERT_init, external, raise.
  destruct pn as [name|], cf as [file|], vs as [v|]; try discriminate Hone;
    cbn [total dispatch bool_decide decide_rel]; simpl;
    unfold mbind, run_bind; simpl; rewrite Hs; simpl; call_cases; by eexists _, _.
Qed.

(** When the check passes, whatever the constructor raises is raised by one
    of its calls. *)
Lemma BERT_init_accepted_raise pn cf vs hp e :
  total pn cf vs = 1 →
  outcome (BERT_init pn cf vs hp) = Raise e → raised_by_call pn cf vs hp e.
Proof.
  intros Hone. unfold bert_nm.raised_by_call, built_from.
  run_cases pn cf vs; try discriminate Hone; intros [= <-].
  all: repeat match goal with u : () |- _ => destruct u end.
  all: pick_call.
Qed.

(** C9 (amended).  When the number of arguments among
    [pretrained_model_name], [config_filename] and [vocab_size] that are
    not [None] differs from one, the constructor raises right after the
    call of [super().__init__()], before any configuration or model object
    is built: what that call raises, and its own [ValueError] when the call
    returns.  Given that [super().__init__()] returns, the constructor
    stops there with that [ValueError] exactly when the number differs from
    one.  When the number is one, whatever the constructor raises (a
    [ValueError] included) is raised by one of the calls it makes. *)
Theorem BERT_init_ValueError_iff pn cf vs hp :
  (super_init = Ok () →
     (num_not_None pn cf vs ≠ 1
      ↔ BERT_init pn cf vs hp = Run [SuperInit] (Raise (ValueError only_one_msg))))
  ∧ (num_not_None pn cf vs ≠ 1 →
       log (BERT_init pn cf vs hp) = [SuperInit]
       ∧ (∃ e, outcome (BERT_init pn cf vs hp) = Raise e)
       ∧ (∀ e, super_init = Raise e → outcome (BERT_init pn cf vs hp) = Raise e))
  ∧ (num_not_None pn cf vs = 1 →
       ∀ e, outcome (BERT_init pn cf vs hp) = Raise e → raised_by_call pn cf vs hp e).
Proof.
  rewrite <- total_num_not_None. split; [|split].
  - intros Hs. split; [by apply BERT_init_rejected|].
    intros Hr Hone.
    destruct (BERT_init_accepted_log pn cf vs hp Hs Hone) as (ev & evs & Hlog).
    rewrite Hr in Hlog. discriminate Hlog.
  - intros Hne. destruct (BERT_init_rejected_log pn cf vs hp Hne) as [Hlog He].
    split; [done|]. split; [done|].
    intros e Hs. by rewrite (BERT_init_super_raises _ _ _ _ e).
  - intros Hone e. by apply BERT_init_accepted_raise.
Qed.

(** C10.  Whenever the first check passes, the second chain of conditions
    takes one of its three construction branches: the final [else] is not
    reached and its [ValueError] is never raised.  Whatever the run raises
    is raised by one of its calls, so it does not raise the [ValueError] of
    the final [else] unless a call does. *)
Theorem BERT_init_final_else_unreachable pn cf vs hp :
  total pn cf vs = 1 →
  dispatch pn cf vs ≠ FinalElse
  ∧ (∀ e, outcome (BERT_init pn cf vs hp) = Raise e → raised_by_call pn cf vs hp e)
  ∧ (¬ raised_by_call pn cf vs hp (ValueError either_msg) →
     outcome (BERT_init pn cf vs hp) ≠ Raise (ValueError either_msg)).
Proof.
  intros Hone. split; [|split].
  - by apply dispatch_total_one.
  - intros e. by apply BERT_init_accepted_raise.
  - intros Hno Hr. apply Hno. by apply BERT_init_accepted_raise.
Qed.

End constructor.

(** The second message is not raised on the rejecting path either. *)
Lemma only_one_msg_ne_either_msg : only_one_msg ≠ either_msg.
Proof. discriminate. Qed.

(** C9, as stated, fails: with [vocab_size] alone, a hidden size of 100 and
    12 attention heads, the constructor builds the configuration and then
    raises the [ValueError] of [BertModel(config)]. *)
Lemma BERT_init_ValueError_with_one_argument :
  num_not_None None None (Some 30522%Z) = 1
  ∧ BERT_init (Ok ()) (λ v (hp : nat * nat), Ok (v, hp))
              (λ _, Raise (LibraryError "OSError"))
              BertSelfAttention_check (λ _, Raise (LibraryError "OSError"))
              (λ _, Ok ()) (λ _ _, Ok ()) (λ m, m) (λ c, c.2.1)
              None None (Some 30522%Z) (100, 12)
    = Run [SuperInit; NewBertConfig; NewBertModel]
          (Raise (ValueError not_a_multiple_msg)).
Proof. split; reflexivity. Qed.

Lemma BERT_init_ValueError_iff_witness :
  num_not_None (Some "bert-base-uncased") None (Some 30522%Z) ≠ 1
  ∧ BERT_init (Ok ()) (λ v (hp : nat * nat), Ok (v, hp))
              (λ _, Raise (LibraryError "OSError"))
              BertSelfAttention_check (λ _, Ok (30522%Z, (768, 12)))
              (λ _, Ok ()) (λ _ _, Ok ()) (λ m, m) (λ c, c.2.1)
              (Some "bert-base-uncased") None (Some 30522%Z) (768, 12)
    = Run [SuperInit] (Raise (ValueError only_one_msg)).
Proof.
  assert (H : num_not_None (Some "bert-base-uncased") None (Some 30522%Z) ≠ 1)
    by (vm_compute; lia).
  split; [exact H|].
  exact (proj1 (proj1 (BERT_init_ValueError_iff
                         (Ok ()) (λ v (hp : nat * nat), Ok (v, hp))
                         (λ _, Raise (LibraryError "OSError"))
                         BertSelfAttention_check (λ _, Ok (30522%Z, (768, 12)))
                         (λ _, Ok ()) (λ _ _, Ok ()) (λ m, m) (λ c, c.2.1)
                         (Some "bert-base-uncased") None (Some 30522%Z) (768, 12))
                      eq_refl) H).
Defined.

Lemma BERT_init_final_else_unreachable_witness :
  total None (Some "bert_config.json") None = 1
  ∧ dispatch None (Some "bert_config.json") None ≠ FinalElse
  ∧ outcome (BERT_init (Ok ()) (λ v (hp : nat * nat), Ok (v, hp))
                       (λ _, Ok (30522%Z, (100, 12)))
                       BertSelfAttention_check (λ _, Raise (LibraryError "OSError"))
                       (λ _, Ok ()) (λ _ _, Ok ()) (λ m, m) (λ c, c.2.1)
                       None (Some "bert_config.json") None (768, 12))
    ≠ Raise (ValueError either_msg).
Proof.
  split; [reflexivity|].
  destruct (BERT_init_final_else_unreachable
              (Ok ()) (λ v (hp : nat * nat), Ok (v, hp))
              (λ _, Ok (30522%Z, (100, 12)))
              BertSelfAttention_check (λ _, Raise (LibraryError "OSError"))
              (λ _, Ok ()) (λ _ _, Ok ()) (λ m, m) (λ c, c.2.1)
              None (Some "bert_config.json") None (768, 12) eq_refl)
    as (Hd & _ & Hno).
  split; [exact Hd|]. apply Hno.
  unfold raised_by_call, built_from.
  intros [H|[(? & H & _)|[(? & _ & H)|[(? & H & _)|[(? & ? & H & _)
         |[(? & c & _ & Hc & H)|[(? & (c & Hc & H') & H)|(? & (c & Hc & H') & _ & H)]]]]]]];
    try discriminate H.
  injection Hc as <-. vm_compute in H. discriminate H.
Defined.

End bert_facts.

(** ** Further facts on the torch operations *)

Module torch_more.
Import torch torch_facts.

Lemma squeeze_last_unit {A} (t : tensor A) sh :
  size t = sh ++ [1] →
  squeeze t (-1) = Ok (mkTensor sh (data t)).
Proof.
  intros Hsz. unfold squeeze, dim. rewrite Hsz, length_app. simpl.
  replace (1 `max` (length sh + 1)) with (length sh + 1) by lia.
  change (-1)%Z with (- (1%nat))%Z.
  rewrite norm_dim_neg, bind_Ok by lia.
  replace (length sh + 1 - 1) with (length sh) by lia.
  rewrite bool_decide_eq_true_2 by (by rewrite lookup_app_r, Nat.sub_diag).
  rewrite take_app_length.
  rewrite drop_app_ge by lia.
  replace (S (length sh) - length sh) with 1 by lia. simpl. by rewrite app_nil_r.
Qed.

Lemma row_build `{Inhabited A} sh (f : list nat → A) pre :
  sh ≠ [] → in_bounds (lead sh) pre →
  row (build sh f) pre = (λ j, f (pre ++ [j])) <$> seq 0 (last_dim sh).
Proof.
  intros Hne Hpre. unfold row. rewrite size_build.
  apply list_fmap_ext. intros ? j Hj%list_elem_of_lookup_2.
  apply elem_of_seq in Hj. apply item_build.
  destruct sh as [|d sh _] using rev_ind; [done|].
  rewrite lead_snoc in Hpre. unfold last_dim in Hj. rewrite last_snoc in Hj.
  apply in_bounds_app; [done|]. repeat constructor. simpl in Hj. lia.
Qed.

Lemma row_ext `{Inhabited A} (t : tensor A) pre (f : nat → A) :
  (∀ j, j < last_dim (size t) → item t (pre ++ [j]) = f j) →
  row t pre = f <$> seq 0 (last_dim (size t)).
Proof.
  intros Hf. unfold row. apply list_fmap_ext. intros ? j Hj%list_elem_of_lookup_2.
  apply elem_of_seq in Hj. apply Hf. lia.
Qed.

(** int64 arithmetic. *)
Lemma wrap_int64_small (z : Z) :
  (int64_min ≤ z ≤ int64_max)%Z → wrap_int64 z = z.
Proof.
  unfold int64_min, int64_max, wrap_int64. intros Hz.
  rewrite Z.mod_small by lia. lia.
Qed.

Lemma wrap_int64_overflow : wrap_int64 (int64_max + 1) = int64_min.
Proof. reflexivity. Qed.

Lemma wrap_int64_range (z : Z) : (int64_min ≤ wrap_int64 z ≤ int64_max)%Z.
Proof.
  unfold int64_min, int64_max, wrap_int64.
  pose proof (Z.mod_pos_bound (z + 9223372036854775808) 18446744073709551616
                ltac:(lia)).
  lia.
Qed.

(** Bounds of a multi-index of known length. *)
Ltac solve_in_bounds :=
  unfold in_bounds; repeat (constructor; [lia|]); constructor.


Lemma cat_mismatch `{Inhabited A} (a b : tensor A) (axis : Z) (p : nat) :
  dim a ≠ 0 → norm_dim (dim a) axis = Ok p →
  take p (size a) ≠ take p (size b) →
  cat a b axis = Raise RuntimeError.
Proof.
  intros Hd Hp Hne. unfold cat.
  rewrite bool_decide_eq_false_2 by done. rewrite Hp, bind_Ok.
  rewrite bool_decide_eq_false_2; [done|]. by intros (_ & ? & _).
Qed.


(** [view] with one inferred entry, at any position. *)
Lemma view_infer_at {A} (t : tensor A) (pre post : list nat) (k : nat) :
  numel (size t) = k * (numel pre * numel post) → numel pre * numel post ≠ 0 →
  view t ((Z.of_nat <$> pre) ++ (-1)%Z :: (Z.of_nat <$> post))
  = Ok (mkTensor (pre ++ k :: post) (data t)).
Proof.
  intros Hn Hp. unfold view.
  rewrite bool_decide_eq_false_2.
  2:{ rewrite Exists_app, Exists_cons, !Exists_fmap, !Exists_exists.
      intros [(x & _ & Hx)|[Hx|(x & _ & Hx)]]; simpl in Hx; lia. }
  rewrite !filter_app, !filter_cons, !filter_ne_of_nat, !filter_eq_of_nat.
  destruct (decide ((-1)%Z = (-1)%Z)) as [_|Hx]; [|done].
  destruct (decide ((-1)%Z ≠ (-1)%Z)) as [Hx|_]; [done|].
  cbn [app length].
  rewrite fmap_app, !to_nat_of_nat, numel_app.
  rewrite bool_decide_eq_false_2 by done.
  rewrite bool_decide_eq_true_2 by (rewrite Hn; apply Nat.Div0.mod_mul).
  rewrite fmap_app, fmap_cons, !infer_of_nat.
  rewrite bool_decide_eq_true_2 by done.
  rewrite Hn, Nat.div_mul by done. done.
Qed.

Lemma Embedding_forward_ok (e : Embedding) (ids : tensor Z) :
  Forall (λ i, 0 ≤ i < num_embeddings e)%Z (data ids) →
  Embedding_forward e ids
  = Ok (build (size ids ++ [embedding_dim e])
              (λ idx, item (table e)
                           [Z.to_nat (item ids (lead idx)); default 0 (last idx)])).
Proof. intros Hall. unfold Embedding_forward. by rewrite bool_decide_eq_true_2. Qed.

End torch_more.

(** ** The remaining heads of the model and the forward pass *)

Module model_extra.
Import torch torch_facts torch_more sgd_model mask_facts model_facts.

Lemma get_intents_ok gelu init dt D ns mi mc mv mn mode u intents n B MI :
  let self := SGDModel_init gelu init dt D mc mn mode in
  let rest := SGDModelRest_init gelu init D ns mi mc mv mn in
  size u = [B; D] → size intents = [B; MI; D] → size n = [B] → wf n →
  ∃ logits,
    _get_intents self rest u intents n = Ok logits
    ∧ size logits = [B; S MI]
    ∧ ∀ b i, b < B → i < S MI →
        item logits [b; i]
        = if bool_decide (Z.of_nat i < wrap_int64 (item n [b] + 1))%Z
          then element_scores (intent_layer self) (row u [b])
                 (if bool_decide (i = 0) then row (none_intent_vector rest) [0; 0]
                  else row intents [b; i - 1]) !!! 0
          else sentinel dt.
Proof.
  intros self rest Hu Hi Hn Hwf. unfold _get_intents. rewrite Hi.
  cbn [none_intent_vector rest SGDModelRest_init].
  rewrite repeat_same_rank, bind_Ok by done.
  cbn [size build zip_with]. rewrite !Nat.mul_1_l, !Nat.mul_1_r.
  set (none := build [1; 1; D] (init "none_intent_vector")).
  set (rep := build [B; 1; D] _).
  rewrite (cat_ok rep intents 1 1), bind_Ok;
    [|done|unfold dim; by rewrite Hi|by rewrite Hi|by rewrite Hi].
  rewrite Hi. change (size rep) with [B; 1; D].
  change (<[1:=[B; 1; D] !!! 1 + [B; MI; D] !!! 1]> [B; 1; D]) with [B; S MI; D].
  change ([B; 1; D] !!! 1) with 1.
  set (c := build [B; S MI; D] _).
  cbn [intent_layer self SGDModel_init].
  destruct (Logits_forward_ok gelu init "intent_layer" 1 D u c B (S MI) Hu eq_refl)
    as (scores & Hsc & Hsz & Hswf).
  rewrite Hsc, bind_Ok.
  rewrite (squeeze_last_unit scores [B; S MI]), bind_Ok by done.
  cbn [param_dtype].
  rewrite get_mask_ok, bind_Ok by lia.
  cbn [size add_scalar tmap data]. rewrite Hn.
  replace (Z.to_nat (Z.of_nat MI + 1)) with (S MI) by lia. cbn [app].
  set (mask := build [B; S MI] _).
  rewrite (where_same mask _ _ [B; S MI]) by done.
  eexists. split; [done|]. split; [done|].
  intros b i Hb Hi'.
  assert (Hin : in_bounds [B; S MI] [b; i]) by solve_in_bounds.
  rewrite item_build, !bidx_same by done.
  rewrite item_smul_ones by done.
  assert (Hmask : item mask [b; i]
                  = bool_decide (Z.of_nat i < wrap_int64 (item n [b] + 1))%Z).
  { pose proof (get_mask_ok dt scores (Z.of_nat MI + 1) (add_scalar n 1) ltac:(lia)) as Hok.
    cbn [size add_scalar tmap data] in Hok. rewrite Hn in Hok.
    replace (Z.to_nat (Z.of_nat MI + 1)) with (S MI) in Hok by lia.
    etrans; [apply (get_mask_item _ _ _ _ _ _ [b] i Hok);
               [cbn [size add_scalar tmap]; rewrite Hn; solve_in_bounds|lia]|].
    unfold add_scalar. rewrite item_tmap; [done|done|rewrite Hn; solve_in_bounds]. }
  fold mask. rewrite Hmask. case_bool_decide as Hlt; [|done].
  assert (Hval : item (mkTensor [B; S MI] (data scores)) [b; i] = item scores [b; i; 0]).
  { unfold item. rewrite Hsz. simpl. f_equal; lia. }
  rewrite Hval.
  rewrite (Logits_forward_elementwise gelu init "intent_layer" 1 D u c B (S MI)
             scores Hu eq_refl Hsc b i 0 Hb Hi') by lia.
  do 2 f_equal.
  unfold c. rewrite row_build; [|done|solve_in_bounds].
  change (last_dim [B; S MI; D]) with D.
  case_bool_decide as Hi0.
  - subst i. rewrite (row_ext none [0; 0] (λ j, item none [0; 0; j])) by done.
    change (last_dim (size none)) with D.
    apply list_fmap_ext. intros ? j Hj%list_elem_of_lookup_2. apply elem_of_seq in Hj.
    change (([b; 0] ++ [j]) !!! 1) with 0. rewrite bool_decide_eq_true_2 by lia.
    change ([b; 0] ++ [j]) with [b; 0; j].
    unfold rep. rewrite item_build by solve_in_bounds.
    cbn [zip_with]. by rewrite !Nat.mod_1_r, Nat.mod_small by lia.
  - rewrite (row_ext intents [b; i - 1] (λ j, item intents [b; i - 1; j])) by done.
    rewrite Hi. change (last_dim [B; MI; D]) with D.
    apply list_fmap_ext. intros ? j Hj%list_elem_of_lookup_2. apply elem_of_seq in Hj.
    change (([b; i] ++ [j]) !!! 1) with i. by rewrite bool_decide_eq_false_2 by lia.
Qed.


Lemma get_requested_slots_ok gelu init dt D mc mn mode u emb n B N :
  let self := SGDModel_init gelu init dt D mc mn mode in
  size u = [B; D] → size emb = [B; N; D] → size n = [B] →
  ∃ logits mask,
    _get_requested_slots self u emb n = Ok (logits, mask)
    ∧ size logits = [B; N] ∧ wf logits
    ∧ size mask = [B * N] ∧ wf mask
    ∧ ∀ b i, b < B → i < N →
        item logits [b; i]
        = element_scores (requested_slots_layer self) (row u [b]) (row emb [b; i]) !!! 0
        ∧ item mask [b * N + i] = bool_decide (Z.of_nat i < item n [b])%Z.
Proof.
  intros self Hu He Hn. unfold _get_requested_slots.
  cbn [requested_slots_layer self SGDModel_init].
  destruct (Logits_forward_ok gelu init "requested_slots_layer" 1 D u emb B N Hu He)
    as (scores & Hsc & Hsz & Hswf).
  rewrite Hsc, bind_Ok.
  rewrite (squeeze_last_unit scores [B; N]), bind_Ok by done.
  cbn [size]. unfold size_at.
  change (norm_dim (length [B; N]) (-1)) with (norm_dim 2 (- (1%nat))).
  rewrite norm_dim_neg, !bind_Ok by lia.
  change ([B; N] !!! (2 - 1)) with N. change (param_dtype self) with dt.
  pose proof (get_mask_ok dt (mkTensor [B; N] (data scores)) N n ltac:(lia)) as Hok.
  rewrite Nat2Z.id, Hn in Hok. cbn [app] in Hok.
  rewrite Hok, bind_Ok. set (mask := build [B; N] _) in *.
  rewrite view_flat, bind_Ok.
  eexists _, _. split; [done|]. split; [done|].
  split; [unfold wf in *; cbn [size data]; rewrite Hswf, Hsz; simpl; nia|].
  split; [unfold mask; simpl; f_equal; lia|].
  split; [unfold wf, mask; simpl; rewrite length_fmap, length_seq; lia|].
  intros b i Hb Hi. split.
  - rewrite <- (Logits_forward_elementwise gelu init "requested_slots_layer" 1 D u emb
                  B N scores Hu He Hsc b i 0 Hb Hi) by lia.
    unfold item. rewrite Hsz. simpl. f_equal; lia.
  - etrans; [|apply (get_mask_item _ _ _ _ _ _ [b] i Hok);
               [rewrite Hn; solve_in_bounds|lia]].
    unfold item. simpl. f_equal; lia.
Qed.


Lemma get_noncategorical_slot_values_ok gelu init dt D ns mi mc mv mn mode
    u mask slots tokens B N T :
  let self := SGDModel_init gelu init dt D mc mn mode in
  let rest := SGDModelRest_init gelu init D ns mi mc mv mn in
  size tokens = [B; T; D] → size slots = [B; N; D] → size mask = [B; T] → wf mask →
  ∃ span_start span_end,
    _get_noncategorical_slot_values self rest u mask slots tokens
    = Ok (span_start, span_end)
    ∧ size span_start = [B; N; T] ∧ size span_end = [B; N; T]
    ∧ ∀ b s t, b < B → s < N → t < T →
        item span_start [b; s; t]
        = (if bool_decide (item mask [b; t] ≠ 0%Z)
           then span_pair_scores rest (row slots [b; s]) (row tokens [b; t]) !!! 0
           else sentinel dt)
        ∧ item span_end [b; s; t]
          = (if bool_decide (item mask [b; t] ≠ 0%Z)
             then span_pair_scores rest (row slots [b; s]) (row tokens [b; t]) !!! 1
             else sentinel dt).
Proof.
  intros self rest Ht Hs Hm Hwf. unfold _get_noncategorical_slot_values.
  unfold size_at. rewrite Ht, Hs.
  change (norm_dim (length [B; T; D]) 1) with (Ok (A:=nat) 1).
  change (norm_dim (length [B; N; D]) 1) with (Ok (A:=nat) 1).
  rewrite !bind_Ok.
  change ([B; T; D] !!! 1) with T. change ([B; N; D] !!! 1) with N.
  rewrite (unsqueeze_ok tokens 1 1), bind_Ok by (unfold dim; by rewrite Ht).
  rewrite Ht. cbn [take drop app].
  rewrite repeat_same_rank, bind_Ok by done.
  cbn [size zip_with]. rewrite !Nat.mul_1_l, !Nat.mul_1_r.
  set (rt := build [B; N; T; D] _).
  rewrite (unsqueeze_ok slots 2 2), bind_Ok by (unfold dim; by rewrite Hs).
  rewrite Hs. cbn [take drop app].
  rewrite repeat_same_rank, bind_Ok by done.
  cbn [size zip_with]. rewrite !Nat.mul_1_l, !Nat.mul_1_r.
  set (rs := build [B; N; T; D] _).
  rewrite (cat_ok rs rt 3 3), bind_Ok by done.
  change (size rs) with [B; N; T; D]. change (size rt) with [B; N; T; D].
  change (<[3:=[B; N; T; D] !!! 3 + [B; N; T; D] !!! 3]> [B; N; T; D])
    with [B; N; T; D + D].
  change ([B; N; T; D] !!! 3) with D.
  set (c := build [B; N; T; D + D] _).
  cbn [noncat_layer1 noncat_layer2 noncat_activation rest SGDModelRest_init].
  set (l1 := Linear_init init "noncat_layer1" (2 * D) D).
  set (l2 := Linear_init init "noncat_layer2" D 2).
  rewrite Linear_forward_ok, bind_Ok
    by (change (size c) with [B; N; T; D + D]; simpl; f_equal; lia).
  change (size c) with [B; N; T; D + D]. cbn [lead length Nat.sub take app].
  change (out_features l1) with D. change (in_features l1) with (2 * D).
  set (L1 := build [B; N; T; D] _).
  set (h := tmap gelu L1).
  rewrite Linear_forward_ok, bind_Ok by done.
  change (size h) with [B; N; T; D]. cbn [lead length Nat.sub take app].
  change (out_features l2) with 2. change (in_features l2) with D.
  set (L2 := build [B; N; T; 2] _).
  set (bm := to_bool mask).
  rewrite (unsqueeze_ok bm 1 1), bind_Ok by (unfold dim, bm; simpl; by rewrite Hm).
  change (size bm) with (size mask). rewrite Hm. cbn [take drop app].
  rewrite (unsqueeze_ok _ 3 3), bind_Ok by done.
  cbn [size data take drop app].
  rewrite repeat_same_rank, bind_Ok by done.
  cbn [size zip_with data]. rewrite !Nat.mul_1_l, !Nat.mul_1_r.
  set (rm := build [B; N; T; 2] _).
  change (param_dtype self) with dt. fold (sentinel dt).
  rewrite (where_same rm L2 _ [B; N; T; 2]), bind_Ok by done.
  set (w := build [B; N; T; 2] _).
  unfold unbind. change (norm_dim (dim w) 3) with (Ok (A:=nat) 3). rewrite bind_Ok.
  change (size w) with [B; N; T; 2]. change ([B; N; T; 2] !!! 3) with 2.
  cbn [seq fmap list_fmap take drop app].
  eexists _, _. split; [done|]. split; [done|]. split; [done|].
  intros b s t Hb Hs' Ht'.
  assert (Hin : in_bounds [B; N; T] [b; s; t]) by solve_in_bounds.
  rewrite !item_build by done. cbn [take drop app].
  assert (Hw : ∀ k, k < 2 →
            item w [b; s; t; k]
            = if bool_decide (item mask [b; t] ≠ 0%Z)
              then span_pair_scores rest (row slots [b; s]) (row tokens [b; t]) !!! k
              else sentinel dt).
  { intros k Hk. unfold w.
    assert (Hin4 : in_bounds [B; N; T; 2] [b; s; t; k]) by solve_in_bounds.
    rewrite item_build, !bidx_same by done.
    rewrite item_smul_ones by done.
    assert (Hrm : item rm [b; s; t; k] = bool_decide (item mask [b; t] ≠ 0%Z)).
    { unfold rm. rewrite item_build by done. cbn [zip_with].
      rewrite !Nat.mod_1_r, !Nat.mod_small by done.
      transitivity (item bm [b; t]).
      - unfold item. simpl. rewrite Hm. simpl. f_equal. lia.
      - unfold bm, to_bool. rewrite item_tmap; [done|done|rewrite Hm; solve_in_bounds]. }
    rewrite Hrm. case_bool_decide; [|done].
    (* the concatenated features *)
    assert (Hc : ∀ j, j < 2 * D →
              item c [b; s; t; j] = (row slots [b; s] ++ row tokens [b; t]) !!! j).
    { intros j Hj. unfold c. rewrite item_build by solve_in_bounds.
      change ([b; s; t; j] !!! 3) with j. cbn zeta.
      assert (Hlen : length (row slots [b; s]) = D)
        by (by rewrite row_length, Hs).
      case_bool_decide as Hjd.
      - rewrite lookup_total_app_l by lia.
        unfold rs. rewrite item_build by solve_in_bounds.
        cbn [zip_with]. rewrite Nat.mod_1_r, !Nat.mod_small by done.
        apply eq_sym, list_lookup_total_correct.
        rewrite (row_lookup slots [b; s]) by (by rewrite Hs).
        f_equal. unfold item. rewrite Hs. simpl. f_equal. lia.
      - rewrite lookup_total_app_r by lia. rewrite Hlen.
        change (<[3:=j - D]> [b; s; t; j]) with [b; s; t; j - D].
        unfold rt. rewrite item_build by solve_in_bounds.
        cbn [zip_with]. rewrite Nat.mod_1_r, !Nat.mod_small by lia.
        apply eq_sym, list_lookup_total_correct.
        rewrite (row_lookup tokens [b; t]) by (rewrite Ht; unfold last_dim; simpl; lia).
        f_equal. unfold item. rewrite Ht. simpl. f_equal. lia. }
    assert (Hh : ∀ i, i < D →
              item h [b; s; t; i]
              = (gelu <$> Linear_row l1 (row slots [b; s] ++ row tokens [b; t])) !!! i).
    { intros i Hi. unfold h, L1. rewrite item_tmap_build by solve_in_bounds.
      apply eq_sym, list_lookup_total_correct.
      rewrite list_lookup_fmap. unfold Linear_row at 1.
      rewrite list_lookup_fmap, lookup_seq_lt by done. simpl. do 3 f_equal.
      apply sum_list_R_ext. intros j Hj. f_equal. symmetry. apply Hc. lia. }
    unfold L2. rewrite item_build by done. cbn zeta.
    change (default 0 (last [b; s; t; k])) with k.
    change (lead [b; s; t; k]) with [b; s; t].
    unfold span_pair_scores.
    cbn [noncat_layer1 noncat_layer2 noncat_activation rest SGDModelRest_init].
    fold l1 l2. apply eq_sym, list_lookup_total_correct.
    unfold Linear_row at 1. rewrite list_lookup_fmap, lookup_seq_lt by done. simpl.
    do 2 f_equal. apply sum_list_R_ext. intros i Hi. f_equal. symmetry. by apply Hh. }
  split; apply Hw; lia.
Qed.


(** X1.  For an utterance batch of size [(B, D)], intent embeddings of size
    [(B, MI, D)] and int64 intent counts of size [(B)], [_get_intents]
    returns logits of size [(B, MI + 1)].  Entry [0] of a row scores the
    trainable NONE vector and entry [i + 1] scores intent [i] of the
    service.  For a count from [0] to [int64_max - 1], the NONE entry is
    the score, and entry [i + 1] is the score when [i < num_intents[b]] and
    the negative sentinel otherwise.  For a negative count every entry of
    the row is the sentinel, NONE included; and so it is for the count
    [int64_max], where [num_intents + 1] wraps around to [int64_min]. *)
Theorem get_intents_spec gelu init dt D ns mi mc mv mn mode u intents n B MI :
  let self := SGDModel_init gelu init dt D mc mn mode in
  let rest := SGDModelRest_init gelu init D ns mi mc mv mn in
  size u = [B; D] → size intents = [B; MI; D] → size n = [B] → wf n →
  ∃ logits,
    _get_intents self rest u intents n = Ok logits
    ∧ size logits = [B; S MI]
    ∧ ∀ b, b < B →
        ((0 ≤ item n [b] < int64_max)%Z →
           item logits [b; 0]
           = element_scores (intent_layer self) (row u [b])
                            (row (none_intent_vector rest) [0; 0]) !!! 0
           ∧ ∀ i, i < MI →
               item logits [b; S i]
               = if bool_decide (Z.of_nat i < item n [b])%Z
                 then element_scores (intent_layer self) (row u [b])
                                     (row intents [b; i]) !!! 0
                 else sentinel dt)
        ∧ ((int64_min ≤ item n [b] < 0)%Z →
             ∀ i, i < S MI → item logits [b; i] = sentinel dt)
        ∧ (item n [b] = int64_max →
             ∀ i, i < S MI → item logits [b; i] = sentinel dt).
Proof.
  intros self rest Hu Hi Hn Hwf.
  destruct (get_intents_ok gelu init dt D ns mi mc mv mn mode u intents n B MI
              Hu Hi Hn Hwf) as (logits & Hok & Hsz & Hitem).
  exists logits. split; [exact Hok|]. split; [exact Hsz|].
  intros b Hb. split; [|split].
  - intros Hrange. unfold int64_max in Hrange.
    assert (Hw : wrap_int64 (item n [b] + 1) = (item n [b] + 1)%Z)
      by (apply wrap_int64_small; unfold int64_min, int64_max; lia).
    split.
    + rewrite (Hitem b 0), Hw by lia. by rewrite bool_decide_eq_true_2 by lia.
    + intros i Hi'. rewrite (Hitem b (S i)), Hw by lia.
      rewrite (bool_decide_eq_false_2 (S i = 0)) by lia.
      replace (S i - 1) with i by lia.
      repeat case_bool_decide; done || lia.
  - intros Hrange i Hi'. unfold int64_min in Hrange. rewrite (Hitem b i) by lia.
    rewrite wrap_int64_small by (unfold int64_min, int64_max; lia).
    by rewrite bool_decide_eq_false_2 by lia.
  - intros Hmax i Hi'. rewrite (Hitem b i) by lia. rewrite Hmax.
    by rewrite wrap_int64_overflow, bool_decide_eq_false_2 by (unfold int64_min; lia).
Qed.

Lemma get_intents_spec_witness :
  ∃ logits,
    _get_intents (SGDModel_init (λ x, x) (λ _ _, 0%R) float32 1 1 1 "cls_token")
                 (SGDModelRest_init (λ x, x) (λ _ _, 0%R) 1 1 2 1 1 1)
                 (mkTensor [2; 1] [1; 2]%R) (mkTensor [2; 2; 1] [1; 2; 3; 4]%R)
                 (mkTensor [2] [1; 9223372036854775807]%Z)
    = Ok logits
    ∧ size logits = [2; 3]
    ∧ item logits [0; 2] = sentinel float32
    ∧ item logits [1; 0] = sentinel float32.
Proof.
  destruct (get_intents_spec (λ x, x) (λ _ _, 0%R) float32 1 1 2 1 1 1 "cls_token"
              (mkTensor [2; 1] [1; 2]%R) (mkTensor [2; 2; 1] [1; 2; 3; 4]%R)
              (mkTensor [2] [1; 9223372036854775807]%Z) 2 2)
    as (logits & Hok & Hsz & Hitem); try reflexivity.
  exists logits. split; [exact Hok|]. split; [exact Hsz|]. split.
  - destruct (Hitem 0) as (Hkept & _ & _); [lia|].
    destruct Hkept as [_ Hi]; [split; by vm_compute|]. apply (Hi 1). lia.
  - destruct (Hitem 1) as (_ & _ & Hwrap); [lia|]. apply (Hwrap eq_refl 0). lia.
Defined.

(** X2.  For an utterance batch of size [(B, D)], slot embeddings of size
    [(B, N, D)] and counts of size [(B)], [_get_requested_slots] returns
    the logits of size [(B, N)] and a one-dimensional mask of length
    [B * N].  Every logit is the score of its slot, also for a padded slot:
    the logits are not masked.  The mask entry of slot [i] of example [b]
    is at position [b * N + i] and is true exactly when
    [i < req_num_slots[b]]. *)
Theorem get_requested_slots_spec gelu init dt D mc mn mode u emb n B N :
  let self := SGDModel_init gelu init dt D mc mn mode in
  size u = [B; D] → size emb = [B; N; D] → size n = [B] →
  ∃ logits mask,
    _get_requested_slots self u emb n = Ok (logits, mask)
    ∧ size logits = [B; N]
    ∧ size mask = [B * N] ∧ length (data mask) = B * N
    ∧ ∀ b i, b < B → i < N →
        item logits [b; i]
        = element_scores (requested_slots_layer self) (row u [b]) (row emb [b; i]) !!! 0
        ∧ data mask !! (b * N + i) = Some (bool_decide (Z.of_nat i < item n [b])%Z).
Proof.
  intros self Hu He Hn.
  destruct (get_requested_slots_ok gelu init dt D mc mn mode u emb n B N Hu He Hn)
    as (logits & mask & Hok & Hsz & Hwf & Hmsz & Hmwf & Hitem).
  exists logits, mask. split; [exact Hok|]. split; [exact Hsz|]. split; [exact Hmsz|].
  assert (Hlen : length (data mask) = B * N).
  { unfold wf in Hmwf. rewrite Hmwf, Hmsz. simpl. lia. }
  split; [exact Hlen|].
  intros b i Hb Hi. destruct (Hitem b i Hb Hi) as [Hl Hm]. split; [exact Hl|].
  rewrite <- Hm. unfold item. rewrite Hmsz. cbn [ravel numel].
  rewrite Nat.mul_1_r, Nat.add_0_r.
  apply list_lookup_lookup_total_lt. rewrite Hlen. nia.
Qed.

Lemma get_requested_slots_spec_witness :
  ∃ logits mask,
    _get_requested_slots
      (SGDModel_init (λ x, x) (λ _ _, 0%R) float32 1 1 1 "cls_token")
      (mkTensor [2; 1] [1; 2]%R) (mkTensor [2; 2; 1] [1; 2; 3; 4]%R)
      (mkTensor [2] [1; 0]%Z)
    = Ok (logits, mask)
    ∧ data mask !! 0 = Some true ∧ data mask !! 1 = Some false
    ∧ data mask !! 2 = Some false.
Proof.
  destruct (get_requested_slots_spec (λ x, x) (λ _ _, 0%R) float32 1 1 1 "cls_token"
              (mkTensor [2; 1] [1; 2]%R) (mkTensor [2; 2; 1] [1; 2; 3; 4]%R)
              (mkTensor [2] [1; 0]%Z) 2 2)
    as (logits & mask & Hok & _ & _ & _ & Hitem); try reflexivity.
  exists logits, mask. split; [exact Hok|].
  split; [apply (Hitem 0 0); lia|].
  split; [apply (Hitem 0 1); lia|apply (Hitem 1 0); lia].
Defined.

(** X3.  For token embeddings of size [(B, T, D)], slot embeddings of size
    [(B, N, D)] and an utterance mask of size [(B, T)],
    [_get_noncategorical_slot_values] returns start and end logits of size
    [(B, N, T)].  At a token whose mask entry is not zero, the start and the
    end logit of slot [s] are entries [0] and [1] of the two-layer span
    score of the slot and the token; at a token whose mask entry is zero
    both are the negative sentinel, for every slot. *)
Theorem get_noncategorical_slot_values_spec gelu init dt D ns mi mc mv mn mode
    u mask slots tokens B N T :
  let self := SGDModel_init gelu init dt D mc mn mode in
  let rest := SGDModelRest_init gelu init D ns mi mc mv mn in
  size tokens = [B; T; D] → size slots = [B; N; D] → size mask = [B; T] → wf mask →
  ∃ span_start span_end,
    _get_noncategorical_slot_values self rest u mask slots tokens
    = Ok (span_start, span_end)
    ∧ size span_start = [B; N; T] ∧ size span_end = [B; N; T]
    ∧ ∀ b s t, b < B → s < N → t < T →
        (item mask [b; t] ≠ 0%Z →
           item span_start [b; s; t]
           = span_pair_scores rest (row slots [b; s]) (row tokens [b; t]) !!! 0
           ∧ item span_end [b; s; t]
             = span_pair_scores rest (row slots [b; s]) (row tokens [b; t]) !!! 1)
        ∧ (item mask [b; t] = 0%Z →
             item span_start [b; s; t] = sentinel dt
             ∧ item span_end [b; s; t] = sentinel dt).
Proof.
  intros self rest Ht Hs Hm Hwf.
  destruct (get_noncategorical_slot_values_ok gelu init dt D ns mi mc mv mn mode
              u mask slots tokens B N T Ht Hs Hm Hwf)
    as (st & en & Hok & Hsst & Hsen & Hitem).
  exists st, en. split; [exact Hok|]. split; [exact Hsst|]. split; [exact Hsen|].
  intros b s t Hb Hs' Ht'. destruct (Hitem b s t Hb Hs' Ht') as [-> ->].
  split; intros Hmask.
  - by rewrite bool_decide_eq_true_2.
  - rewrite bool_decide_eq_false_2; [done|]. intros Hne. by apply Hne.
Qed.

Lemma get_noncategorical_slot_values_spec_witness :
  ∃ span_start span_end,
    _get_noncategorical_slot_values
      (SGDModel_init (λ x, x) (λ _ _, 0%R) float32 1 1 1 "cls_token")
      (SGDModelRest_init (λ x, x) (λ _ _, 0%R) 1 1 1 1 1 1)
      (mkTensor [1; 1] [1%R]) (mkTensor [1; 2] [1; 0]%Z)
      (mkTensor [1; 1; 1] [1%R]) (mkTensor [1; 2; 1] [1; 2]%R)
    = Ok (span_start, span_end)
    ∧ item span_start [0; 0; 1] = sentinel float32
    ∧ item span_end [0; 0; 1] = sentinel float32.
Proof.
  destruct (get_noncategorical_slot_values_spec
              (λ x, x) (λ _ _, 0%R) float32 1 1 1 1 1 1 "cls_token"
              (mkTensor [1; 1] [1%R]) (mkTensor [1; 2] [1; 0]%Z)
              (mkTensor [1; 1; 1] [1%R]) (mkTensor [1; 2; 1] [1; 2]%R) 1 1 2)
    as (st & en & Hok & _ & _ & Hitem); try reflexivity.
  exists st, en. split; [exact Hok|].
  destruct (Hitem 0 0 1) as [_ Hz]; try lia. apply Hz. reflexivity.
Defined.


(** X4.  [LogitsNew.forward] on an utterance batch of size [(B, D)],
    element embeddings of size [(B, N, D)] and a weight tensor of size
    [(B, N, 2 * D, C)] returns logits of size [(B, N, C)].  The logit of
    class [c] for element [n] of example [b] is the sum over the [2 * D]
    features of feature times weight [(b, n, j, c)], where the features are
    the projected and activated utterance vector followed by the element's
    embedding: each element is scored with its own weights, and no bias is
    added. *)
Theorem LogitsNew_forward_elementwise gelu init name nc D u e w B N :
  size u = [B; D] → size e = [B; N; D] → size w = [B; N; 2 * D; nc] →
  ∃ scores,
    LogitsNew_forward (LogitsNew_init gelu init name nc D) u e w = Ok scores
    ∧ size scores = [B; N; nc]
    ∧ ∀ b n c, b < B → n < N → c < nc →
        item scores [b; n; c]
        = sum_list_R
            ((λ j, (((gelu <$> Linear_row
                                 (new_utterance_proj (LogitsNew_init gelu init name nc D))
                                 (row u [b]))
                     ++ row e [b; n]) !!! j
                    * item w [b; n; j; c])%R)
             <$> seq 0 (2 * D)).
Proof.
  intros Hu He Hw. unfold LogitsNew_forward. rewrite He.
  cbn [new_utterance_proj LogitsNew_init new_activation new_num_classes].
  rewrite Linear_forward_ok by (by rewrite Hu).
  rewrite bind_Ok, Hu. cbn [lead length Nat.sub take app].
  set (lp := Linear_init init (name +:+ ".utterance_proj") D D).
  change (out_features lp) with D.
  set (P := build [B; D] _).
  set (pu := tmap gelu P).
  rewrite (unsqueeze_ok pu 1 1), bind_Ok by done.
  change (size pu) with [B; D]. cbn [take drop app].
  rewrite repeat_same_rank, bind_Ok by done.
  cbn [size zip_with]. rewrite !Nat.mul_1_l, !Nat.mul_1_r.
  set (rep := build [B; N; D] _).
  rewrite (cat_ok rep e 2 2), bind_Ok;
    [|done|unfold dim; by rewrite He|by rewrite He|by rewrite He].
  rewrite He. change (size rep) with [B; N; D].
  change (<[2:=[B; N; D] !!! 2 + [B; N; D] !!! 2]> [B; N; D]) with [B; N; D + D].
  change ([B; N; D] !!! 2) with D.
  set (c := build [B; N; D + D] _).
  rewrite unsqueeze_last, bind_Ok.
  change (size c) with [B; N; D + D]. cbn [app].
  rewrite repeat_same_rank, bind_Ok by done.
  cbn [size zip_with]. rewrite !Nat.mul_1_l, !Nat.mul_1_r.
  set (c4 := build [B; N; D + D; nc] _).
  unfold mul. rewrite (map2_ok _ c4 w [B; N; D + D; nc]), bind_Ok.
  2:{ rewrite Hw. replace (2 * D) with (D + D) by lia. apply broadcast_shapes_same. }
  set (m := build [B; N; D + D; nc] _).
  unfold sum, dim. change (size m) with [B; N; D + D; nc].
  change (-2)%Z with (- (2%nat))%Z.
  rewrite norm_dim_neg, bind_Ok by (simpl; lia).
  cbn [length Nat.sub take drop app].
  change ([B; N; D + D; nc] !!! 2) with (D + D).
  eexists. split; [done|]. split; [done|].
  intros b n k Hb Hn Hk.
  rewrite item_build by solve_in_bounds. cbn [take drop app].
  replace (2 * D) with (D + D) by lia.
  apply sum_list_R_ext. intros j Hj.
  assert (Hin : in_bounds [B; N; D + D; nc] [b; n; j; k]) by solve_in_bounds.
  unfold m. rewrite item_build by done.
  change (size c4) with [B; N; D + D; nc]. rewrite bidx_same by done.
  rewrite Hw, bidx_same by solve_in_bounds. f_equal.
  unfold c4. rewrite item_build by done. cbn [zip_with].
  rewrite Nat.mod_1_r, !Nat.mod_small by done.
  transitivity (item c [b; n; j]).
  { unfold item. simpl. f_equal; lia. }
  (* the projected utterance *)
  assert (HP : ∀ i, i < D →
            item pu [b; i] = (gelu <$> Linear_row lp (row u [b])) !!! i).
  { intros i Hi. unfold pu, P. rewrite item_tmap_build by solve_in_bounds.
    apply eq_sym, list_lookup_total_correct.
    rewrite list_lookup_fmap. unfold Linear_row.
    rewrite list_lookup_fmap, lookup_seq_lt by done. simpl. do 3 f_equal.
    apply sum_list_R_ext. intros i' Hi'. f_equal.
    apply list_lookup_total_correct, row_lookup.
    rewrite Hu. by unfold last_dim. }
  unfold c. rewrite item_build by solve_in_bounds.
  change ([b; n; j] !!! 2) with j. cbn zeta.
  assert (Hlen : length (gelu <$> Linear_row lp (row u [b])) = D).
  { unfold Linear_row. by rewrite !length_fmap, length_seq. }
  case_bool_decide as Hjd.
  - rewrite lookup_total_app_l by lia. rewrite <- HP by done.
    unfold rep. rewrite item_build by solve_in_bounds.
    cbn [zip_with]. rewrite Nat.mod_1_r, !Nat.mod_small by done.
    unfold item. simpl. f_equal. lia.
  - rewrite lookup_total_app_r by lia. rewrite Hlen.
    change (<[2:=j - D]> [b; n; j]) with [b; n; j - D].
    apply eq_sym, list_lookup_total_correct. apply (row_lookup e [b; n]).
    rewrite He. unfold last_dim; simpl. lia.
Qed.

Lemma LogitsNew_forward_elementwise_witness :
  ∃ scores,
    LogitsNew_forward (LogitsNew_init (λ x, x) (λ _ _, 0%R) "cat_slot_status_layer" 3 1)
                      (mkTensor [1; 1] [1%R]) (mkTensor [1; 1; 1] [2%R])
                      (mkTensor [1; 1; 2; 3] [1; 2; 3; 4; 5; 6]%R)
    = Ok scores
    ∧ size scores = [1; 1; 3].
Proof.
  destruct (LogitsNew_forward_elementwise (λ x, x) (λ _ _, 0%R) "cat_slot_status_layer"
              3 1 (mkTensor [1; 1] [1%R]) (mkTensor [1; 1; 1] [2%R])
              (mkTensor [1; 1; 2; 3] [1; 2; 3; 4; 5; 6]%R) 1 1)
    as (scores & Hok & Hsz & _); try reflexivity.
  exists scores. by split.
Defined.


(** X5.  In the mode [cls_token], for an utterance batch of size [(B, D)],
    categorical slot embeddings [(B, NC, D)] with weights
    [(B, NC, 2 * D, 3)] and non-categorical slot embeddings [(B, NN, D)],
    [_get_slots_status] returns status logits of sizes [(B, NC, 3)] and
    [(B, NN, 3)].  The non-categorical logits are the three scores of the
    layer [noncat_slot_status_layer] for the utterance and the slot.  The
    token embeddings and the non-categorical weights are not read: any
    other value for them gives the same result. *)
Theorem slots_status_cls_token_spec gelu init dt D max_cat max_noncat
    cat_slot_emb noncat_slot_emb encoded_utterance cat_slot_emb_weights B NC NN :
  let self := SGDModel_init gelu init dt D max_cat max_noncat "cls_token" in
  size encoded_utterance = [B; D] →
  size cat_slot_emb = [B; NC; D] →
  size noncat_slot_emb = [B; NN; D] →
  size cat_slot_emb_weights = [B; NC; 2 * D; 3] →
  ∃ logit_cat_slot_status logit_noncat_slot_status,
    (∀ token_embeddings' noncat_slot_emb_weights',
       _get_slots_status self cat_slot_emb noncat_slot_emb token_embeddings'
         encoded_utterance cat_slot_emb_weights noncat_slot_emb_weights'
       = Ok (logit_cat_slot_status, logit_noncat_slot_status))
    ∧ size logit_cat_slot_status = [B; NC; 3]
    ∧ size logit_noncat_slot_status = [B; NN; 3]
    ∧ ∀ b s c, b < B → s < NN → c < 3 →
        item logit_noncat_slot_status [b; s; c]
        = element_scores (Logits_init gelu init "noncat_slot_status_layer" 3 D)
                         (row encoded_utterance [b]) (row noncat_slot_emb [b; s]) !!! c.
Proof.
  intros self Hu Hc Hn Hw.
  destruct (LogitsNew_forward_ok gelu init "cat_slot_status_layer" 3 D
              encoded_utterance cat_slot_emb cat_slot_emb_weights B NC Hu Hc Hw)
    as (lc & Hlc & Hlcsz).
  destruct (Logits_forward_ok gelu init "noncat_slot_status_layer" 3 D
              encoded_utterance noncat_slot_emb B NN Hu Hn)
    as (ln & Hln & Hlnsz & _).
  exists lc, ln. split; [|split; [exact Hlcsz|split; [exact Hlnsz|]]].
  - intros te' nw'. unfold _get_slots_status, self.
    cbn [_slots_status_model SGDModel_init].
    rewrite (bool_decide_eq_true_2 (_ = "cls_token")) by done.
    cbn [cat_slot_status_layer noncat_slot_status_layer SGDModel_init].
    rewrite (bool_decide_eq_false_2 (_ = "special_tokens_multi")) by done.
    rewrite bool_decide_eq_true_2 by set_solver.
    cbn [attr]. rewrite bind_Ok.
    change (call (LogitsNewM ?l) [?a; ?b; ?c]) with (LogitsNew_forward l a b c).
    rewrite Hlc, !bind_Ok.
    change (call (LogitsM ?l) [?a; ?b]) with (Logits_forward l a b).
    by rewrite Hln, bind_Ok.
  - intros b s c Hb Hs Hc'.
    by apply (Logits_forward_elementwise gelu init "noncat_slot_status_layer" 3 D
                encoded_utterance noncat_slot_emb B NN ln Hu Hn Hln).
Qed.

Lemma slots_status_cls_token_spec_witness :
  ∃ logit_cat_slot_status logit_noncat_slot_status,
    _get_slots_status
      (SGDModel_init (λ x, x) (λ _ _, 0%R) float32 1 1 1 "cls_token")
      (mkTensor [1; 1; 1] [1%R]) (mkTensor [1; 2; 1] [3; 4]%R)
      (mkTensor [1; 3; 1] [1; 2; 3]%R) (mkTensor [1; 1] [1%R])
      (mkTensor [1; 1; 2; 3] [1; 2; 3; 4; 5; 6]%R) (mkTensor [0] [])
    = Ok (logit_cat_slot_status, logit_noncat_slot_status)
    ∧ size logit_cat_slot_status = [1; 1; 3]
    ∧ size logit_noncat_slot_status = [1; 2; 3].
Proof.
  destruct (slots_status_cls_token_spec (λ x, x) (λ _ _, 0%R) float32 1 1 1
              (mkTensor [1; 1; 1] [1%R]) (mkTensor [1; 2; 1] [3; 4]%R)
              (mkTensor [1; 1] [1%R])
              (mkTensor [1; 1; 2; 3] [1; 2; 3; 4; 5; 6]%R) 1 1 2)
    as (lc & ln & Hok & Hc & Hn & _); try reflexivity.
  exists lc, ln. split; [apply Hok|]. by split.
Defined.

(** X6.  In the mode [special_tokens_multi], for token embeddings of size
    [(B, T, D)] and slot embeddings of sizes [(B, MC, D)] and [(B, MN, D)]
    with [MC + MN > 0] the configured capacities: when the utterance has at
    least [MC + MN] tokens, [_get_slots_status] returns status logits of
    sizes [(B, MC, 3)] and [(B, MN, 3)]; when it has fewer tokens, the
    slice keeps all [T] of them, the concatenation with the [MC + MN] slot
    embeddings fails, and the call raises [RuntimeError]. *)
Theorem slots_status_special_tokens_multi_spec gelu init dt D max_cat max_noncat
    cat_slot_emb noncat_slot_emb token_embeddings encoded_utterance
    cat_slot_emb_weights noncat_slot_emb_weights B T :
  let self := SGDModel_init gelu init dt D max_cat max_noncat "special_tokens_multi" in
  size token_embeddings = [B; T; D] →
  size cat_slot_emb = [B; max_cat; D] →
  size noncat_slot_emb = [B; max_noncat; D] →
  0 < max_cat + max_noncat →
  (max_cat + max_noncat ≤ T →
   ∃ logit_cat_slot_status logit_noncat_slot_status,
     _get_slots_status self cat_slot_emb noncat_slot_emb token_embeddings
       encoded_utterance cat_slot_emb_weights noncat_slot_emb_weights
     = Ok (logit_cat_slot_status, logit_noncat_slot_status)
     ∧ size logit_cat_slot_status = [B; max_cat; 3]
     ∧ size logit_noncat_slot_status = [B; max_noncat; 3])
  ∧ (T < max_cat + max_noncat →
     _get_slots_status self cat_slot_emb noncat_slot_emb token_embeddings
       encoded_utterance cat_slot_emb_weights noncat_slot_emb_weights
     = Raise RuntimeError).
Proof.
  intros self Ht Hc Hn Hpos. split.
  - intros HT.
    apply (slots_status_special_tokens_multi_ok gelu init dt D max_cat max_noncat
             cat_slot_emb noncat_slot_emb token_embeddings encoded_utterance
             cat_slot_emb_weights noncat_slot_emb_weights B T Ht Hc Hn).
    lia.
  - intros HT. unfold _get_slots_status, self.
    cbn [_slots_status_model SGDModel_init MAX_NUM_CAT_SLOT MAX_NUM_NONCAT_SLOT].
    rewrite (bool_decide_eq_false_2 (_ = "cls_token")) by done.
    rewrite (bool_decide_eq_false_2 (_ = "special_tokens_single")) by done.
    rewrite (bool_decide_eq_false_2 (_ = "special_tokens_double")) by done.
    rewrite (bool_decide_eq_true_2 (_ = "special_tokens_multi")) by done.
    destruct (slice_size token_embeddings 1 1
                (Some (- Z.of_nat (max_cat + max_noncat))%Z) None)
      as (ts & -> & Hts); [unfold dim; by rewrite Ht|].
    rewrite bind_Ok. rewrite Ht in Hts. cbn [from_option] in Hts.
    change ([B; T; D] !!! 1) with T in Hts.
    assert (Hlo : clamp_bound T (- Z.of_nat (max_cat + max_noncat)) = 0).
    { unfold clamp_bound. rewrite bool_decide_eq_true_2 by lia. lia. }
    rewrite Hlo, Nat.sub_0_r in Hts.
    change (<[1:=T]> [B; T; D]) with [B; T; D] in Hts.
    rewrite (cat_ok cat_slot_emb noncat_slot_emb 1 1), bind_Ok;
      [|unfold dim; by rewrite Hc|unfold dim; by rewrite Hc, Hn
       |by rewrite Hc, Hn|by rewrite Hc, Hn].
    rewrite Hc, Hn.
    change (<[1:=[B; max_cat; D] !!! 1 + [B; max_noncat; D] !!! 1]> [B; max_cat; D])
      with [B; max_cat + max_noncat; D].
    set (all_slot_emb := build [B; max_cat + max_noncat; D] _).
    rewrite (cat_mismatch ts all_slot_emb (-1) 2); [done| | |].
    + unfold dim. by rewrite Hts.
    + unfold dim. by rewrite Hts.
    + rewrite Hts. change (size all_slot_emb) with [B; max_cat + max_noncat; D].
      simpl. intros [= Htk]. lia.
Qed.

Lemma slots_status_special_tokens_multi_spec_witness :
  _get_slots_status
    (SGDModel_init (λ x, x) (λ _ _, 0%R) float32 1 1 1 "special_tokens_multi")
    (mkTensor [1; 1; 1] [1%R]) (mkTensor [1; 1; 1] [2%R])
    (mkTensor [1; 1; 1] [3%R]) (mkTensor [1; 1] [1%R])
    (mkTensor [0] []) (mkTensor [0] [])
  = Raise RuntimeError.
Proof.
  apply (slots_status_special_tokens_multi_spec (λ x, x) (λ _ _, 0%R) float32 1 1 1
           (mkTensor [1; 1; 1] [1%R]) (mkTensor [1; 1; 1] [2%R])
           (mkTensor [1; 1; 1] [3%R]) (mkTensor [1; 1] [1%R])
           (mkTensor [0] []) (mkTensor [0] []) 1 1); try reflexivity; lia.
Defined.

(** X7.  [__init__] accepts any string as slot status mode and creates no
    status layer for a string that is none of the four known modes;
    [_get_slots_status] then runs none of its branches and its [return]
    reads two local variables that were never assigned, which raises
    [UnboundLocalError], whatever the inputs. *)
Theorem slots_status_unknown_mode gelu init dt D max_cat max_noncat mode
    cat_slot_emb noncat_slot_emb token_embeddings encoded_utterance
    cat_slot_emb_weights noncat_slot_emb_weights :
  mode ∉ ["cls_token"; "special_tokens_single"; "special_tokens_double";
          "special_tokens_multi"] →
  _get_slots_status (SGDModel_init gelu init dt D max_cat max_noncat mode)
    cat_slot_emb noncat_slot_emb token_embeddings encoded_utterance
    cat_slot_emb_weights noncat_slot_emb_weights
  = Raise UnboundLocalError
  ∧ cat_slot_status_layer (SGDModel_init gelu init dt D max_cat max_noncat mode) = None
  ∧ noncat_slot_status_layer (SGDModel_init gelu init dt D max_cat max_noncat mode) = None
  ∧ slot_status_token_layer1 (SGDModel_init gelu init dt D max_cat max_noncat mode) = None.
Proof.
  intros Hmode. rewrite !not_elem_of_cons in Hmode.
  destruct Hmode as (Hc & Hs & Hd & Hm & _).
  unfold _get_slots_status.
  cbn [_slots_status_model cat_slot_status_layer noncat_slot_status_layer
       slot_status_token_layer1 SGDModel_init].
  rewrite !(bool_decide_eq_false_2 (mode = _)) by done.
  rewrite bool_decide_eq_false_2; [done|].
  rewrite !elem_of_cons, elem_of_nil. tauto.
Qed.

Lemma slots_status_unknown_mode_witness :
  _get_slots_status (SGDModel_init (λ x, x) (λ _ _, 0%R) float32 1 1 1 "cls")
    (mkTensor [1; 1; 1] [1%R]) (mkTensor [1; 1; 1] [2%R])
    (mkTensor [1; 1; 1] [3%R]) (mkTensor [1; 1] [1%R])
    (mkTensor [0] []) (mkTensor [0] [])
  = Raise UnboundLocalError.
Proof.
  apply (slots_status_unknown_mode (λ x, x) (λ _ _, 0%R) float32 1 1 1 "cls").
  apply (bool_decide_unpack _). vm_compute. exact I.
Defined.


Ltac view_step t pre post k :=
  let H := fresh in
  assert (H := view_infer_at t pre post k); cbn [fmap list_fmap app] in H;
  try change (Z.of_nat 3) with 3%Z in H;
  rewrite H by (simpl; nia); clear H; rewrite !bind_Ok.

(** The five heads of [forward] up to the slot status: on well-shaped
    inputs the embedding lookups, the views and the four other heads
    succeed, and [forward] returns what [_get_slots_status] returns next to
    their results. *)
Lemma forward_heads gelu init dt D ns mi mc mv mn mode
    u tokens mask ncv ni rns sid B T :
  let self := SGDModel_init gelu init dt D mc mn mode in
  let rest := SGDModelRest_init gelu init D ns mi mc mv mn in
  size u = [B; D] → size tokens = [B; T; D] → size mask = [B; T] → wf mask →
  size ncv = [B; mc] → size ni = [B] → wf ni → size rns = [B] →
  size sid = [B] → Forall (λ i, 0 ≤ i < ns)%Z (data sid) →
  0 < B → 0 < D → 0 < mc → 0 < mv →
  ∃ ce ne cw nw li lr rm lv st en,
    size ce = [B; mc; D] ∧ size ne = [B; mn; D]
    ∧ size cw = [B; mc; 2 * D; 3] ∧ size nw = [B; mn; 2 * D; 3]
    ∧ size li = [B; S mi] ∧ size lr = [B; mc + mn] ∧ size rm = [B * (mc + mn)]
    ∧ size lv = [B; mc; mv] ∧ size st = [B; mn; T] ∧ size en = [B; mn; T]
    ∧ forward self rest u tokens mask ncv ni rns sid
      = ('(logit_cat_slot_status, logit_noncat_slot_status) ←
           _get_slots_status self ce ne tokens u cw nw;
         Ok (mkModelOutputs li lr rm logit_cat_slot_status lv
                            logit_noncat_slot_status st en)).
Proof.
  intros self rest Hu Ht Hm Hmwf Hncv Hni Hniwf Hrns Hsid Hids HB HD Hmc Hmv.
  unfold forward. rewrite Hu. cbn zeta.
  cbn [intents_emb cat_slot_emb_table cat_slot_value_emb_table noncat_slot_emb_table
       req_slot_emb_table noncat_slot_emb_weights_table cat_slot_emb_weights_table
       rest SGDModelRest_init].
  rewrite !Embedding_forward_ok by done.
  cbn [embedding_dim Embedding_init]. rewrite Hsid. cbn [app].
  rewrite !bind_Ok.
  set (E1 := build [B; mi * D] _).
  view_step E1 [B] [D] mi.
  cbn [app]. set (ie := mkTensor [B; mi; D] _).
  set (E2 := build [B; mc * D] _).
  view_step E2 [B] [D] mc.
  cbn [app]. set (ce := mkTensor [B; mc; D] _).
  unfold size_at at 1. change (norm_dim (length (size ce)) 1) with (Ok (A:=nat) 1).
  rewrite !bind_Ok. change (size ce !!! 1) with mc.
  set (E3 := build [B; mc * mv * D] _).
  view_step E3 [B; mc] [D] mv.
  cbn [app]. set (cve := mkTensor [B; mc; mv; D] _).
  set (E4 := build [B; mn * D] _).
  view_step E4 [B] [D] mn.
  cbn [app]. set (ne := mkTensor [B; mn; D] _).
  set (E5 := build [B; (mc + mn) * D] _).
  view_step E5 [B] [D] (mc + mn).
  cbn [app]. set (re := mkTensor [B; mc + mn; D] _).
  replace (2 * Z.of_nat D)%Z with (Z.of_nat (2 * D)) by lia.
  set (E6 := build [B; mn * D * 2 * 3] _).
  view_step E6 [B] [2 * D; 3] mn.
  cbn [app]. set (nw := mkTensor [B; mn; 2 * D; 3] _).
  set (E7 := build [B; mc * D * 2 * 3] _).
  view_step E7 [B] [2 * D; 3] mc.
  cbn [app]. set (cw := mkTensor [B; mc; 2 * D; 3] _).
  destruct (get_intents_ok gelu init dt D ns mi mc mv mn mode u ie ni B mi
              Hu eq_refl Hni Hniwf) as (li & Hli & Hlisz & _).
  destruct (get_requested_slots_ok gelu init dt D mc mn mode u re rns B (mc + mn)
              Hu eq_refl Hrns) as (lr & rm & Hlr & Hlrsz & _ & Hrmsz & _).
  destruct (get_categorical_slot_values_ok gelu init dt D mc mn mode u ce cve ncv
              B mc mv Hu eq_refl Hncv Hmc Hmv HD)
    as (sc & lv & _ & _ & Hlv & Hlvsz & _).
  destruct (get_noncategorical_slot_values_ok gelu init dt D ns mi mc mv mn mode
              u mask ne tokens B mn T Ht eq_refl Hm Hmwf)
    as (st & en & Hst & Hstsz & Hensz & _).
  exists ce, ne, cw, nw, li, lr, rm, lv, st, en.
  do 10 (split; [done|]).
  fold self rest in Hli, Hlr, Hlv, Hst.
  by rewrite Hli, bind_Ok, Hlr, bind_Ok, Hlv, bind_Ok, Hst, bind_Ok.
Qed.


(** The status step of the modes [special_tokens_single] and
    [special_tokens_double], whose first call gives two arguments to a
    [LogitsNew]. *)
Lemma slots_status_special_tokens_not_Ok gelu init dt D mc mn mode ce ne tokens u cw nw :
  mode = "special_tokens_single" ∨ mode = "special_tokens_double" →
  ∃ e, _get_slots_status (SGDModel_init gelu init dt D mc mn mode) ce ne tokens u cw nw
       = Raise e
       ∧ (e = TypeError ∨ e = IndexError).
Proof.
  intros [-> | ->]; unfold _get_slots_status; cbn [_slots_status_model SGDModel_init].
  - rewrite (bool_decide_eq_false_2 (_ = "cls_token")) by done.
    rewrite (bool_decide_eq_true_2 (_ = "special_tokens_single")) by done.
    cbn [cat_slot_status_layer SGDModel_init].
    rewrite (bool_decide_eq_false_2 (_ = "special_tokens_multi")) by done.
    rewrite bool_decide_eq_true_2 by (rewrite !elem_of_cons; tauto).
    cbn [attr]. rewrite bind_Ok.
    destruct (select_cases tokens 1 (-1)) as [[x ->]| ->].
    + rewrite bind_Ok. eexists. split; [reflexivity|by left].
    + eexists. split; [reflexivity|by right].
  - rewrite (bool_decide_eq_false_2 (_ = "cls_token")) by done.
    rewrite (bool_decide_eq_false_2 (_ = "special_tokens_single")) by done.
    rewrite (bool_decide_eq_true_2 (_ = "special_tokens_double")) by done.
    cbn [cat_slot_status_layer SGDModel_init].
    rewrite (bool_decide_eq_false_2 (_ = "special_tokens_multi")) by done.
    rewrite bool_decide_eq_true_2 by (rewrite !elem_of_cons; tauto).
    cbn [attr]. rewrite bind_Ok.
    destruct (select_cases tokens 1 (-2)) as [[x ->]| ->].
    + rewrite bind_Ok. eexists. split; [reflexivity|by left].
    + eexists. split; [reflexivity|by right].
Qed.

Lemma select_token_ok `{Inhabited A} (t : tensor A) B T D (k : nat) :
  size t = [B; T; D] → 0 < k ≤ T → ∃ x, select t 1 (- k) = Ok x.
Proof.
  intros Hsz Hk. unfold select, dim. rewrite Hsz.
  change (norm_dim (length [B; T; D]) 1) with (Ok (A:=nat) 1). rewrite bind_Ok.
  change ([B; T; D] !!! 1) with T.
  rewrite norm_dim_neg, bind_Ok by done. eauto.
Qed.

Lemma slots_status_special_tokens_TypeError gelu init dt D mc mn mode
    ce ne tokens u cw nw B T :
  mode = "special_tokens_single" ∨ mode = "special_tokens_double" →
  size tokens = [B; T; D] → 2 ≤ T →
  _get_slots_status (SGDModel_init gelu init dt D mc mn mode) ce ne tokens u cw nw
  = Raise TypeError.
Proof.
  intros Hmode Ht HT.
  destruct (slots_status_special_tokens_not_Ok gelu init dt D mc mn mode
              ce ne tokens u cw nw Hmode) as (e & He & [-> | ->]); [done|].
  exfalso. revert He.
  destruct Hmode as [-> | ->]; unfold _get_slots_status;
    cbn [_slots_status_model SGDModel_init].
  - rewrite (bool_decide_eq_false_2 (_ = "cls_token")) by done.
    rewrite (bool_decide_eq_true_2 (_ = "special_tokens_single")) by done.
    cbn [cat_slot_status_layer SGDModel_init].
    rewrite (bool_decide_eq_false_2 (_ = "special_tokens_multi")) by done.
    rewrite bool_decide_eq_true_2 by (rewrite !elem_of_cons; tauto).
    cbn [attr]. rewrite bind_Ok.
    destruct (select_token_ok tokens B T D 1 Ht) as [x Hx]; [lia|].
    change (- (1%nat))%Z with (-1)%Z in Hx. rewrite Hx, bind_Ok. done.
  - rewrite (bool_decide_eq_false_2 (_ = "cls_token")) by done.
    rewrite (bool_decide_eq_false_2 (_ = "special_tokens_single")) by done.
    rewrite (bool_decide_eq_true_2 (_ = "special_tokens_double")) by done.
    cbn [cat_slot_status_layer SGDModel_init].
    rewrite (bool_decide_eq_false_2 (_ = "special_tokens_multi")) by done.
    rewrite bool_decide_eq_true_2 by (rewrite !elem_of_cons; tauto).
    cbn [attr]. rewrite bind_Ok.
    destruct (select_token_ok tokens B T D 2 Ht) as [x Hx]; [lia|].
    change (- (2%nat))%Z with (-2)%Z in Hx. rewrite Hx, bind_Ok. done.
Qed.

(** A bind whose continuation always raises never returns. *)
Lemma bind_never_Ok {A B} (m : result A) (k : A → result B) :
  (∀ a, ∃ e, k a = Raise e) → ∃ e, m ≫= k = Raise e.
Proof. intros Hk. destruct m as [a|e]; [apply Hk|by exists e]. Qed.

(** The sizes of the eight outputs of [forward]. *)
Lemma forward_sizes gelu init dt D ns mi mc mv mn mode
    u tokens mask ncv ni rns sid B T :
  let self := SGDModel_init gelu init dt D mc mn mode in
  let rest := SGDModelRest_init gelu init D ns mi mc mv mn in
  size u = [B; D] → size tokens = [B; T; D] → size mask = [B; T] → wf mask →
  size ncv = [B; mc] → size ni = [B] → wf ni → size rns = [B] →
  size sid = [B] → Forall (λ i, 0 ≤ i < ns)%Z (data sid) →
  0 < B → 0 < D → 0 < mc → 0 < mv →
  mode = "cls_token" ∨ (mode = "special_tokens_multi" ∧ mc + mn ≤ T) →
  ∃ out,
    forward self rest u tokens mask ncv ni rns sid = Ok out
    ∧ size (out_logit_intent_status out) = [B; S mi]
    ∧ size (out_logit_req_slot_status out) = [B; mc + mn]
    ∧ size (out_req_slot_mask out) = [B * (mc + mn)]
    ∧ size (out_logit_cat_slot_status out) = [B; mc; 3]
    ∧ size (out_logit_cat_slot_value out) = [B; mc; mv]
    ∧ size (out_logit_noncat_slot_status out) = [B; mn; 3]
    ∧ size (out_logit_noncat_slot_start out) = [B; mn; T]
    ∧ size (out_logit_noncat_slot_end out) = [B; mn; T].
Proof.
  intros self rest Hu Ht Hm Hmwf Hncv Hni Hniwf Hrns Hsid Hids HB HD Hmc Hmv Hmode.
  destruct (forward_heads gelu init dt D ns mi mc mv mn mode u tokens mask ncv ni rns
              sid B T Hu Ht Hm Hmwf Hncv Hni Hniwf Hrns Hsid Hids HB HD Hmc Hmv)
    as (ce & ne & cw & nw & li & lr & rm & lv & st & en
        & Hce & Hne & Hcw & Hnw & Hli & Hlr & Hrm & Hlv & Hst & Hen & Hfw).
  fold self rest in Hfw. rewrite Hfw. unfold self.
  destruct Hmode as [-> | [-> HT]].
  - destruct (slots_status_cls_token_ok gelu init dt D mc mn ce ne tokens u cw nw B
                Hu Hce Hne Hcw) as (lc & ln & -> & Hlc & Hln).
    rewrite bind_Ok. eexists. split; [reflexivity|]. by repeat split.
  - destruct (slots_status_special_tokens_multi_ok gelu init dt D mc mn ce ne tokens u
                cw nw B T Ht Hce Hne ltac:(lia)) as (lc & ln & -> & Hlc & Hln).
    rewrite bind_Ok. eexists. split; [reflexivity|]. by repeat split.
Qed.

(** X8.  On well-shaped inputs, in the mode [cls_token] and, when the
    utterance has at least [MC + MN] tokens, in the mode
    [special_tokens_multi], [forward] returns its eight outputs with the
    sizes fixed by the batch size [B], the number of tokens [T] and the
    schema capacities: intents [(B, MI + 1)], requested slots
    [(B, MC + MN)] with a flat mask of length [B * (MC + MN)], categorical
    status [(B, MC, 3)] and values [(B, MC, MV)], non-categorical status
    [(B, MN, 3)] and span start and end [(B, MN, T)]. *)
Theorem forward_output_sizes gelu init dt D ns mi mc mv mn mode
    u tokens mask ncv ni rns sid B T :
  let self := SGDModel_init gelu init dt D mc mn mode in
  let rest := SGDModelRest_init gelu init D ns mi mc mv mn in
  size u = [B; D] → size tokens = [B; T; D] → size mask = [B; T] → wf mask →
  size ncv = [B; mc] → size ni = [B] → wf ni → size rns = [B] →
  size sid = [B] → Forall (λ i, 0 ≤ i < ns)%Z (data sid) →
  0 < B → 0 < D → 0 < mc → 0 < mv →
  mode = "cls_token" ∨ (mode = "special_tokens_multi" ∧ mc + mn ≤ T) →
  ∃ out,
    forward self rest u tokens mask ncv ni rns sid = Ok out
    ∧ size (out_logit_intent_status out) = [B; S mi]
    ∧ size (out_logit_req_slot_status out) = [B; mc + mn]
    ∧ size (out_req_slot_mask out) = [B * (mc + mn)]
    ∧ size (out_logit_cat_slot_status out) = [B; mc; 3]
    ∧ size (out_logit_cat_slot_value out) = [B; mc; mv]
    ∧ size (out_logit_noncat_slot_status out) = [B; mn; 3]
    ∧ size (out_logit_noncat_slot_start out) = [B; mn; T]
    ∧ size (out_logit_noncat_slot_end out) = [B; mn; T].
Proof.
  intros self rest. apply forward_sizes.
Qed.

Lemma forward_output_sizes_witness :
  ∃ out,
    forward (SGDModel_init (λ x, x) (λ _ _, 0%R) float32 1 1 1 "cls_token")
            (SGDModelRest_init (λ x, x) (λ _ _, 0%R) 1 2 2 1 3 1)
            (mkTensor [2; 1] [1; 2]%R) (mkTensor [2; 2; 1] [1; 2; 3; 4]%R)
            (mkTensor [2; 2] [1; 1; 1; 0]%Z) (mkTensor [2; 1] [3; 2]%Z)
            (mkTensor [2] [2; 1]%Z) (mkTensor [2] [1; 2]%Z) (mkTensor [2] [0; 1]%Z)
    = Ok out
    ∧ size (out_logit_intent_status out) = [2; 3]
    ∧ size (out_logit_cat_slot_value out) = [2; 1; 3].
Proof.
  destruct (forward_output_sizes (λ x, x) (λ _ _, 0%R) float32 1 2 2 1 3 1 "cls_token"
              (mkTensor [2; 1] [1; 2]%R) (mkTensor [2; 2; 1] [1; 2; 3; 4]%R)
              (mkTensor [2; 2] [1; 1; 1; 0]%Z) (mkTensor [2; 1] [3; 2]%Z)
              (mkTensor [2] [2; 1]%Z) (mkTensor [2] [1; 2]%Z) (mkTensor [2] [0; 1]%Z)
              2 2)
    as (out & Hok & Hi & _ & _ & _ & Hv & _); try reflexivity; try lia.
  - repeat constructor; lia.
  - by left.
  - exists out. by repeat split.
Defined.

(** X9.  In the modes [special_tokens_single] and [special_tokens_double]
    [forward] never returns: whatever its inputs, the call raises.  On
    well-shaped inputs with at least two tokens, every other head succeeds
    and the exception is the [TypeError] of the slot status step. *)
Theorem forward_special_tokens_raise gelu init dt D ns mi mc mv mn mode
    u tokens mask ncv ni rns sid :
  let self := SGDModel_init gelu init dt D mc mn mode in
  let rest := SGDModelRest_init gelu init D ns mi mc mv mn in
  mode = "special_tokens_single" ∨ mode = "special_tokens_double" →
  (∃ e, forward self rest u tokens mask ncv ni rns sid = Raise e)
  ∧ ∀ B T,
      size u = [B; D] → size tokens = [B; T; D] → size mask = [B; T] → wf mask →
      size ncv = [B; mc] → size ni = [B] → wf ni → size rns = [B] →
      size sid = [B] → Forall (λ i, 0 ≤ i < ns)%Z (data sid) →
      0 < B → 0 < D → 0 < mc → 0 < mv → 2 ≤ T →
      forward self rest u tokens mask ncv ni rns sid = Raise TypeError.
Proof.
  intros self rest Hmode. split.
  - unfold forward.
    destruct (size u) as [|batch_size [|emb_dim [|? ?]]]; try by eexists.
    cbn zeta.
    repeat match goal with
           | |- ∃ e, (let '(_, _) := ?x in _) = _ => destruct x
           | |- ∃ e, _get_slots_status _ ?a ?b ?c ?d ?f ?g ≫= _ = _ =>
               destruct (slots_status_special_tokens_not_Ok gelu init dt D mc mn mode
                           a b c d f g Hmode) as (e & He & _);
               fold self in He; rewrite He; by exists e
           | |- ∃ e, _ ≫= _ = _ => apply bind_never_Ok; intros ?
           end.
  - intros B T Hu Ht Hm Hmwf Hncv Hni Hniwf Hrns Hsid Hids HB HD Hmc Hmv HT.
    destruct (forward_heads gelu init dt D ns mi mc mv mn mode u tokens mask ncv ni rns
                sid B T Hu Ht Hm Hmwf Hncv Hni Hniwf Hrns Hsid Hids HB HD Hmc Hmv)
      as (ce & ne & cw & nw & li & lr & rm & lv & st & en & _ & _ & _ & _ & _ & _ & _
          & _ & _ & _ & Hfw).
    fold self rest in Hfw. rewrite Hfw. unfold self.
    by rewrite (slots_status_special_tokens_TypeError gelu init dt D mc mn mode
                  ce ne tokens u cw nw B T Hmode Ht HT).
Qed.

Lemma forward_special_tokens_raise_witness :
  ∃ e,
    forward (SGDModel_init (λ x, x) (λ _ _, 0%R) float32 1 1 1 "special_tokens_single")
            (SGDModelRest_init (λ x, x) (λ _ _, 0%R) 1 2 2 1 3 1)
            (mkTensor [2; 1] [1; 2]%R) (mkTensor [2; 2; 1] [1; 2; 3; 4]%R)
            (mkTensor [2; 2] [1; 1; 1; 0]%Z) (mkTensor [2; 1] [3; 2]%Z)
            (mkTensor [2] [2; 1]%Z) (mkTensor [2] [1; 2]%Z) (mkTensor [2] [0; 1]%Z)
    = Raise e.
Proof.
  apply (forward_special_tokens_raise (λ x, x) (λ _ _, 0%R) float32 1 2 2 1 3 1
           "special_tokens_single").
  by left.
Defined.

(** X10.  [forward] looks every service id up in the embedding tables,
    which have one row per service of the schema: when the utterance batch
    has two dimensions and some service id is negative or not less than
    the number of services, the first lookup fails and [forward] raises
    [IndexError], in every mode. *)
Theorem forward_service_id_out_of_range gelu init dt D ns mi mc mv mn mode
    u tokens mask ncv ni rns sid B E :
  let self := SGDModel_init gelu init dt D mc mn mode in
  let rest := SGDModelRest_init gelu init D ns mi mc mv mn in
  size u = [B; E] →
  Exists (λ i, i < 0 ∨ Z.of_nat ns ≤ i)%Z (data sid) →
  forward self rest u tokens mask ncv ni rns sid = Raise IndexError.
Proof.
  intros self rest Hu Hex. unfold forward. rewrite Hu. cbn zeta.
  assert (Hbad : ∀ e, num_embeddings e = ns → Embedding_forward e sid = Raise IndexError).
  { intros e He. unfold Embedding_forward. rewrite bool_decide_eq_false_2; [done|].
    intros Hall. rewrite Exists_exists in Hex. destruct Hex as (i & Hi & Hi').
    rewrite Forall_forall in Hall. apply Hall in Hi. lia. }
  by rewrite (Hbad (intents_emb rest)).
Qed.

Lemma forward_service_id_out_of_range_witness :
  forward (SGDModel_init (λ x, x) (λ _ _, 0%R) float32 1 1 1 "cls_token")
          (SGDModelRest_init (λ x, x) (λ _ _, 0%R) 1 2 2 1 3 1)
          (mkTensor [2; 1] [1; 2]%R) (mkTensor [2; 2; 1] [1; 2; 3; 4]%R)
          (mkTensor [2; 2] [1; 1; 1; 0]%Z) (mkTensor [2; 1] [3; 2]%Z)
          (mkTensor [2] [2; 1]%Z) (mkTensor [2] [1; 2]%Z) (mkTensor [2] [0; 2]%Z)
  = Raise IndexError.
Proof.
  apply (forward_service_id_out_of_range (λ x, x) (λ _ _, 0%R) float32 1 2 2 1 3 1
           "cls_token" _ _ _ _ _ _ _ 2 1); [reflexivity|].
  apply Exists_cons_tl, Exists_cons_hd. lia.
Defined.


(** X22.  [Logits.forward] on an utterance batch of size [(B, D)] and
    element embeddings of size [(B, N, D)] returns logits of size
    [(B, N, num_classes)]; the logits of element [n] of example [b] are the
    scores of the utterance vector of [b] and the embedding of that element
    alone, so they do not depend on the other elements or examples of the
    batch.  On element embeddings that do not have three dimensions the
    unpacking of their size raises [ValueError]. *)
Theorem Logits_forward_spec gelu init name nc D u e :
  (∀ B N, size u = [B; D] → size e = [B; N; D] →
     ∃ scores,
       Logits_forward (Logits_init gelu init name nc D) u e = Ok scores
       ∧ size scores = [B; N; nc]
       ∧ ∀ b n c, b < B → n < N → c < nc →
           item scores [b; n; c]
           = element_scores (Logits_init gelu init name nc D)
                            (row u [b]) (row e [b; n]) !!! c)
  ∧ (length (size e) ≠ 3 →
     Logits_forward (Logits_init gelu init name nc D) u e = Raise (ValueError "unpack")).
Proof.
  split.
  - intros B N Hu He.
    destruct (Logits_forward_ok gelu init name nc D u e B N Hu He)
      as (scores & Hok & Hsz & _).
    exists scores. split; [exact Hok|]. split; [exact Hsz|].
    by apply (Logits_forward_elementwise gelu init name nc D u e B N scores Hu He Hok).
  - intros Hrank. unfold Logits_forward.
    by destruct (size e) as [|? [|? [|? [|? ?]]]].
Qed.

Lemma Logits_forward_spec_witness :
  Logits_forward (Logits_init (λ x, x) (λ _ _, 0%R) "intent_layer" 1 1)
                 (mkTensor [1; 1] [1%R]) (mkTensor [1; 1] [1%R])
  = Raise (ValueError "unpack").
Proof.
  apply (proj2 (Logits_forward_spec (λ x, x) (λ _ _, 0%R) "intent_layer" 1 1
                  (mkTensor [1; 1] [1%R]) (mkTensor [1; 1] [1%R]))).
  simpl. lia.
Defined.


(** X23.  The tensors [forward] returns against the axes [output_ports]
    declares for them: on well-shaped inputs six of the eight outputs have
    as many dimensions as declared axes, and two do not.
    [logit_intent_status] is declared with three axes and has two
    dimensions, [(B, MI + 1)]; [req_slot_mask] is declared with two axes
    and has one dimension, of length [B * (MC + MN)]. *)
Theorem forward_dims_and_output_ports gelu init dt D ns mi mc mv mn mode
    u tokens mask ncv ni rns sid B T :
  let self := SGDModel_init gelu init dt D mc mn mode in
  let rest := SGDModelRest_init gelu init D ns mi mc mv mn in
  size u = [B; D] → size tokens = [B; T; D] → size mask = [B; T] → wf mask →
  size ncv = [B; mc] → size ni = [B] → wf ni → size rns = [B] →
  size sid = [B] → Forall (λ i, 0 ≤ i < ns)%Z (data sid) →
  0 < B → 0 < D → 0 < mc → 0 < mv →
  mode = "cls_token" ∨ (mode = "special_tokens_multi" ∧ mc + mn ≤ T) →
  ∃ out,
    forward self rest u tokens mask ncv ni rns sid = Ok out
    ∧ ∀ name axes d,
        (name, axes) ∈ output_ports → (name, d) ∈ output_dims out →
        (name = "logit_intent_status" → length axes = 3 ∧ d = 2)
        ∧ (name = "req_slot_mask" → length axes = 2 ∧ d = 1)
        ∧ (name ≠ "logit_intent_status" → name ≠ "req_slot_mask" → d = length axes).
Proof.
  intros self rest Hu Ht Hm Hmwf Hncv Hni Hniwf Hrns Hsid Hids HB HD Hmc Hmv Hmode.
  destruct (forward_sizes gelu init dt D ns mi mc mv mn mode u tokens mask ncv ni rns
              sid B T Hu Ht Hm Hmwf Hncv Hni Hniwf Hrns Hsid Hids HB HD Hmc Hmv Hmode)
    as (out & Hok & H1 & H2 & H3 & H4 & H5 & H6 & H7 & H8).
  exists out. split; [exact Hok|].
  intros name axes d Hp Hd. unfold output_dims, dim in Hd.
  rewrite H1, H2, H3, H4, H5, H6, H7, H8 in Hd. cbn [length] in Hd.
  unfold output_ports in Hp.
  rewrite !elem_of_cons, elem_of_nil in Hp. rewrite !elem_of_cons, elem_of_nil in Hd.
  repeat (destruct Hp as [Hp|Hp]; [injection Hp as -> ->|]); [..|done].
  all: repeat (destruct Hd as [Hd|Hd]; [try discriminate Hd|]); try done.
  all: injection Hd as ->; repeat split; intros; done.
Qed.

Lemma forward_dims_and_output_ports_witness :
  ∃ out,
    forward (SGDModel_init (λ x, x) (λ _ _, 0%R) float32 1 1 1 "cls_token")
            (SGDModelRest_init (λ x, x) (λ _ _, 0%R) 1 2 2 1 3 1)
            (mkTensor [2; 1] [1; 2]%R) (mkTensor [2; 2; 1] [1; 2; 3; 4]%R)
            (mkTensor [2; 2] [1; 1; 1; 0]%Z) (mkTensor [2; 1] [3; 2]%Z)
            (mkTensor [2] [2; 1]%Z) (mkTensor [2] [1; 2]%Z) (mkTensor [2] [0; 1]%Z)
    = Ok out
    ∧ dim (out_req_slot_mask out) = 1.
Proof.
  destruct (forward_dims_and_output_ports
              (λ x, x) (λ _ _, 0%R) float32 1 2 2 1 3 1 "cls_token"
              (mkTensor [2; 1] [1; 2]%R) (mkTensor [2; 2; 1] [1; 2; 3; 4]%R)
              (mkTensor [2; 2] [1; 1; 1; 0]%Z) (mkTensor [2; 1] [3; 2]%Z)
              (mkTensor [2] [2; 1]%Z) (mkTensor [2] [1; 2]%Z) (mkTensor [2] [0; 1]%Z)
              2 2)
    as (out & Hok & Hports); try reflexivity; try lia.
  - repeat constructor; lia.
  - by left.
  - exists out. split; [exact Hok|].
    destruct (Hports "req_slot_mask" ["B"; "T"] (dim (out_req_slot_mask out)))
      as (_ & Hm & _).
    + unfold output_ports. rewrite !elem_of_cons. tauto.
    + unfold output_dims. rewrite !elem_of_cons. tauto.
    + by apply Hm.
Defined.

End model_extra.

(** ** More on the decoder *)

Module callback_extra.
Import torch torch_facts torch_more sgd_callback callback_facts.


(** The first greatest entry is preserved by a strictly increasing map. *)
Lemma argmax_from_fmap (f : R → R) (l : list R) (bi : nat) (b : R) (i : nat) :
  (∀ x y, (x < y)%R ↔ (f x < f y)%R) →
  argmax_from bi (f b) i (f <$> l)
  = ((argmax_from bi b i l).1, f (argmax_from bi b i l).2).
Proof.
  intros Hf. revert bi b i. induction l as [|x l IH]; intros bi b i; [done|].
  rewrite fmap_cons. cbn [argmax_from].
  destruct (Rlt_dec b x) as [Hbx|Hbx], (Rlt_dec (f b) (f x)) as [Hfx|Hfx].
  - apply IH.
  - exfalso. apply Hfx. by apply (proj1 (Hf _ _)).
  - exfalso. apply Hbx. by apply (proj2 (Hf _ _)).
  - apply IH.
Qed.

Lemma list_argmax_fmap (f : R → R) (l : list R) :
  (∀ x y, (x < y)%R ↔ (f x < f y)%R) →
  list_argmax (f <$> l) = (λ r, (r.1, f r.2)) <$> list_argmax l.
Proof.
  intros Hf. destruct l as [|x l]; [done|]. rewrite fmap_cons. cbn [list_argmax].
  by rewrite argmax_from_fmap.
Qed.

Lemma sum_exp_pos (l : list R) : l ≠ [] → (0 < sum_list_R (exp <$> l))%R.
Proof.
  destruct l as [|x l]; [done|]. intros _.
  assert (Hall : Forall (λ y, 0 < y)%R (exp <$> (x :: l))).
  { apply Forall_fmap, Forall_forall. intros y _. apply exp_pos. }
  destruct (sum_list_R_elem _ (exp x) Hall); [|lra].
  rewrite fmap_cons. apply list_elem_of_here.
Qed.

Lemma scaled_exp_increasing (z : R) :
  (0 < z)%R → ∀ x y, (x < y)%R ↔ (exp x / z < exp y / z)%R.
Proof.
  intros Hz x y. split.
  - intros Hxy. apply Rmult_lt_compat_r; [by apply Rinv_0_lt_compat|].
    by apply exp_increasing.
  - intros Hxy. apply exp_lt_inv.
    apply (Rmult_lt_reg_r (/ z)); [by apply Rinv_0_lt_compat|]. exact Hxy.
Qed.

(** A row of the softmax is the row of the logits, exponentiated and
    divided by the sum of the exponentials. *)
Lemma row_softmax (t : tensor R) sh K idx :
  size t = sh ++ [K] → in_bounds sh idx →
  row (softmax t) idx
  = (λ x, exp x / sum_list_R (exp <$> row t idx))%R <$> row t idx.
Proof.
  intros Hsz Hidx. unfold softmax. rewrite row_build.
  - rewrite Hsz. unfold row at 3. rewrite Hsz, <- list_fmap_compose.
    apply list_fmap_ext. intros ? j _. simpl. by rewrite lead_snoc.
  - rewrite Hsz. by destruct sh.
  - by rewrite Hsz, lead_snoc.
Qed.

(** [torch.argmax] of the logits and [torch.max] of their softmax pick the
    same class. *)
Lemma argmax_softmax_spec (t : tensor R) sh K :
  size t = sh ++ [K] → 0 < K →
  ∃ a p,
    argmax t = Ok a ∧ max_values (softmax t) = Ok p
    ∧ size a = sh ∧ wf a ∧ size p = sh ∧ wf p
    ∧ ∀ idx, in_bounds sh idx →
        ∃ k, k < K
          ∧ item a idx = Z.of_nat k
          ∧ item p idx = item (softmax t) (idx ++ [k])
          ∧ (∀ k', k' < K → (item t (idx ++ [k']) <= item t (idx ++ [k]))%R)
          ∧ (∀ k', k' < k → (item t (idx ++ [k']) < item t (idx ++ [k]))%R).
Proof.
  intros Hsz HK. unfold argmax, max_values.
  assert (Hld : last_dim (size t) = K) by (unfold last_dim; by rewrite Hsz, last_snoc).
  rewrite !reduce_last_ok by (try change (size (softmax t)) with (size t); lia).
  change (size (softmax t)) with (size t). rewrite Hsz, lead_snoc.
  eexists _, _. do 2 (split; [reflexivity|]).
  split; [done|]. split; [apply wf_build|]. split; [done|]. split; [apply wf_build|].
  intros idx Hidx. rewrite !item_build by done.
  rewrite (row_softmax t sh K idx Hsz Hidx).
  assert (Hne : row t idx ≠ []).
  { intros Hnil. apply (f_equal length) in Hnil. rewrite row_length, Hld in Hnil.
    simpl in Hnil. lia. }
  rewrite list_argmax_fmap by (apply scaled_exp_increasing, sum_exp_pos, Hne).
  destruct (list_argmax_is_Some (row t idx) Hne) as [[k v] Hkv]. rewrite Hkv.
  cbn [fmap option_fmap option_map fst snd].
  apply list_argmax_spec in Hkv as (Hk & Hmax & Hfirst).
  apply row_lookup_lt in Hk as [Hklt ->]. rewrite Hld in Hklt.
  exists k. split; [done|]. split; [done|]. split; [|split].
  - unfold softmax. rewrite item_build
      by (rewrite Hsz; apply in_bounds_app; [done|solve_in_bounds]).
    by rewrite lead_snoc.
  - intros k' Hk'. apply Hmax. apply list_elem_of_lookup. exists k'.
    apply row_lookup. by rewrite Hld.
  - intros k' Hk'. apply (Hfirst k'); [done|]. apply row_lookup. rewrite Hld. lia.
Qed.


(** X11.  For start and end logits of size [(B, N, T)] the span decoded
    for a slot is the best span: its confidence is the sum of the start
    probability at its start index and the end probability at its end
    index, no span with start index at most the end index has a greater
    sum, and every such span that comes earlier in row-major order (a
    smaller start index, or the same start index and a smaller end index)
    has a strictly smaller sum, so ties go to the earliest span. *)
Theorem noncat_span_optimal ls le B N T :
  size ls = [B; N; T] → size le = [B; N; T] → 0 < N → 0 < T →
  ∃ p st en,
    noncat_span ls le = Ok (p, st, en, B)
    ∧ ∀ b s, b < B → s < N →
        ∃ i j, i ≤ j < T
          ∧ item st [b; s] = Z.of_nat i ∧ item en [b; s] = Z.of_nat j
          ∧ item p [b; s] = (item (softmax ls) [b; s; i] + item (softmax le) [b; s; j])%R
          ∧ (∀ i' j', i' ≤ j' < T →
               (item (softmax ls) [b; s; i'] + item (softmax le) [b; s; j']
                <= item p [b; s])%R)
          ∧ (∀ i' j', i' ≤ j' < T → i' < i ∨ (i' = i ∧ j' < j) →
               (item (softmax ls) [b; s; i'] + item (softmax le) [b; s; j']
                < item p [b; s])%R).
Proof.
  intros Hls Hle HN HT.
  destruct (noncat_span_spec ls le B N T Hls Hle HN HT)
    as (total & p & st & en & Hsc & Hrec & Hspan & _ & _ & _ & _ & Hcell).
  destruct (span_scores_spec ls le B N T Hls Hle) as (total' & Hsc' & Hsz & Hitem).
  rewrite Hsc in Hsc'. simplify_eq.
  exists p, st, en. split; [exact Hspan|]. intros b s Hb Hs.
  destruct (span_recovery_first_max _ _ _ _ _ _ _ b s Hsz HN HT Hrec Hb Hs)
    as (i & j & Hi & Hj & Hst & Hen & Hp & Hmax & Hfirst).
  destruct (Hcell b s Hb Hs) as (i0 & j0 & Hij0 & Hst0 & Hen0 & Hp0).
  assert (i0 = i) as -> by lia. assert (j0 = j) as -> by lia.
  exists i, j. do 4 (split; [done|]). split.
  - intros i' j' Hij'. rewrite Hp.
    pose proof (Hmax i' j' ltac:(lia) ltac:(lia)) as Hm.
    rewrite (Hitem b s i' j') in Hm by lia.
    by rewrite bool_decide_eq_false_2 in Hm by lia.
  - intros i' j' Hij' Hlex. rewrite Hp.
    pose proof (Hfirst i' j' ltac:(lia) ltac:(lia) ltac:(nia)) as Hm.
    rewrite (Hitem b s i' j') in Hm by lia.
    by rewrite bool_decide_eq_false_2 in Hm by lia.
Qed.

Lemma noncat_span_optimal_witness :
  ∃ p st en,
    noncat_span unit_logits unit_logits = Ok (p, st, en, 1)
    ∧ item st [0; 0] = 0%Z ∧ item en [0; 0] = 0%Z.
Proof.
  destruct (noncat_span_optimal unit_logits unit_logits 1 1 1)
    as (p & st & en & Hok & Hcell); try reflexivity; try lia.
  exists p, st, en. split; [exact Hok|].
  destruct (Hcell 0 0) as (i & j & Hij & Hst & Hen & _); [lia|lia|].
  rewrite Hst, Hen. split; lia.
Defined.


(** The dict that [decode] builds from the results of its steps. *)
Lemma decode_ok example_id output ai ac pc av pv an pn p st en B :
  argmax (logit_intent_status output) = Ok ai →
  argmax (logit_cat_slot_status output) = Ok ac →
  max_values (softmax (logit_cat_slot_status output)) = Ok pc →
  argmax (logit_cat_slot_value output) = Ok av →
  max_values (softmax (logit_cat_slot_value output)) = Ok pv →
  argmax (logit_noncat_slot_status output) = Ok an →
  max_values (softmax (logit_noncat_slot_status output)) = Ok pn →
  noncat_span (logit_noncat_slot_start output) (logit_noncat_slot_end output)
  = Ok (p, st, en, B) →
  decode example_id output
  = Ok ([("example_id", VStrs example_id);
         ("service_id", VInt (service_id output));
         ("is_real_example", VInt (is_real_example output));
         ("intent_status", VInt ai);
         ("req_slot_status", VFloat (Sigmoid (logit_req_slot_status output)));
         ("cat_slot_status", VInt ac);
         ("cat_slot_status_p", VFloat pc);
         ("cat_slot_value", VInt av);
         ("cat_slot_value_p", VFloat pv);
         ("noncat_slot_status", VInt an);
         ("noncat_slot_status_p", VFloat pn);
         ("noncat_slot_p", VFloat p);
         ("noncat_slot_start", VInt st);
         ("noncat_slot_end", VInt en);
         ("noncat_alignment_start", VInt (start_char_idx output));
         ("noncat_alignment_end", VInt (end_char_idx output));
         ("cat_slot_status_GT", VInt (categorical_slot_status output));
         ("noncat_slot_status_GT", VInt (noncategorical_slot_status output))],
        B).
Proof.
  intros Hai Hac Hpc Hav Hpv Han Hpn Hspan. unfold decode.
  rewrite Hai, bind_Ok, Hac, bind_Ok, Hpc, bind_Ok, Hav, bind_Ok, Hpv, bind_Ok.
  by rewrite Han, bind_Ok, Hpn, bind_Ok, Hspan, bind_Ok.
Qed.

Lemma last_dim_snoc sh K : last_dim (sh ++ [K]) = K.
Proof. unfold last_dim. by rewrite last_snoc. Qed.

(** X12.  On logits whose class dimensions are not empty, [decode] stores
    under [intent_status], [cat_slot_status], [cat_slot_value] and
    [noncat_slot_status] one class index per row of the corresponding
    logits: an index within the class dimension at which the logit is the
    greatest of its row, and the first such index when several logits are
    equally great. *)
Theorem decode_predicted_classes example_id output shi Ki shc Kc shv Kv shn Kn B N T :
  size (logit_intent_status output) = shi ++ [Ki] → 0 < Ki →
  size (logit_cat_slot_status output) = shc ++ [Kc] → 0 < Kc →
  size (logit_cat_slot_value output) = shv ++ [Kv] → 0 < Kv →
  size (logit_noncat_slot_status output) = shn ++ [Kn] → 0 < Kn →
  size (logit_noncat_slot_start output) = [B; N; T] →
  size (logit_noncat_slot_end output) = [B; N; T] → 0 < N → 0 < T →
  ∃ predictions ai ac av an,
    decode example_id output = Ok (predictions, B)
    ∧ dict_get "intent_status" predictions = Some (VInt ai)
    ∧ dict_get "cat_slot_status" predictions = Some (VInt ac)
    ∧ dict_get "cat_slot_value" predictions = Some (VInt av)
    ∧ dict_get "noncat_slot_status" predictions = Some (VInt an)
    ∧ size ai = shi ∧ size ac = shc ∧ size av = shv ∧ size an = shn
    ∧ (∀ idx, in_bounds shi idx →
         ∃ k, item ai idx = Z.of_nat k
              ∧ first_greatest (logit_intent_status output) idx k)
    ∧ (∀ idx, in_bounds shc idx →
         ∃ k, item ac idx = Z.of_nat k
              ∧ first_greatest (logit_cat_slot_status output) idx k)
    ∧ (∀ idx, in_bounds shv idx →
         ∃ k, item av idx = Z.of_nat k
              ∧ first_greatest (logit_cat_slot_value output) idx k)
    ∧ (∀ idx, in_bounds shn idx →
         ∃ k, item an idx = Z.of_nat k
              ∧ first_greatest (logit_noncat_slot_status output) idx k).
Proof.
  intros Hi HKi Hc HKc Hv HKv Hn HKn Hls Hle HN HT.
  destruct (argmax_softmax_spec _ shi Ki Hi HKi)
    as (ai & pi & Hai & _ & Hais & _ & _ & _ & Hipick).
  destruct (argmax_softmax_spec _ shc Kc Hc HKc)
    as (ac & pc & Hac & Hpc & Hacs & _ & _ & _ & Hcpick).
  destruct (argmax_softmax_spec _ shv Kv Hv HKv)
    as (av & pv & Hav & Hpv & Havs & _ & _ & _ & Hvpick).
  destruct (argmax_softmax_spec _ shn Kn Hn HKn)
    as (an & pn & Han & Hpn & Hans & _ & _ & _ & Hnpick).
  destruct (noncat_span_spec _ _ B N T Hls Hle HN HT)
    as (total & p & st & en & _ & _ & Hspan & _).
  eexists _, ai, ac, av, an.
  split; [exact (decode_ok example_id output _ _ _ _ _ _ _ _ _ _ _
                   Hai Hac Hpc Hav Hpv Han Hpn Hspan)|].
  do 4 (split; [reflexivity|]). do 4 (split; [done|]).
  unfold first_greatest. rewrite Hi, Hc, Hv, Hn, !last_dim_snoc.
  split; [|split; [|split]]; intros idx Hidx.
  - destruct (Hipick idx Hidx) as (k & ? & ? & _ & ? & ?). by exists k.
  - destruct (Hcpick idx Hidx) as (k & ? & ? & _ & ? & ?). by exists k.
  - destruct (Hvpick idx Hidx) as (k & ? & ? & _ & ? & ?). by exists k.
  - destruct (Hnpick idx Hidx) as (k & ? & ? & _ & ? & ?). by exists k.
Qed.

Lemma decode_predicted_classes_witness :
  ∃ predictions ai,
    decode [] one_token_output = Ok (predictions, 1)
    ∧ dict_get "intent_status" predictions = Some (VInt ai)
    ∧ item ai [0] = 0%Z.
Proof.
  destruct (decode_predicted_classes [] one_token_output [1] 1 [1; 1] 1 [1; 1] 1
              [1; 1] 1 1 1 1)
    as (predictions & ai & ac & av & an & Hd & Hi & _ & _ & _ & _ & _ & _ & _
        & Hpick & _); try reflexivity; try lia.
  exists predictions, ai. do 2 (split; [done|]).
  destruct (Hpick [0]) as (k & -> & Hk & _); [solve_in_bounds|].
  change (last_dim (size (logit_intent_status one_token_output))) with 1 in Hk. lia.
Defined.

(** X13.  The confidence [decode] stores next to a predicted class is the
    softmax probability of that very class: although the class is taken
    from the logits and the confidence from the softmax of the logits,
    [cat_slot_status_p], [cat_slot_value_p] and [noncat_slot_status_p]
    are, row by row, the entry of the softmax at the index stored under
    [cat_slot_status], [cat_slot_value] and [noncat_slot_status]. *)
Theorem decode_confidence_of_predicted_class example_id output
    shi Ki shc Kc shv Kv shn Kn B N T :
  size (logit_intent_status output) = shi ++ [Ki] → 0 < Ki →
  size (logit_cat_slot_status output) = shc ++ [Kc] → 0 < Kc →
  size (logit_cat_slot_value output) = shv ++ [Kv] → 0 < Kv →
  size (logit_noncat_slot_status output) = shn ++ [Kn] → 0 < Kn →
  size (logit_noncat_slot_start output) = [B; N; T] →
  size (logit_noncat_slot_end output) = [B; N; T] → 0 < N → 0 < T →
  ∃ predictions ac pc av pv an pn,
    decode example_id output = Ok (predictions, B)
    ∧ dict_get "cat_slot_status" predictions = Some (VInt ac)
    ∧ dict_get "cat_slot_status_p" predictions = Some (VFloat pc)
    ∧ dict_get "cat_slot_value" predictions = Some (VInt av)
    ∧ dict_get "cat_slot_value_p" predictions = Some (VFloat pv)
    ∧ dict_get "noncat_slot_status" predictions = Some (VInt an)
    ∧ dict_get "noncat_slot_status_p" predictions = Some (VFloat pn)
    ∧ (∀ idx, in_bounds shc idx →
         (0 ≤ item ac idx < Z.of_nat Kc)%Z
         ∧ item pc idx = item (softmax (logit_cat_slot_status output))
                              (idx ++ [Z.to_nat (item ac idx)]))
    ∧ (∀ idx, in_bounds shv idx →
         (0 ≤ item av idx < Z.of_nat Kv)%Z
         ∧ item pv idx = item (softmax (logit_cat_slot_value output))
                              (idx ++ [Z.to_nat (item av idx)]))
    ∧ (∀ idx, in_bounds shn idx →
         (0 ≤ item an idx < Z.of_nat Kn)%Z
         ∧ item pn idx = item (softmax (logit_noncat_slot_status output))
                              (idx ++ [Z.to_nat (item an idx)])).
Proof.
  intros Hi HKi Hc HKc Hv HKv Hn HKn Hls Hle HN HT.
  destruct (argmax_softmax_spec _ shi Ki Hi HKi)
    as (ai & pi & Hai & _ & _ & _ & _ & _ & _).
  destruct (argmax_softmax_spec _ shc Kc Hc HKc)
    as (ac & pc & Hac & Hpc & _ & _ & _ & _ & Hcpick).
  destruct (argmax_softmax_spec _ shv Kv Hv HKv)
    as (av & pv & Hav & Hpv & _ & _ & _ & _ & Hvpick).
  destruct (argmax_softmax_spec _ shn Kn Hn HKn)
    as (an & pn & Han & Hpn & _ & _ & _ & _ & Hnpick).
  destruct (noncat_span_spec _ _ B N T Hls Hle HN HT)
    as (total & p & st & en & _ & _ & Hspan & _).
  eexists _, ac, pc, av, pv, an, pn.
  split; [exact (decode_ok example_id output _ _ _ _ _ _ _ _ _ _ _
                   Hai Hac Hpc Hav Hpv Han Hpn Hspan)|].
  do 6 (split; [reflexivity|]).
  split; [|split]; intros idx Hidx.
  - destruct (Hcpick idx Hidx) as (k & Hk & -> & Hp & _).
    rewrite Nat2Z.id. split; [lia|done].
  - destruct (Hvpick idx Hidx) as (k & Hk & -> & Hp & _).
    rewrite Nat2Z.id. split; [lia|done].
  - destruct (Hnpick idx Hidx) as (k & Hk & -> & Hp & _).
    rewrite Nat2Z.id. split; [lia|done].
Qed.

Lemma decode_confidence_of_predicted_class_witness :
  ∃ predictions pc,
    decode [] one_token_output = Ok (predictions, 1)
    ∧ dict_get "cat_slot_status_p" predictions = Some (VFloat pc)
    ∧ item pc [0; 0] = 1%R.
Proof.
  destruct (decode_confidence_of_predicted_class [] one_token_output [1] 1 [1; 1] 1
              [1; 1] 1 [1; 1] 1 1 1 1)
    as (predictions & ac & pc & av & pv & an & pn & Hd & _ & Hpc & _ & _ & _ & _
        & Hpick & _); try reflexivity; try lia.
  exists predictions, pc. do 2 (split; [done|]).
  destruct (Hpick [0; 0]) as [Hr Hp]; [solve_in_bounds|].
  rewrite Hp. replace (Z.to_nat (item ac [0; 0])) with 0 by lia.
  apply softmax_unit_logits.
Defined.


Lemma wf_tmap {A C} (f : A → C) (t : tensor A) : wf t → wf (tmap f t).
Proof. unfold wf, tmap. simpl. by rewrite length_fmap. Qed.

Lemma replicate_empty_records (n : nat) :
  replicate n (∅ : gmap string value) = (λ _, ∅) <$> seq 0 n.
Proof.
  apply list_eq. intros i. rewrite list_lookup_fmap.
  destruct (decide (i < n)).
  - by rewrite lookup_replicate_2, lookup_seq_lt.
  - rewrite lookup_seq_ge by lia. apply lookup_replicate_None. lia.
Qed.

(** X14.  On a well-shaped step of [B >= 1] examples (every tensor has [B]
    leading entries, the class dimensions are not empty, there is at least
    one non-categorical slot and one token, and there are [B] example ids)
    [eval_iter_callback] succeeds and leaves in [global_vars['predictions']]
    the records that were there, unchanged and in order, followed by
    exactly [B] new records.  New record [i] has exactly the keys of the
    decoded dict, and holds under each key the [i]-th slice of the decoded
    value.  A first call, without the key [predictions] in [global_vars],
    behaves as a call with an empty list. *)
Theorem eval_iter_callback_appends example_id output global_vars
    si Ki sc Kc sv Kv sn Kn B N T :
  0 < B → length example_id = B →
  size (logit_intent_status output) = (B :: si) ++ [Ki] → 0 < Ki →
  size (logit_cat_slot_status output) = (B :: sc) ++ [Kc] → 0 < Kc →
  size (logit_cat_slot_value output) = (B :: sv) ++ [Kv] → 0 < Kv →
  size (logit_noncat_slot_status output) = (B :: sn) ++ [Kn] → 0 < Kn →
  size (logit_noncat_slot_start output) = [B; N; T] →
  size (logit_noncat_slot_end output) = [B; N; T] → 0 < N → 0 < T →
  wf (logit_req_slot_status output) →
  head (size (logit_req_slot_status output)) = Some B →
  Forall (λ t, wf t ∧ head (size t) = Some B)
         [service_id output; is_real_example output; start_char_idx output;
          end_char_idx output; categorical_slot_status output;
          noncategorical_slot_status output] →
  ∃ predictions new,
    decode example_id output = Ok (predictions, B)
    ∧ eval_iter_callback example_id output global_vars
      = Ok (default [] global_vars ++ new)
    ∧ eval_iter_callback example_id output None = Ok new
    ∧ length new = B
    ∧ ∀ i, i < B →
        ∃ d, new !! i = Some d
          ∧ d !! "example_id" = Some (VStr (example_id !!! i))
          ∧ ∀ k, d !! k = (λ v, slice_of v i) <$> dict_get k predictions.
Proof.
  intros HB Hids Hi HKi Hc HKc Hv HKv Hn HKn Hls Hle HN HT Hrwf Hrhd Hlabels.
  destruct (argmax_softmax_spec _ _ Ki Hi HKi)
    as (ai & pi & Hai & _ & Hais & Haiwf & _ & _ & _).
  destruct (argmax_softmax_spec _ _ Kc Hc HKc)
    as (ac & pc & Hac & Hpc & Hacs & Hacwf & Hpcs & Hpcwf & _).
  destruct (argmax_softmax_spec _ _ Kv Hv HKv)
    as (av & pv & Hav & Hpv & Havs & Havwf & Hpvs & Hpvwf & _).
  destruct (argmax_softmax_spec _ _ Kn Hn HKn)
    as (an & pn & Han & Hpn & Hans & Hanwf & Hpns & Hpnwf & _).
  destruct (noncat_span_spec _ _ B N T Hls Hle HN HT)
    as (total & p & st & en & Hsc & Hrec & Hspan & Hps & Hsts & Hens & Hpwf & _).
  assert (Hstwf : wf st ∧ wf en).
  { destruct (span_scores_spec _ _ B N T Hls Hle) as (total' & Hsc' & Hsz & _).
    rewrite Hsc in Hsc'. injection Hsc' as <-.
    rewrite (span_recovery_ok total B N T Hsz HN HT) in Hrec.
    injection Hrec as <- <- <-.
    split; apply wf_tmap, wf_build. }
  destruct Hstwf as [Hstwf Henwf].
  pose proof (decode_ok example_id output _ _ _ _ _ _ _ _ _ _ _
                Hai Hac Hpc Hav Hpv Han Hpn Hspan) as Hd.
  set (predictions := [("example_id", VStrs example_id); _; _; _; _; _; _; _; _; _; _;
                       _; _; _; _; _; _; _]) in Hd.
  assert (Hall : Forall (batched B) predictions).
  { rewrite !Forall_cons, Forall_nil in Hlabels.
    destruct Hlabels as ([? ?] & [? ?] & [? ?] & [? ?] & [? ?] & [? ?] & _).
    unfold predictions, batched. rewrite !Forall_cons, Forall_nil. cbn [fst snd].
    rewrite Hais, Hacs, Havs, Hans, Hpcs, Hpvs, Hpns, Hps, Hsts, Hens.
    repeat split; try done; by apply wf_tmap. }
  assert (Hcomb : combine_predictions_in_example predictions B
                  = Ok ((λ i, record_of ∅ predictions i) <$> seq 0 B)).
  { unfold combine_predictions_in_example. rewrite replicate_empty_records.
    by apply (combine_predictions_fold B predictions (λ _, ∅)). }
  exists predictions, ((λ i, record_of ∅ predictions i) <$> seq 0 B).
  split; [exact Hd|].
  unfold eval_iter_callback. rewrite Hd, !bind_Ok, Hcomb, !bind_Ok.
  do 2 (split; [done|]). split; [by rewrite length_fmap, length_seq|].
  intros i Hi'. eexists. rewrite list_lookup_fmap, lookup_seq_lt by done.
  split; [reflexivity|]. split.
  - rewrite record_of_lookup. reflexivity.
  - intros k. rewrite record_of_lookup. by destruct (dict_get k predictions).
Qed.

Lemma eval_iter_callback_appends_witness :
  ∃ new,
    eval_iter_callback ["dev-1_00000-00-Restaurants_1"] one_token_output None = Ok new
    ∧ length new = 1.
Proof.
  destruct (eval_iter_callback_appends ["dev-1_00000-00-Restaurants_1"]
              one_token_output None [] 1 [1] 1 [1] 1 [1] 1 1 1 1)
    as (predictions & new & _ & _ & Hnew & Hlen & _); try reflexivity; try lia.
  - repeat constructor.
  - exists new. by split.
Defined.


Lemma chunk_short {A} (t : tensor A) (n d : nat) rest :
  size t = d :: rest → 0 < d ≤ n →
  chunk t n = Ok ((λ i, narrow0 t i 1) <$> seq 0 d).
Proof.
  intros Hsz Hd. unfold chunk. rewrite Hsz.
  rewrite bool_decide_eq_false_2 by lia. rewrite Nat2Z.id.
  assert ((d + n - 1) / n = 1) as ->.
  { symmetry. apply Nat.div_unique with (d - 1); lia. }
  rewrite bool_decide_eq_false_2 by lia.
  replace (d + 1 - 1) with d by lia. rewrite Nat.div_1_r.
  replace (d `max` 1) with d by lia.
  f_equal. apply list_fmap_ext. intros j i Hi%list_elem_of_lookup_2.
  apply elem_of_seq in Hi. f_equal; lia.
Qed.

Lemma foldl_Raise {St X} (f : X → St → result St) (e : exn) (l : list X) :
  foldl (λ acc x, s ← acc; f x s) (Raise e) l = Raise e.
Proof. induction l as [|x l IH]; [done|]. simpl. exact IH. Qed.

(** A loop whose body fails at step [i0], after steps that keep [P]. *)
Lemma for_range_fail {St} (n : nat) (body : nat → St → result St)
    (P : St → Prop) (s : St) (i0 : nat) (e : exn) :
  i0 < n → P s →
  (∀ i s, i < i0 → P s → ∃ s', body i s = Ok s' ∧ P s') →
  (∀ s, P s → body i0 s = Raise e) →
  for_range n body s = Raise e.
Proof.
  intros Hi0 Hs Hok Hfail. unfold for_range.
  replace n with (i0 + S (n - S i0)) by lia.
  rewrite seq_app, foldl_app. cbn [seq foldl].
  assert (Hpre : ∃ s', foldl (λ acc i, s' ← acc; body i s') (Ok s) (seq 0 i0) = Ok s'
                       ∧ P s').
  { clear Hfail Hi0. induction i0 as [|i0 IH].
    - exists s. by split.
    - destruct IH as (s' & Hs' & HP); [intros i s0 Hi; apply Hok; lia|].
      rewrite seq_S, foldl_snoc, Hs', bind_Ok. apply Hok; [lia|done]. }
  destruct Hpre as (s' & -> & HP). rewrite bind_Ok, Nat.add_0_l, (Hfail s' HP).
  apply foldl_Raise.
Qed.

Lemma set_item_ok (i : nat) (k : string) (x : value) ep :
  i < length ep →
  ∃ ep', set_item i k x ep = Ok ep' ∧ length ep' = length ep.
Proof.
  intros Hi. unfold set_item.
  destruct (lookup_lt_is_Some_2 ep i Hi) as [d ->].
  eexists. split; [reflexivity|]. by rewrite length_insert.
Qed.

Lemma combine_column_too_short (n : nat) (k : string) (v : value) ep :
  length ep = n → too_short n (k, v) →
  combine_column n k v ep = Raise IndexError.
Proof.
  intros Hep Hv. unfold combine_column, too_short in *. cbn [fst snd] in Hv.
  destruct v as [l|s|t|t]; [|done| |].
  - destruct Hv as [-> Hlen]. rewrite bool_decide_eq_false_2 by (intros H; by apply H).
    apply (for_range_fail n _ (λ ep, length ep = n) ep (length l)); [done|done| |].
    + intros i ep' Hi Hep'. unfold get_item.
      destruct (lookup_lt_is_Some_2 l i Hi) as [x ->]. rewrite bind_Ok.
      destruct (set_item_ok i "example_id" (VStr x) ep') as (ep'' & -> & Hlen'); [lia|].
      exists ep''. split; [done|lia].
    + intros ep' _. unfold get_item. by rewrite lookup_ge_None_2.
  - destruct Hv as (Hk & d & Hhd & Hd). rewrite bool_decide_eq_true_2 by done.
    destruct (size t) as [|d' rest] eqn:Hsize; [done|]. simpl in Hhd. injection Hhd as ->.
    rewrite (chunk_short t n d rest), bind_Ok by (done || lia).
    apply (for_range_fail n _ (λ ep, length ep = n) ep d); [lia|done| |].
    + intros i ep' Hi Hep'. unfold get_item.
      rewrite list_lookup_fmap, lookup_seq_lt by done.
      cbn [fmap option_fmap option_map]. rewrite bind_Ok.
      rewrite view_flat_narrow0, bind_Ok.
      match goal with
      | |- context [set_item i k ?x ep'] =>
          destruct (set_item_ok i k x ep') as (ep'' & -> & Hlen'); [lia|]
      end.
      exists ep''. split; [done|lia].
    + intros ep' _. unfold get_item.
      rewrite list_lookup_fmap, lookup_seq_ge by lia. done.
  - destruct Hv as (Hk & d & Hhd & Hd). rewrite bool_decide_eq_true_2 by done.
    destruct (size t) as [|d' rest] eqn:Hsize; [done|]. simpl in Hhd. injection Hhd as ->.
    rewrite (chunk_short t n d rest), bind_Ok by (done || lia).
    apply (for_range_fail n _ (λ ep, length ep = n) ep d); [lia|done| |].
    + intros i ep' Hi Hep'. unfold get_item.
      rewrite list_lookup_fmap, lookup_seq_lt by done.
      cbn [fmap option_fmap option_map]. rewrite bind_Ok.
      rewrite view_flat_narrow0, bind_Ok.
      match goal with
      | |- context [set_item i k ?x ep'] =>
          destruct (set_item_ok i k x ep') as (ep'' & -> & Hlen'); [lia|]
      end.
      exists ep''. split; [done|lia].
    + intros ep' _. unfold get_item.
      rewrite list_lookup_fmap, lookup_seq_ge by lia. done.
Qed.

(** X15.  [combine_predictions_in_example] indexes every column with
    [range(batch_size)]: when the columns before it are well batched and a
    column has fewer leading entries than the batch size (an [example_id]
    list shorter than [batch_size], or a tensor with [0 < d < batch_size]
    rows, which [torch.chunk] splits into [d] chunks only), the call raises
    [IndexError] and returns no record, whatever columns follow. *)
Theorem combine_predictions_too_few_entries pre kv post n :
  0 < n → Forall (batched n) pre → too_short n kv →
  combine_predictions_in_example (pre ++ kv :: post) n = Raise IndexError.
Proof.
  intros Hn Hpre Hkv. unfold combine_predictions_in_example.
  rewrite foldl_app, replicate_empty_records.
  rewrite (combine_predictions_fold n pre (λ _, ∅)) by done.
  cbn [foldl]. rewrite bind_Ok. destruct kv as [k v]. cbn [fst snd].
  rewrite combine_column_too_short; [|by rewrite length_fmap, length_seq|done].
  apply foldl_Raise.
Qed.

Lemma combine_predictions_too_few_entries_witness :
  combine_predictions_in_example
    [("example_id", VStrs ["a"; "b"]);
     ("intent_status", VInt (mkTensor [1] [1%Z]));
     ("service_id", VInt (mkTensor [2] [0; 0]%Z))] 2
  = Raise IndexError.
Proof.
  apply (combine_predictions_too_few_entries
           [("example_id", VStrs ["a"; "b"])]
           ("intent_status", VInt (mkTensor [1] [1%Z]))
           [("service_id", VInt (mkTensor [2] [0; 0]%Z))] 2).
  - lia.
  - repeat constructor.
  - split; [done|]. exists 1. split; [reflexivity|lia].
Defined.


(** *** The keys of the collected outputs *)

Lemma prefix_split (s1 s2 : string) :
  String.prefix s1 s2 = true → ∃ b, s2 = s1 +:+ b.
Proof.
  revert s2. induction s1 as [|c s1 IH]; intros s2 Hp.
  - by exists s2.
  - destruct s2 as [|c' s2]; [done|]. simpl in Hp.
    destruct (Ascii.ascii_dec c c') as [->|]; [|done].
    destruct (IH s2 Hp) as [b ->]. by exists b.
Qed.

Lemma prefix_app (s1 b : string) : String.prefix s1 (s1 +:+ b) = true.
Proof.
  induction s1 as [|c s1 IH]; [by destruct b|]. simpl.
  by destruct (Ascii.ascii_dec c c).
Qed.

Lemma index_Some_split (sub k : string) (m : nat) :
  String.index 0 sub k = Some m → ∃ a b, k = a +:+ sub +:+ b.
Proof.
  revert m. induction k as [|c k IH]; intros m Hm.
  - simpl in Hm. destruct sub; [|done]. by exists "", "".
  - cbn [String.index] in Hm. destruct (String.prefix sub (String c k)) eqn:Hp.
    + apply prefix_split in Hp as [b Hb]. exists "", b. exact Hb.
    + destruct (String.index 0 sub k) as [n|] eqn:Hn; [|done].
      destruct (IH n eq_refl) as (a & b & ->). exists (String c a), b. reflexivity.
Qed.

Lemma index_app_is_Some (sub a b : string) :
  is_Some (String.index 0 sub (a +:+ sub +:+ b)).
Proof.
  induction a as [|c a IH].
  - change ("" +:+ sub +:+ b) with (sub +:+ b).
    pose proof (prefix_app sub b) as Hp.
    destruct (sub +:+ b) as [|c s] eqn:Hsb.
    + destruct sub; [by eexists|done].
    + cbn [String.index]. rewrite Hp. by eexists.
  - change (String c a +:+ sub +:+ b) with (String c (a +:+ sub +:+ b)).
    cbn [String.index]. destruct (String.prefix sub _); [by eexists|].
    destruct IH as [n ->]. by eexists.
Qed.

Lemma index_prefix (sub b : string) : String.index 0 sub (sub +:+ b) = Some 0.
Proof.
  pose proof (prefix_app sub b) as Hp.
  destruct (sub +:+ b) as [|c s] eqn:Hsb.
  - by destruct sub.
  - cbn [String.index]. by rewrite Hp.
Qed.

Lemma index_no_tilde (name suffix : string) :
  String.index 0 "~" name = None →
  String.index 0 "~~~" (name +:+ "~~~" +:+ suffix) = Some (String.length name).
Proof.
  induction name as [|c name IH]; intros Hn.
  { change ("" +:+ "~~~" +:+ suffix) with ("~~~" +:+ suffix). apply index_prefix. }
  change (String c name +:+ "~~~" +:+ suffix) with (String c (name +:+ "~~~" +:+ suffix)).
  cbn [String.index String.prefix String.length] in Hn |- *.
  match goal with
  | |- context [Ascii.ascii_dec ?a c] => destruct (Ascii.ascii_dec a c) as [->|Hc]
  end.
  - by destruct name.
  - destruct (String.index 0 "~" name) as [n|] eqn:Hname; [done|].
    by rewrite IH.
Qed.

Lemma substring_app_length (a b : string) :
  String.substring 0 (String.length a) (a +:+ b) = a.
Proof.
  induction a as [|c a IH]; [by destruct b|]. simpl. by rewrite IH.
Qed.

Lemma collect_outputs_snoc `{Inhabited A} (tensors : list (string * list (tensor A)))
    (k : string) (v : list (tensor A)) out :
  collect_outputs tensors = Ok out →
  collect_outputs (tensors ++ [(k, v)])
  = if bool_decide (find k "~~~" ≠ (-1)%Z) then
      t ← cat_list v;
      Ok (<[String.substring 0 (Z.to_nat (find k "~~~")) k := t]> out)
    else Ok out.
Proof.
  intros Hout. unfold collect_outputs in *. by rewrite foldl_snoc, Hout, bind_Ok.
Qed.

(** [torch.cat] skips an empty one-dimensional tensor, whatever the size
    of the tensor next to it. *)
Lemma cat_list_skips_empty `{Inhabited A} (t : tensor A) :
  dim t ≠ 0 → size t ≠ [0] → cat_list [mkTensor [0] []; t] = Ok t.
Proof.
  intros Hd Hs. unfold cat_list.
  rewrite bool_decide_eq_false_2.
  2:{ rewrite !Exists_cons, Exists_nil. intros [Hx|[Hx|[]]]; [done|by apply Hd]. }
  rewrite !filter_cons, filter_nil.
  destruct (decide (size (mkTensor [0] ([] : list A)) ≠ [0])) as [Hx|_]; [by destruct Hx|].
  by destruct (decide (size t ≠ [0])).
Qed.

(** X16.  [eval_iter_callback] collects its tensors by key (lines 34-38).
    An entry whose key does not contain [~~~] is ignored, even when its
    tensors cannot be concatenated.  An entry whose key is a name without
    [~], then [~~~], then anything, is stored under the name alone, with
    its tensors concatenated, and replaces what an earlier entry stored
    under that name.  An entry whose key contains [~~~] and whose tensors
    [torch.cat] rejects makes the call raise what [torch.cat] raises; an
    empty one-dimensional tensor next to tensors of another size is not
    such a case, it is skipped. *)
Theorem collect_outputs_keys `{Inhabited A} (tensors : list (string * list (tensor A)))
    (k : string) (v : list (tensor A)) out :
  collect_outputs tensors = Ok out →
  ((∀ a b, k ≠ a +:+ "~~~" +:+ b) →
     collect_outputs (tensors ++ [(k, v)]) = Ok out)
  ∧ (∀ name suffix t,
       k = name +:+ "~~~" +:+ suffix → String.index 0 "~" name = None →
       cat_list v = Ok t →
       collect_outputs (tensors ++ [(k, v)]) = Ok (<[name := t]> out))
  ∧ (∀ a b e,
       k = a +:+ "~~~" +:+ b → cat_list v = Raise e →
       collect_outputs (tensors ++ [(k, v)]) = Raise e)
  ∧ (∀ name suffix t,
       k = name +:+ "~~~" +:+ suffix → String.index 0 "~" name = None →
       v = [mkTensor [0] []; t] → dim t ≠ 0 → size t ≠ [0] →
       collect_outputs (tensors ++ [(k, v)]) = Ok (<[name := t]> out)).
Proof.
  intros Hout. rewrite (collect_outputs_snoc tensors k v out Hout).
  unfold find.
  assert (Hstore : ∀ name suffix t,
            k = name +:+ "~~~" +:+ suffix → String.index 0 "~" name = None →
            cat_list v = Ok t →
            (if bool_decide (match String.index 0 "~~~" k with
                             | Some i => Z.of_nat i
                             | None => (-1)%Z
                             end ≠ (-1)%Z)
             then t0 ← cat_list v;
                  Ok (<[String.substring 0
                          (Z.to_nat match String.index 0 "~~~" k with
                                    | Some i => Z.of_nat i
                                    | None => (-1)%Z
                                    end) k := t0]> out)
             else Ok out) = Ok (<[name := t]> out)).
  { intros name suffix t -> Hname Ht.
    rewrite (index_no_tilde name suffix Hname).
    rewrite bool_decide_eq_true_2 by lia.
    by rewrite Ht, bind_Ok, Nat2Z.id, substring_app_length. }
  split; [|split; [|split]].
  - intros Hk. destruct (String.index 0 "~~~" k) as [m|] eqn:Hm.
    + destruct (index_Some_split _ _ _ Hm) as (a & b & Hab). by destruct (Hk a b).
    + by rewrite bool_decide_eq_false_2 by (intros Hne; by apply Hne).
  - exact Hstore.
  - intros a b e -> He.
    destruct (index_app_is_Some "~~~" a b) as [m ->].
    rewrite bool_decide_eq_true_2 by lia. by rewrite He.
  - intros name suffix t Hk Hname -> Hd Hs.
    apply (Hstore name suffix t Hk Hname). by apply cat_list_skips_empty.
Qed.

Lemma collect_outputs_keys_witness :
  collect_outputs [("logit_intent_status~~~a1",
                    [mkTensor [0] []; mkTensor [1; 2] [1; 2]%R])]
  = Ok (<["logit_intent_status" := mkTensor [1; 2] [1; 2]%R]> ∅).
Proof.
  apply (proj2 (proj2 (proj2 (collect_outputs_keys
                                [] "logit_intent_status~~~a1"
                                [mkTensor [0] []; mkTensor [1; 2] [1; 2]%R] ∅ eq_refl)))
               "logit_intent_status" "a1" (mkTensor [1; 2] [1; 2]%R));
    [reflexivity | reflexivity | reflexivity | discriminate | discriminate].
Defined.

End callback_extra.

(** ** The model's logits under the decoder *)

Module pipeline_extra.
Import torch torch_facts torch_more sgd_model mask_facts model_facts model_extra.
Import sgd_callback callback_facts callback_extra.


Lemma sum_list_R_const (c : R) (k n : nat) :
  sum_list_R ((λ _, c) <$> seq k n) = (INR n * c)%R.
Proof.
  revert k. induction n as [|n IH]; intros k.
  - simpl. lra.
  - cbn [seq fmap list_fmap sum_list_R foldr]. fold (sum_list_R ((λ _, c) <$> seq (S k) n)).
    rewrite IH, S_INR. lra.
Qed.

(** X17.  The intent logits of the model under the decoder's argmax: the
    predicted index is one of the [MI + 1] entries of the row, index [0]
    being NONE; and when some logit of the row is greater than the negative
    sentinel, the predicted index is less than [num_intents[b] + 1] as the
    model computes it in int64, hence at most [num_intents[b]] for every
    int64 count, so that a padded intent is never the prediction. *)
Theorem padded_intent_never_predicted gelu init dt D ns mi mc mv mn mode
    u intents n B MI :
  let self := SGDModel_init gelu init dt D mc mn mode in
  let rest := SGDModelRest_init gelu init D ns mi mc mv mn in
  size u = [B; D] → size intents = [B; MI; D] → size n = [B] → wf n →
  ∃ logits a,
    _get_intents self rest u intents n = Ok logits
    ∧ argmax logits = Ok a
    ∧ size a = [B]
    ∧ ∀ b, b < B →
        (0 ≤ item a [b] ≤ Z.of_nat MI)%Z
        ∧ ((∃ i, i < S MI ∧ (sentinel dt < item logits [b; i])%R) →
           (item a [b] < wrap_int64 (item n [b] + 1))%Z
           ∧ ((int64_min ≤ item n [b] ≤ int64_max)%Z →
              (item a [b] ≤ item n [b])%Z)).
Proof.
  intros self rest Hu Hi Hn Hwf.
  destruct (get_intents_ok gelu init dt D ns mi mc mv mn mode u intents n B MI
              Hu Hi Hn Hwf) as (logits & Hok & Hsz & Hitem).
  destruct (argmax_softmax_spec logits [B] (S MI) Hsz ltac:(lia))
    as (a & p & Ha & _ & Has & _ & _ & _ & Hpick).
  exists logits, a. split; [exact Hok|]. split; [exact Ha|]. split; [exact Has|].
  intros b Hb.
  destruct (Hpick [b]) as (k & Hk & Hak & _ & Hmax & _); [solve_in_bounds|].
  cbn [app] in Hmax. rewrite Hak. split; [lia|].
  intros (i & Hi' & Hgt). specialize (Hmax i Hi').
  rewrite (Hitem b k Hb Hk) in Hmax.
  case_bool_decide as Hvalid; [|lra]. split; [exact Hvalid|].
  intros Hrange. unfold int64_min, int64_max in Hrange.
  destruct (decide (item n [b] = int64_max)) as [Hmax64|Hne].
  - rewrite Hmax64, wrap_int64_overflow in Hvalid. unfold int64_min in Hvalid. lia.
  - unfold int64_max in Hne.
    rewrite wrap_int64_small in Hvalid by (unfold int64_min, int64_max; lia). lia.
Qed.

Lemma padded_intent_never_predicted_witness :
  ∃ logits a,
    _get_intents (SGDModel_init (λ x, x) (λ _ _, 0%R) float32 1 1 1 "cls_token")
                 (SGDModelRest_init (λ x, x) (λ _ _, 0%R) 1 1 2 1 1 1)
                 (mkTensor [1; 1] [1%R]) (mkTensor [1; 2; 1] [1; 2]%R)
                 (mkTensor [1] [1%Z])
    = Ok logits
    ∧ argmax logits = Ok a
    ∧ (0 ≤ item a [0%nat] ≤ 2)%Z.
Proof.
  destruct (padded_intent_never_predicted
              (λ x, x) (λ _ _, 0%R) float32 1 1 2 1 1 1 "cls_token"
              (mkTensor [1; 1] [1%R]) (mkTensor [1; 2; 1] [1; 2]%R)
              (mkTensor [1] [1%Z]) 1 2)
    as (logits & a & Hok & Ha & _ & Hb); try reflexivity.
  exists logits, a. split; [exact Hok|]. split; [exact Ha|].
  destruct (Hb 0) as [Hr _]; [lia|]. exact Hr.
Defined.

(** X18.  The categorical value logits of the model under the decoder: a
    slot whose value count is zero or negative has all its [V] logits equal
    to the sentinel, so the decoder predicts value [0] for it with
    confidence [1 / V]; and for a slot some logit of which is greater than
    the sentinel, the predicted value is one of the slot's values: it is
    less than the count. *)
Theorem empty_categorical_slot_decoding gelu init dt D max_cat max_noncat mode
    u cat_slot_emb emb n B NS V :
  let self := SGDModel_init gelu init dt D max_cat max_noncat mode in
  size u = [B; D] → size emb = [B; NS; V; D] → size n = [B; NS] →
  0 < NS → 0 < V → 0 < D →
  ∃ value_logits a p,
    _get_categorical_slot_values self u cat_slot_emb emb n = Ok value_logits
    ∧ argmax value_logits = Ok a
    ∧ max_values (softmax value_logits) = Ok p
    ∧ ∀ b s, b < B → s < NS →
        ((item n [b; s] ≤ 0)%Z →
           item a [b; s] = 0%Z ∧ item p [b; s] = (1 / INR V)%R)
        ∧ ((∃ v, v < V ∧ (sentinel dt < item value_logits [b; s; v])%R) →
           (0 ≤ item a [b; s] < item n [b; s])%Z).
Proof.
  intros self Hu Hemb Hn HS HV HD.
  destruct (get_categorical_slot_values_ok gelu init dt D max_cat max_noncat mode
              u cat_slot_emb emb n B NS V Hu Hemb Hn HS HV HD)
    as (scores & lv & _ & _ & Hok & Hsz & Hitem).
  destruct (argmax_softmax_spec lv [B; NS] V Hsz HV)
    as (a & p & Ha & Hp & _ & _ & _ & _ & Hpick).
  exists lv, a, p. do 3 (split; [done|]).
  intros b s Hb Hs.
  destruct (Hpick [b; s]) as (k & Hk & Hak & Hpk & Hmax & Hfirst); [solve_in_bounds|].
  cbn [app] in Hpk, Hmax, Hfirst. split.
  - intros Hcount.
    assert (Hall : ∀ v, v < V → item lv [b; s; v] = sentinel dt).
    { intros v Hv. rewrite (Hitem b s v Hb Hs Hv).
      by rewrite bool_decide_eq_false_2 by lia. }
    assert (k = 0) as ->.
    { destruct k as [|k]; [done|]. pose proof (Hfirst 0 ltac:(lia)) as Hlt.
      rewrite !Hall in Hlt by lia. lra. }
    split; [by rewrite Hak|]. rewrite Hpk.
    unfold softmax. rewrite item_build by (rewrite Hsz; solve_in_bounds).
    change (lead [b; s; 0]) with [b; s].
    rewrite (row_ext lv [b; s] (λ _, sentinel dt)).
    2:{ intros j Hj. apply Hall. rewrite Hsz in Hj. exact Hj. }
    rewrite Hsz. change (last_dim [B; NS; V]) with V.
    rewrite <- list_fmap_compose.
    change (exp ∘ (λ _ : nat, sentinel dt)) with (λ _ : nat, exp (sentinel dt)).
    rewrite sum_list_R_const, Hall by done.
    pose proof (exp_pos (sentinel dt)). pose proof (lt_0_INR V HV).
    field. split; lra.
  - intros (v & Hv & Hgt). specialize (Hmax v Hv).
    rewrite (Hitem b s k Hb Hs Hk) in Hmax. rewrite Hak.
    case_bool_decide as Hvalid; [lia|]. lra.
Qed.

Lemma empty_categorical_slot_decoding_witness :
  ∃ value_logits a p,
    _get_categorical_slot_values
      (SGDModel_init (λ x, x) (λ _ _, 0%R) float32 1 2 1 "cls_token")
      (mkTensor [1; 1] [1%R]) (mkTensor [1; 2; 1] [0%R; 0%R])
      (mkTensor [1; 2; 3; 1] [1; 2; 3; 0; 0; 0]%R) (mkTensor [1; 2] [3; 0]%Z)
    = Ok value_logits
    ∧ argmax value_logits = Ok a
    ∧ max_values (softmax value_logits) = Ok p
    ∧ item a [0; 1] = 0%Z ∧ item p [0; 1] = (1 / INR 3%nat)%R.
Proof.
  destruct (empty_categorical_slot_decoding
              (λ x, x) (λ _ _, 0%R) float32 1 2 1 "cls_token"
              (mkTensor [1; 1] [1%R]) (mkTensor [1; 2; 1] [0%R; 0%R])
              (mkTensor [1; 2; 3; 1] [1; 2; 3; 0; 0; 0]%R) (mkTensor [1; 2] [3; 0]%Z)
              1 2 3)
    as (lv & a & p & Hok & Ha & Hp & Hcell); try (reflexivity || lia).
  exists lv, a, p. do 3 (split; [done|]).
  destruct (Hcell 0 1) as [Hz _]; [lia|lia|]. apply Hz. reflexivity.
Defined.


(** [decode] returns on decodable outputs, and stores the sigmoid of the
    logits of the requested slots. *)
Lemma decode_decodable example_id output B N T :
  decodable B N T output →
  ∃ predictions,
    decode example_id output = Ok (predictions, B)
    ∧ dict_get "req_slot_status" predictions
      = Some (VFloat (Sigmoid (logit_req_slot_status output))).
Proof.
  intros (Hi & Hc & Hv & Hn & Hs & He & HN & HT).
  destruct (noncat_span_spec _ _ B N T Hs He HN HT)
    as (total & p & st & en & _ & _ & Hspan & _).
  eexists. split.
  - eapply decode_ok; [unfold argmax, max_values; by apply reduce_last_ok ..|exact Hspan].
  - reflexivity.
Qed.

(** C7.  On outputs whose class dimensions are not empty and whose span
    logits have size [(B, N, T)] with [N, T >= 1], the decoder returns and
    stores under [req_slot_status] the elementwise sigmoid of
    [logit_req_slot_status]: the probability at a position is
    [1 / (1 + exp (- x))] of the logit [x] at that position, so two outputs
    whose logits agree at a position decode to the same probability there,
    whatever their logits elsewhere.  On inputs of sizes [(B, D)],
    [(B, N, D)] and [(B)], [_get_requested_slots] returns, and the logits it
    returns are the scores of its layer, neither masked nor normalised. *)
Theorem req_slot_status_independent :
  (∀ example_id output B N T,
     decodable B N T output →
     ∃ predictions,
       decode example_id output = Ok (predictions, B)
       ∧ dict_get "req_slot_status" predictions
         = Some (VFloat (Sigmoid (logit_req_slot_status output))))
  ∧ (∀ example_id output predictions batch_size,
       decode example_id output = Ok (predictions, batch_size) →
       dict_get "req_slot_status" predictions
       = Some (VFloat (Sigmoid (logit_req_slot_status output))))
  ∧ (∀ logits idx, wf logits → in_bounds (size logits) idx →
       item (Sigmoid logits) idx = (1 / (1 + exp (- item logits idx)))%R)
  ∧ (∀ logits logits' idx,
       wf logits → wf logits' → size logits = size logits' →
       in_bounds (size logits) idx →
       item logits idx = item logits' idx →
       item (Sigmoid logits) idx = item (Sigmoid logits') idx)
  ∧ (∀ self encoded_utterance requested_slot_emb req_num_slots logits mask,
       _get_requested_slots self encoded_utterance requested_slot_emb
                            req_num_slots = Ok (logits, mask) →
       ∃ scores,
         Logits_forward (requested_slots_layer self)
                        encoded_utterance requested_slot_emb = Ok scores
         ∧ data logits = data scores)
  ∧ (∀ example_id example_id' output output' B N T B' N' T' idx,
       decodable B N T output → decodable B' N' T' output' →
       wf (logit_req_slot_status output) → wf (logit_req_slot_status output') →
       size (logit_req_slot_status output) = size (logit_req_slot_status output') →
       in_bounds (size (logit_req_slot_status output)) idx →
       item (logit_req_slot_status output) idx
       = item (logit_req_slot_status output') idx →
       ∃ predictions predictions' p p',
         decode example_id output = Ok (predictions, B)
         ∧ decode example_id' output' = Ok (predictions', B')
         ∧ dict_get "req_slot_status" predictions = Some (VFloat p)
         ∧ dict_get "req_slot_status" predictions' = Some (VFloat p')
         ∧ item p idx
           = (1 / (1 + exp (- item (logit_req_slot_status output) idx)))%R
         ∧ item p' idx = item p idx)
  ∧ (∀ gelu init dt D mc mn mode encoded_utterance requested_slot_emb req_num_slots B N,
       size encoded_utterance = [B; D] → size requested_slot_emb = [B; N; D] →
       size req_num_slots = [B] →
       ∃ logits mask,
         _get_requested_slots (SGDModel_init gelu init dt D mc mn mode)
                              encoded_utterance requested_slot_emb req_num_slots
         = Ok (logits, mask)
         ∧ size logits = [B; N]
         ∧ ∀ b i, b < B → i < N →
             item logits [b; i]
             = element_scores
                 (requested_slots_layer (SGDModel_init gelu init dt D mc mn mode))
                 (row encoded_utterance [b]) (row requested_slot_emb [b; i]) !!! 0).
Proof.
  split; [exact decode_decodable|].
  split; [|split; [|split; [|split; [|split]]]].
  - intros example_id output predictions batch_size Hd.
    apply decode_inv in Hd
      as (? & ? & ? & ? & ? & ? & ? & ? & ? & ? & _ & _ & _ & _ & _ & _ & _ & _ & Hreq & _).
    exact Hreq.
  - intros logits idx Hwf Hidx. unfold Sigmoid. by rewrite item_tmap.
  - intros logits logits' idx Hwf Hwf' Hsz Hidx Heq.
    unfold Sigmoid. rewrite !item_tmap; [by rewrite Heq|done|by rewrite <- Hsz|done|done].
  - intros self u e n logits mask. unfold _get_requested_slots.
    destruct (Logits_forward _ _ _) as [scores|]; [|done].
    rewrite bind_Ok. destruct (squeeze scores (-1)) as [l|] eqn:Hsq; [|done].
    rewrite bind_Ok. intros Hr. exists scores. split; [done|].
    apply data_squeeze in Hsq. rewrite <- Hsq.
    destruct (size_at _ _); [|done]. rewrite bind_Ok in Hr.
    destruct (_get_mask _ _ _ _) as [[m neg]|]; [|done].
    rewrite bind_Ok in Hr. destruct (view m _); [|done].
    rewrite bind_Ok in Hr. by simplify_eq.
  - intros example_id example_id' output output' B N T B' N' T' idx
           Hd Hd' Hwf Hwf' Hsz Hidx Heq.
    destruct (decode_decodable example_id output B N T Hd) as (predictions & Hp & Hr).
    destruct (decode_decodable example_id' output' B' N' T' Hd')
      as (predictions' & Hp' & Hr').
    exists predictions, predictions', (Sigmoid (logit_req_slot_status output)),
           (Sigmoid (logit_req_slot_status output')).
    do 4 (split; [done|]).
    unfold Sigmoid. rewrite !item_tmap; [by rewrite Heq|done|by rewrite <- Hsz|done|done].
  - intros gelu init dt D mc mn mode u emb n B N Hu He Hn.
    destruct (get_requested_slots_ok gelu init dt D mc mn mode u emb n B N Hu He Hn)
      as (logits & mask & Hr & Hsz & _ & _ & _ & Hitem).
    exists logits, mask. split; [exact Hr|]. split; [exact Hsz|].
    intros b i Hb Hi. by destruct (Hitem b i Hb Hi).
Qed.

Lemma req_slot_status_independent_witness :
  ∃ predictions predictions' p p',
    decode [] (two_token_output (mkTensor [1; 2] [0; 10]%R)) = Ok (predictions, 1)
    ∧ decode [] (two_token_output (mkTensor [1; 2] [0; -3]%R)) = Ok (predictions', 1)
    ∧ dict_get "req_slot_status" predictions = Some (VFloat p)
    ∧ dict_get "req_slot_status" predictions' = Some (VFloat p')
    ∧ item p [0; 0] = (1 / (1 + exp (- 0)))%R
    ∧ item p' [0; 0] = item p [0; 0].
Proof.
  apply (proj1 (proj2 (proj2 (proj2 (proj2 (proj2 req_slot_status_independent)))))
               [] [] (two_token_output (mkTensor [1; 2] [0; 10]%R))
               (two_token_output (mkTensor [1; 2] [0; -3]%R)) 1 1 2 1 1 2 [0; 0]).
  - unfold decodable. simpl. repeat split; (discriminate || lia).
  - unfold decodable. simpl. repeat split; (discriminate || lia).
  - reflexivity.
  - reflexivity.
  - reflexivity.
  - repeat constructor.
  - reflexivity.
Defined.

End pipeline_extra.

(** ** More on the BERT wrapper *)

Module bert_extra.
Import bert_nm bert_facts.


Section constructor.
Context {BertConfig BertModel hparams : Type}.
Variable super_init : result ().
Variable BertConfig_new : Z → hparams → result BertConfig.
Variable BertConfig_from_json_file : string → result BertConfig.
Variable BertModel_new : BertConfig → result BertModel.
Variable BertModel_from_pretrained : string → result BertModel.
Variable model_to : BertModel → result ().
Variable add_module : string → BertModel → result ().
Variable model_config : BertModel → BertConfig.
Variable config_hidden_size : BertConfig → nat.

Abbreviation BERT_init :=
  (BERT_init super_init BertConfig_new BertConfig_from_json_file BertModel_new
             BertModel_from_pretrained model_to add_module
             model_config config_hidden_size).
Abbreviation built_from :=
  (built_from BertConfig_new BertConfig_from_json_file BertModel_new
              BertModel_from_pretrained).

Ltac elems := rewrite ?elem_of_cons, ?elem_of_nil.

Ltac log_iff :=
  split;
  [ elems; intros Hin;
    first [ exfalso; by intuition discriminate
          | by repeat (split; [first [done | by eexists]|]); first [done | by eexists] ]
  | intros (H0 & H1 & H2 & H3);
    first [ done | discriminate H0 | by destruct H1 | by destruct H2
          | by destruct H3 | elems; tauto ] ].

(** The constructor returns the object [b] exactly when every call
    returns. *)
Lemma BERT_init_Ok_iff pn cf vs hp b :
  outcome (BERT_init pn cf vs hp) = Ok b
  ↔ super_init = Ok ()
    ∧ built_from pn cf vs hp (bert b)
    ∧ model_to (bert b) = Ok ()
    ∧ add_module "bert" (bert b) = Ok ()
    ∧ config b = model_config (bert b)
    ∧ _hidden_size b = config_hidden_size (model_config (bert b)).
Proof.
  split.
  - unfold bert_nm.built_from. run_cases pn cf vs; try discriminate.
    all: intros [= <-]; cbn [bert config _hidden_size].
    all: repeat match goal with u : () |- _ => destruct u end.
    all: repeat split; eauto.
  - intros (Hs & Hb & Hm & Ha & Hc & Hh). destruct b as [m c h]. simpl in *. subst c h.
    unfold bert_nm.built_from in Hb.
    unfold bert_nm.BERT_init, external, raise.
    destruct pn as [name|], cf as [file|], vs as [v|]; try done;
      cbn [total dispatch bool_decide decide_rel]; simpl;
      unfold mbind, run_bind; simpl; rewrite Hs; simpl.
    + rewrite Hb; simpl. rewrite Hm; simpl. by rewrite Ha.
    + destruct Hb as (c & Hc1 & Hc2).
      rewrite Hc1; simpl. rewrite Hc2; simpl. rewrite Hm; simpl. by rewrite Ha.
    + destruct Hb as (c & Hc1 & Hc2).
      rewrite Hc1; simpl. rewrite Hc2; simpl. rewrite Hm; simpl. by rewrite Ha.
Qed.

(** X19.  The constructor returns an object exactly when every call it
    makes returns: [super().__init__()], the library calls that build the
    model from the one argument given, the move of that model to the device
    and its registration under the name [bert].  The object keeps the
    configuration of the registered model, and its hidden size is the one
    of that configuration; the run of a returning call starts with
    [super().__init__()] and ends with the move to the device followed by
    the registration.  A run that reaches the registration has moved the
    model before, and it returns unless the registration raises; a run that
    reaches the move goes on to the registration unless the move raises. *)
Theorem BERT_init_returns pn cf vs hp :
  (∀ b, outcome (BERT_init pn cf vs hp) = Ok b
        ↔ super_init = Ok ()
          ∧ built_from pn cf vs hp (bert b)
          ∧ model_to (bert b) = Ok ()
          ∧ add_module "bert" (bert b) = Ok ()
          ∧ config b = model_config (bert b)
          ∧ _hidden_size b = config_hidden_size (model_config (bert b)))
  ∧ (∀ b, outcome (BERT_init pn cf vs hp) = Ok b →
       ∃ calls, log (BERT_init pn cf vs hp)
                = SuperInit :: calls ++ [ModelToDevice; AddModule])
  ∧ (AddModule ∈ log (BERT_init pn cf vs hp) →
       ModelToDevice ∈ log (BERT_init pn cf vs hp)
       ∧ ((∃ b, outcome (BERT_init pn cf vs hp) = Ok b)
          ∨ ∃ m e, built_from pn cf vs hp m ∧ model_to m = Ok ()
                   ∧ add_module "bert" m = Raise e
                   ∧ outcome (BERT_init pn cf vs hp) = Raise e))
  ∧ (ModelToDevice ∈ log (BERT_init pn cf vs hp) →
       AddModule ∈ log (BERT_init pn cf vs hp)
       ∨ ∃ m e, built_from pn cf vs hp m ∧ model_to m = Raise e
                ∧ outcome (BERT_init pn cf vs hp) = Raise e).
Proof.
  split; [intros b; apply BERT_init_Ok_iff|].
  unfold bert_nm.built_from. run_cases pn cf vs.
  all: split; [intros b' Hb'; try discriminate Hb'|split].
  all: try (elems; intros Hin; exfalso; by intuition discriminate).
  all: repeat match goal with u : () |- _ => destruct u end.
  all: try by (exists [BertModelFromPretrained]).
  all: try by (exists [BertConfigFromJsonFile; NewBertModel]).
  all: try by (exists [NewBertConfig; NewBertModel]).
  all: intros _.
  all: try (left; elems; tauto).
  all: try (split; [elems; tauto|]).
  all: try (left; by eexists).
  all: try (right; eexists _, _; by eauto 8).
Qed.

(** X20.  Each entry point of the transformers library is called only for
    its own argument, once [super().__init__()] has returned:
    [BertModel.from_pretrained] only when [pretrained_model_name] alone is
    given, [BertConfig.from_json_file] only when [config_filename] alone is
    given, and the [BertConfig] constructor only when [vocab_size] alone is
    given; and the model of a returned object is the one the library built
    from that argument. *)
Theorem BERT_init_library_calls pn cf vs hp :
  (BertModelFromPretrained ∈ log (BERT_init pn cf vs hp)
   ↔ super_init = Ok () ∧ is_Some pn ∧ cf = None ∧ vs = None)
  ∧ (BertConfigFromJsonFile ∈ log (BERT_init pn cf vs hp)
     ↔ super_init = Ok () ∧ pn = None ∧ is_Some cf ∧ vs = None)
  ∧ (NewBertConfig ∈ log (BERT_init pn cf vs hp)
     ↔ super_init = Ok () ∧ pn = None ∧ cf = None ∧ is_Some vs)
  ∧ ∀ b, outcome (BERT_init pn cf vs hp) = Ok b →
      match pn, cf, vs with
      | Some name, None, None => BertModel_from_pretrained name = Ok (bert b)
      | None, Some file, None =>
          ∃ c, BertConfig_from_json_file file = Ok c ∧ BertModel_new c = Ok (bert b)
      | None, None, Some v =>
          ∃ c, BertConfig_new v hp = Ok c ∧ BertModel_new c = Ok (bert b)
      | _, _, _ => False
      end.
Proof.
  destruct super_init as [[]|e0] eqn:Hsuper.
  all: unfold bert_nm.BERT_init, external, raise;
    destruct pn as [name|], cf as [file|], vs as [v|];
    cbn [total dispatch bool_decide decide_rel]; simpl;
    unfold mbind, run_bind; simpl; rewrite ?Hsuper; simpl; call_cases.
  all: do 3 (split; [log_iff|]).
  all: intros b' Hb'; try discriminate Hb'; injection Hb' as <-; cbn [bert]; eauto.
Qed.

End constructor.

(** *** [list_pretrained_models] *)

Lemma list_pretrained_models_snoc models configs k loc :
  list_pretrained_models (models ++ [(k, loc)]) configs
  = (infos ← list_pretrained_models models configs;
     parameters ← configs !! k;
     Some (infos ++ [mkPretrainedModelInfo k "weights by HuggingFace" parameters loc])).
Proof. unfold list_pretrained_models. by rewrite foldl_snoc. Qed.

(** X21.  [list_pretrained_models] returns a list exactly when every model
    name of the model archive map is a key of the configuration archive
    map (and raises [KeyError] otherwise).  The list has one entry per
    model, in the order of the model map: entry [i] carries the [i]-th
    name and location, the configuration stored under that name, and the
    fixed description. *)
Theorem list_pretrained_models_spec models configs :
  (is_Some (list_pretrained_models models configs)
   ↔ Forall (λ kv, is_Some (configs !! kv.1)) models)
  ∧ ∀ infos, list_pretrained_models models configs = Some infos →
      length infos = length models
      ∧ ∀ i k loc, models !! i = Some (k, loc) →
          ∃ parameters,
            configs !! k = Some parameters
            ∧ infos !! i
              = Some (mkPretrainedModelInfo k "weights by HuggingFace" parameters loc).
Proof.
  induction models as [|[k loc] models IH] using rev_ind.
  - split; [split; [constructor|by eexists]|].
    intros infos [= <-]. split; [done|]. intros i k loc Hi. done.
  - destruct IH as [IHok IHspec]. rewrite list_pretrained_models_snoc.
    destruct (list_pretrained_models models configs) as [infos0|] eqn:Hm.
    + destruct (IHspec infos0 eq_refl) as [Hlen Hent].
      cbn [mbind option_bind]. split.
      * rewrite Forall_app, Forall_singleton. cbn [fst].
        destruct (configs !! k) as [c|] eqn:Hk; cbn [mbind option_bind].
        -- split; [intros _; split; [by apply IHok|by eexists]|by eexists].
        -- split; [by intros [? ?]|]. by intros [_ [? ?]].
      * intros infos Hinfos.
        destruct (configs !! k) as [c|] eqn:Hk; [|done].
        cbn [mbind option_bind] in Hinfos. injection Hinfos as <-.
        split; [rewrite !length_app; simpl; lia|].
        intros i k' loc' Hi.
        destruct (decide (i < length models)) as [Hlt|Hge].
        -- rewrite lookup_app_l in Hi by done.
           destruct (Hent i k' loc' Hi) as (c' & Hc' & Hi').
           exists c'. split; [done|]. by rewrite lookup_app_l by lia.
        -- rewrite lookup_app_r in Hi by lia.
           destruct (length models - i) eqn:Hd; [|lia]. 
           assert (i = length models) as -> by (apply lookup_lt_Some in Hi; simpl in Hi; lia).
           rewrite Nat.sub_diag in Hi. injection Hi as <- <-.
           exists c. split; [done|].
           by rewrite lookup_app_r, Hlen, Nat.sub_diag by lia.
    + cbn [mbind option_bind]. split; [|done].
      split; [by intros [? ?]|].
      rewrite Forall_app. intros [Hall _]. apply IHok in Hall. by destruct Hall.
Qed.

Lemma BERT_init_returns_witness :
  outcome (BERT_init (Ok ()) (λ v (hp : nat * nat), Ok (v, hp))
                     (λ _, Raise (LibraryError "OSError"))
                     BertSelfAttention_check (λ _, Ok (30522%Z, (768, 12)))
                     (λ _, Ok ()) (λ _ _, Ok ()) (λ m, m) (λ c, c.2.1)
                     (Some "bert-base-uncased") None None (768, 12))
  = Ok (mkBERT (30522%Z, (768, 12)) (30522%Z, (768, 12)) 768).
Proof.
  apply (proj2 (proj1 (BERT_init_returns
                         (Ok ()) (λ v (hp : nat * nat), Ok (v, hp))
                         (λ _, Raise (LibraryError "OSError"))
                         BertSelfAttention_check (λ _, Ok (30522%Z, (768, 12)))
                         (λ _, Ok ()) (λ _ _, Ok ()) (λ m, m) (λ c, c.2.1)
                         (Some "bert-base-uncased") None None (768, 12))
                      (mkBERT (30522%Z, (768, 12)) (30522%Z, (768, 12)) 768))).
  repeat split; reflexivity.
Defined.

Lemma BERT_init_library_calls_witness :
  BertConfigFromJsonFile
  ∈ log (BERT_init (Ok ()) (λ v (hp : nat * nat), Ok (v, hp))
                   (λ _, Ok (30522%Z, (100, 12)))
                   BertSelfAttention_check (λ _, Raise (LibraryError "OSError"))
                   (λ _, Ok ()) (λ _ _, Ok ()) (λ m, m) (λ c, c.2.1)
                   None (Some "bert_config.json") None (768, 12)).
Proof.
  apply (proj2 (proj1 (proj2 (BERT_init_library_calls
                                (Ok ()) (λ v (hp : nat * nat), Ok (v, hp))
                                (λ _, Ok (30522%Z, (100, 12)))
                                BertSelfAttention_check
                                (λ _, Raise (LibraryError "OSError"))
                                (λ _, Ok ()) (λ _ _, Ok ()) (λ m, m) (λ c, c.2.1)
                                None (Some "bert_config.json") None (768, 12))))).
  split; [reflexivity|]. split; [reflexivity|]. split; [by eexists|reflexivity].
Defined.

Lemma list_pretrained_models_spec_witness :
  ∃ infos,
    list_pretrained_models
      [("bert-base-uncased", "https://models/bert-base-uncased.bin");
       ("bert-base-cased", "https://models/bert-base-cased.bin")]
      {["bert-base-uncased" := "https://models/bert-base-uncased-config.json";
        "bert-base-cased" := "https://models/bert-base-cased-config.json"]}
    = Some infos
    ∧ length infos = 2.
Proof.
  eexists. split; [reflexivity|].
  apply (proj2 (list_pretrained_models_spec
                  [("bert-base-uncased", "https://models/bert-base-uncased.bin");
                   ("bert-base-cased", "https://models/bert-base-cased.bin")]
                  {["bert-base-uncased" := "https://models/bert-base-uncased-config.json";
                    "bert-base-cased" := "https://models/bert-base-cased-config.json"]})).
  reflexivity.
Defined.

End bert_extra.
